(** * MeshCore enum sync generator: a shallow embedding of
      [meshcore_enum_generator.py] and the properties of its
      extraction / classification / diff / merge pipeline.

    Conventions of the embedding.
    - A Python [str] is a [string] of 8-bit characters.  Case conversion
      and the character classes of [re] ([\s], [\w]) are those of ASCII
      text; characters outside ASCII are left alone by [lower] and
      [capitalize] and belong to no class, which is what the code does
      on ASCII text only: a statement about the case of a name is made
      for ASCII names.
    - A Python [int] is a [Z].  [int] on a text is modelled with the
      limit of 4300 decimal digits of the stock interpreter; [str] is
      modelled below that limit, and a statement that rests on its text
      bounds the value.
    - A [dict] whose keys are the three fixed target enum names is a total
      function on [TargetEnum]; the other dicts are [gmap]s and the
      [set] of seen case keys is a [gset].
    - An exception that leaves a function is a result [Raise]. *)

From Stdlib Require Import ZArith Ascii String List DecimalString HexadecimalString.
From Stdlib Require Import Sorting.Sorted Sorting.Permutation.
From Stdlib Require DecimalPos HexadecimalPos.
From stdpp Require Import base gmap sets list strings.

Set Warnings "-register-all".

Local Open Scope string_scope.
Local Open Scope Z_scope.

(** ** Characters and strings (the [str] methods the script uses) *)

Definition ascii_code (c : ascii) : Z := Z.of_N (N_of_ascii c).

Definition char_of_code (z : Z) : ascii := ascii_of_N (Z.to_N z).

Definition is_upper (c : ascii) : bool :=
  (65 <=? ascii_code c) && (ascii_code c <=? 90).

Definition is_lower (c : ascii) : bool :=
  (97 <=? ascii_code c) && (ascii_code c <=? 122).

Definition is_digit (c : ascii) : bool :=
  (48 <=? ascii_code c) && (ascii_code c <=? 57).

Definition is_letter (c : ascii) : bool := is_upper c || is_lower c.

(** [\w] of [re] on ASCII text. *)
Definition is_word (c : ascii) : bool :=
  is_letter c || is_digit c || (ascii_code c =? 95).

(** [\s] of [re] and the characters removed by [str.strip()]:
    TAB, LF, VT, FF, CR, the separators 0x1c-0x1f and the space. *)
Definition is_space (c : ascii) : bool :=
  ((9 <=? ascii_code c) && (ascii_code c <=? 13))
  || ((28 <=? ascii_code c) && (ascii_code c <=? 31))
  || (ascii_code c =? 32).

Definition to_lower (c : ascii) : ascii :=
  if is_upper c then char_of_code (ascii_code c + 32) else c.

Definition to_upper (c : ascii) : ascii :=
  if is_lower c then char_of_code (ascii_code c - 32) else c.

Definition underscore : ascii := "_"%char.

(** [s.lower()] *)
Fixpoint lower (s : string) : string :=
  match s with
  | "" => ""
  | String c s' => String (to_lower c) (lower s')
  end.

(** [s.capitalize()]: first character upper-cased, the rest lower-cased. *)
Definition capitalize (s : string) : string :=
  match s with
  | "" => ""
  | String c s' => String (to_upper c) (lower s')
  end.

(** [s.split(sep)] for a one-character separator: never the empty list. *)
Fixpoint split_on (sep : ascii) (s : string) : list string :=
  match s with
  | "" => [""]
  | String c s' =>
      if Ascii.eqb c sep then "" :: split_on sep s'
      else match split_on sep s' with
           | p :: ps => String c p :: ps
           | [] => [String c ""]
           end
  end.

(** [''.join(parts)] *)
Fixpoint join_empty (parts : list string) : string :=
  match parts with
  | [] => ""
  | p :: ps => p +:+ join_empty ps
  end.

(** [sep.join(parts)] *)
Fixpoint join_with (sep : string) (parts : list string) : string :=
  match parts with
  | [] => ""
  | [p] => p
  | p :: ps => p +:+ sep +:+ join_with sep ps
  end.

(** [s.startswith(p)] *)
Fixpoint startswith (p s : string) : bool :=
  match p, s with
  | "", _ => true
  | String a p', String b s' => Ascii.eqb a b && startswith p' s'
  | String _ _, "" => false
  end.

(** [p in s] for strings: [p] occurs in [s] as a substring. *)
Fixpoint contains (p s : string) : bool :=
  startswith p s ||
  match s with
  | "" => false
  | String _ s' => contains p s'
  end.

(** [s.lstrip()], [s.rstrip()], [s.strip()] *)
Fixpoint lstrip (s : string) : string :=
  match s with
  | "" => ""
  | String c s' => if is_space c then lstrip s' else s
  end.

Fixpoint rstrip (s : string) : string :=
  match s with
  | "" => ""
  | String c s' =>
      match rstrip s' with
      | "" => if is_space c then "" else String c ""
      | r => String c r
      end
  end.

Definition strip (s : string) : string := rstrip (lstrip s).

(** [s.rstrip(',')] and more generally [s.rstrip(ch)] for one character. *)
Fixpoint rstrip_char (ch : ascii) (s : string) : string :=
  match s with
  | "" => ""
  | String c s' =>
      match rstrip_char ch s' with
      | "" => if Ascii.eqb c ch then "" else String c ""
      | r => String c r
      end
  end.

(** [s.replace(ch, '')] for one character. *)
Fixpoint remove_char (ch : ascii) (s : string) : string :=
  match s with
  | "" => ""
  | String c s' => if Ascii.eqb c ch then remove_char ch s' else String c (remove_char ch s')
  end.

(** ** Data model *)

Record EnumCase := mkEnumCase {
  ec_name : string;
  ec_value : Z;
  ec_source_file : string;
  ec_line_number : Z;
  ec_original_name : string
}.

Record EnumDefinition := mkEnumDefinition {
  ed_name : string;
  ed_cases : list EnumCase;
  ed_base_type : string;
  ed_source_file : string
}.

(** ** MeshCoreExtractor *)

(** [_normalize_name]: SCREAMING_SNAKE_CASE to lowerCamelCase. *)
Definition _normalize_name (name : string) : string :=
  match split_on underscore (lower name) with
  | [] => name
  | p0 :: ps => p0 +:+ join_empty (map capitalize ps)
  end.


(** *** The fragment of Python's [ast] that the extractor inspects *)

(** The value of an [ast.Constant].  [bool] is a subclass of [int]:
    [isinstance(True, int)] holds, and [int(True)] is [1]. *)
Inductive constant :=
  | CInt (z : Z)
  | CBool (b : bool)
  | CStr (s : string)
  | CFloat (repr : string)
  | CNone
  | COtherConst.

Inductive unaryop := USub | UAdd | UNot | UInvert.

Inductive expr :=
  | Constant (c : constant)
  | UnaryOp (op : unaryop) (operand : expr)
  | Name (id : string)
  | Attribute (value : expr) (attr : string)
  | Call (func : expr) (args : list expr)
  | Tuple (elts : list expr)
  | OtherExpr.

Inductive stmt :=
  | Assign (targets : list expr) (value : expr) (lineno : Z)
  | AnnAssign (target : expr) (value : option expr) (lineno : Z)
  | OtherStmt.

Record ClassDef := mkClassDef {
  cd_name : string;
  cd_bases : list expr;
  cd_body : list stmt
}.

(** A source file as the extractor sees it: [str(source_file)] and
    [str(source_file.relative_to(self.source_dir))]. *)
Record SourceFile := mkSourceFile {
  sf_path : string;
  sf_relative : string
}.

(** [isinstance(v, int)] followed by the conversion [int(v)]. *)
Definition int_of_constant (c : constant) : option Z :=
  match c with
  | CInt z => Some z
  | CBool b => Some (if b then 1 else 0)
  | _ => None
  end.

(** [_evaluate_constant].  The [ast.Num] branch is subsumed by the
    [ast.Constant] one: since Python 3.8 a number is an [ast.Constant]. *)
Fixpoint _evaluate_constant (node : expr) : option Z :=
  match node with
  | Constant c => int_of_constant c
  | UnaryOp USub operand =>
      match _evaluate_constant operand with
      | Some inner => Some (- inner)
      | None => None
      end
  | _ => None
  end.

(** [_extract_enum_case] *)
Definition _extract_enum_case (targets : list expr) (value : expr) (lineno : Z)
    (source_file : SourceFile) : option EnumCase :=
  match targets with
  | [Name enum_name] =>
      match _evaluate_constant value with
      | Some v =>
          Some {| ec_name := _normalize_name enum_name;
                  ec_value := v;
                  ec_source_file := sf_path source_file;
                  ec_line_number := lineno;
                  ec_original_name := enum_name |}
      | None => None
      end
  | _ => None
  end.

Definition any_keyword (keywords : list string) (s : string) : bool :=
  existsb (fun k => contains k s) keywords.

Definition string_in (s : string) (l : list string) : bool :=
  existsb (String.eqb s) l.

(** [_is_int_enum_subclass] *)
Definition _is_int_enum_subclass (class_node : ClassDef) : bool :=
  let class_name_lower := lower (cd_name class_node) in
  if any_keyword ["command"; "handler"; "base"] class_name_lower then false
  else existsb (fun base =>
         match base with
         | Name id => string_in id ["IntEnum"; "Enum"]
         | Attribute _ attr => string_in attr ["IntEnum"; "Enum"]
         | _ => false
         end) (cd_bases class_node).

(** The loop of [_extract_int_enum] over the class body. *)
Fixpoint extract_cases (body : list stmt) (source_file : SourceFile) : list EnumCase :=
  match body with
  | [] => []
  | Assign targets value lineno :: rest =>
      match _extract_enum_case targets value lineno source_file with
      | Some case => case :: extract_cases rest source_file
      | None => extract_cases rest source_file
      end
  | _ :: rest => extract_cases rest source_file
  end.

(** The loop of [_extract_int_enum] over the bases: the first base that
    is a plain name [IntEnum] or [Enum] decides; the default is [Enum]. *)
Fixpoint determine_base_type (bases : list expr) : string :=
  match bases with
  | [] => "Enum"
  | Name id :: rest =>
      if String.eqb id "IntEnum" then "IntEnum"
      else if String.eqb id "Enum" then "Enum"
      else determine_base_type rest
  | _ :: rest => determine_base_type rest
  end.

(** [_extract_int_enum] *)
Definition _extract_int_enum (class_node : ClassDef) (source_file : SourceFile)
    : option EnumDefinition :=
  if negb (_is_int_enum_subclass class_node) then None
  else
    let cases := extract_cases (cd_body class_node) source_file in
    if (Z.of_nat (length cases) <? 2) then None
    else if string_in (cd_name class_node) ["BinaryReqType"; "ControlType"]
            || contains "commands" (lower (sf_relative source_file)) then None
    else if negb (String.eqb (cd_name class_node) "PacketType") then None
    else Some {| ed_name := cd_name class_node;
                 ed_cases := cases;
                 ed_base_type := determine_base_type (cd_bases class_node);
                 ed_source_file := sf_relative source_file |}.

(** *** Classification *)

(** The three fixed Swift enums; their names are the keys of the
    dictionaries the script passes around. *)
Inductive TargetEnum := CommandCode | ResponseCode | PushCode.

Global Instance TargetEnum_eq_dec : EqDecision TargetEnum.
Proof. solve_decision. Defined.

Definition target_name (t : TargetEnum) : string :=
  match t with
  | CommandCode => "CommandCode"
  | ResponseCode => "ResponseCode"
  | PushCode => "PushCode"
  end.

Definition all_targets : list TargetEnum := [CommandCode; ResponseCode; PushCode].

(** The [return] statements of [_detect_target_enums_dynamic], in the
    order of the source. *)
Inductive ReturnSite :=
  | RetCommand        (* name has req/cmd/command/binary *)
  | RetPush           (* name has resp/response/event, some value >= 0x80 *)
  | RetResponse       (* name has resp/response/event, no value >= 0x80 *)
  | RetPacket         (* name has packet *)
  | RetNonNumeric     (* name has event/type and there are no values *)
  | RetNoValues       (* fallback, no values *)
  | RetAllLow         (* fallback, all values < 0x80 *)
  | RetAllHigh        (* fallback, all values >= 0x80 *)
  | RetMixed.         (* fallback, both ranges *)

Definition site_targets (r : ReturnSite) : list TargetEnum :=
  match r with
  | RetCommand => [CommandCode]
  | RetPush => [PushCode]
  | RetResponse => [ResponseCode]
  | RetPacket => [ResponseCode; PushCode]
  | RetNonNumeric => []
  | RetNoValues => []
  | RetAllLow => [ResponseCode]
  | RetAllHigh => [PushCode]
  | RetMixed => [ResponseCode; PushCode]
  end.

Definition is_nil {A} (l : list A) : bool :=
  match l with [] => true | _ => false end.

Definition command_keywords : list string := ["req"; "cmd"; "command"; "binary"].
Definition response_keywords : list string := ["resp"; "response"; "event"].

(** The branch of [_detect_target_enums_dynamic] that returns. *)
Definition detect_site (enum_def : EnumDefinition) : ReturnSite :=
  let enum_name := lower (ed_name enum_def) in
  let values := map ec_value (ed_cases enum_def) in
  if any_keyword command_keywords enum_name then RetCommand
  else if any_keyword response_keywords enum_name then
    if existsb (fun v => 128 <=? v) values then RetPush else RetResponse
  else if contains "packet" enum_name then RetPacket
  else if any_keyword ["event"; "type"] enum_name && is_nil values then RetNonNumeric
  else if is_nil values then RetNoValues
  else if forallb (fun v => v <? 128) values then RetAllLow
  else if forallb (fun v => 128 <=? v) values then RetAllHigh
  else RetMixed.

(** [_detect_target_enums_dynamic] *)
Definition _detect_target_enums_dynamic (enum_def : EnumDefinition) : list TargetEnum :=
  site_targets (detect_site enum_def).

(** A dictionary keyed by the three target enum names. *)
Definition TargetDict (A : Type) : Type := TargetEnum -> list A.

Definition empty_dict {A} : TargetDict A := fun _ => [].

(** [d[target].append(x)] *)
Definition dict_append {A} (target : TargetEnum) (x : A) (d : TargetDict A) : TargetDict A :=
  fun t => if decide (t = target) then (d t ++ [x])%list else d t.

Definition case_key (c : EnumCase) : string * Z := (ec_name c, ec_value c).

(** The state of the loops of [map_to_swift_enums]. *)
Record MapState := mkMapState {
  ms_swift_enums : TargetDict EnumCase;
  ms_seen_cases : gset (string * Z)
}.

(** One iteration of the inner loop: a case of a definition whose
    target list is [target_enums]. *)
Definition map_case (target_enums : list TargetEnum) (st : MapState) (case : EnumCase)
    : MapState :=
  if decide (case_key case ∈ ms_seen_cases st) then st
  else
    {| ms_swift_enums :=
         foldl (fun d target => dict_append target case d) (ms_swift_enums st) target_enums;
       ms_seen_cases := ms_seen_cases st ∪ {[ case_key case ]} |}.

(** One iteration of the outer loop. *)
Definition map_definition (st : MapState) (enum_def : EnumDefinition) : MapState :=
  foldl (map_case (_detect_target_enums_dynamic enum_def)) st (ed_cases enum_def).

(** [map_to_swift_enums]; [enums] is [self.enums.values()]. *)
Definition map_to_swift_enums (enums : list EnumDefinition) : TargetDict EnumCase :=
  ms_swift_enums
    (foldl map_definition {| ms_swift_enums := empty_dict; ms_seen_cases := ∅ |} enums).

(** ** SwiftAnalyzer *)

Record SwiftEnumCase := mkSwiftEnumCase {
  sc_name : string;
  sc_value : Z;
  sc_comment : option string;
  sc_line_number : option Z
}.

Record ChangeAnalysis := mkChangeAnalysis {
  ca_target_enum : TargetEnum;
  ca_additions : list EnumCase;
  ca_updates : list (EnumCase * SwiftEnumCase);
  ca_duplicates : list EnumCase;
  ca_swift_extras : list SwiftEnumCase
}.

(** Exceptions (their messages are not modelled) and results. *)
Inductive exn := RuntimeError | ValueError | IndexError | EOFError.

Inductive result (A : Type) :=
  | Ok (a : A)
  | Raise (e : exn).
Arguments Ok {A} a.
Arguments Raise {A} e.

Global Instance result_bind : MBind result :=
  fun A B f m => match m with Ok a => f a | Raise e => Raise e end.

(** *** Regular expressions of the parser, as hand-written matchers *)

Definition newline : ascii := "010"%char.

(** The longest prefix of characters in a class, and what follows it:
    a greedy [c*]. *)
Fixpoint span (p : ascii -> bool) (s : string) : string * string :=
  match s with
  | "" => ("", "")
  | String c s' =>
      if p c then let '(a, b) := span p s' in (String c a, b) else ("", s)
  end.

(** A literal at the front of [s]: what follows it. *)
Fixpoint strip_prefix (p s : string) : option string :=
  match p, s with
  | "", _ => Some s
  | String a p', String b s' => if Ascii.eqb a b then strip_prefix p' s' else None
  | String _ _, "" => None
  end.

(** [public enum NAME: UInt8, Sendable], the literal head of the block
    pattern. *)
Definition enum_header (enum_name : string) : string :=
  "public enum " +:+ enum_name +:+ ": UInt8, Sendable".

(** [\s*\}] matches at the front of [s]. *)
Definition closes_here (s : string) : bool :=
  match lstrip s with
  | String "}" _ => true
  | _ => false
  end.

(** The lazy [(.*?)] under DOTALL followed by [\s*\}]: the shortest
    prefix after which [\s*\}] matches. *)
Fixpoint lazy_body (s : string) : option string :=
  match s with
  | "" => None
  | String c s' =>
      if closes_here s then Some ""
      else match lazy_body s' with
           | Some body => Some (String c body)
           | None => None
           end
  end.

(** The block pattern [public enum NAME: UInt8, Sendable\s*\{(.*?)\s*\}]
    matched at the front of [s]: its group 1. *)
Definition match_enum_at (enum_name s : string) : option string :=
  match strip_prefix (enum_header enum_name) s with
  | None => None
  | Some rest =>
      match lstrip rest with
      | String "{" rest' => lazy_body rest'
      | _ => None
      end
  end.

(** A successful search of the block pattern: [m.start()] and [m.group(1)],
    the only capture group the pattern has. *)
Record EnumMatch := mkEnumMatch {
  em_start : Z;
  em_body : string
}.

Fixpoint search_enum_from (enum_name s : string) (pos : Z) : option EnumMatch :=
  match match_enum_at enum_name s with
  | Some body => Some {| em_start := pos; em_body := body |}
  | None =>
      match s with
      | "" => None
      | String _ s' => search_enum_from enum_name s' (pos + 1)
      end
  end.

(** [re.search(enum_pattern, content, re.MULTILINE | re.DOTALL)] *)
Definition search_enum_block (enum_name : TargetEnum) (content : string) : option EnumMatch :=
  search_enum_from (target_name enum_name) content 0.

(** [m.group(n)], [n >= 1], on a match of the block pattern. *)
Definition enum_match_group (m : EnumMatch) (n : nat) : result string :=
  if (n =? 1)%nat then Ok (em_body m) else Raise IndexError.

(** A match of the case pattern
    [case\s+(\w+)\s*=\s*([^/\n]+)(?:\s*//\s*( .* ))?]
    (written here with blanks inside the last group): groups 1 to 3;
    group 3 is [None] when the comment part took no part in the match. *)
Record CaseMatch := mkCaseMatch {
  cm_name : string;
  cm_value : string;
  cm_comment : option string
}.

Definition not_slash_newline (c : ascii) : bool :=
  negb (Ascii.eqb c "/") && negb (Ascii.eqb c newline).

Definition not_newline (c : ascii) : bool := negb (Ascii.eqb c newline).

(** The optional tail of the case pattern (white space, two slashes,
    white space, the rest of the line) at the front of [s]: group 3. *)
Definition match_comment (s : string) : option string :=
  match strip_prefix "//" (lstrip s) with
  | Some rest => Some (fst (span not_newline (lstrip rest)))
  | None => None
  end.

(** When [\s*] has taken the white space [ws] and [[^/\n]+] finds nothing
    after it, the matcher gives white space back: the last character of
    [ws] that is no newline becomes group 2, and the newlines after it are
    left for the tail. *)
Fixpoint last_non_newline (ws : string) : option (ascii * string) :=
  match ws with
  | "" => None
  | String c ws' =>
      match last_non_newline ws' with
      | Some r => Some r
      | None => if Ascii.eqb c newline then None else Some (c, ws')
      end
  end.

(** The case pattern matched at the front of [s]. *)
Definition match_case_at (s : string) : option CaseMatch :=
  match strip_prefix "case" s with
  | None => None
  | Some r1 =>
      let '(ws1, r2) := span is_space r1 in
      if String.eqb ws1 "" then None else
      let '(name, r3) := span is_word r2 in
      if String.eqb name "" then None else
      match snd (span is_space r3) with
      | String "=" r5 =>
          let '(ws2, r6) := span is_space r5 in
          let '(value, r7) := span not_slash_newline r6 in
          if String.eqb value "" then
            match last_non_newline ws2 with
            | Some (c, newlines) =>
                Some {| cm_name := name;
                        cm_value := String c "";
                        cm_comment := match_comment (newlines +:+ r6) |}
            | None => None
            end
          else
            Some {| cm_name := name; cm_value := value; cm_comment := match_comment r7 |}
      | _ => None
      end
  end.

(** [re.search(case_pattern, line)]: the leftmost match. *)
Fixpoint search_case (line : string) : option CaseMatch :=
  match match_case_at line with
  | Some m => Some m
  | None =>
      match line with
      | "" => None
      | String _ line' => search_case line'
      end
  end.

(** *** [int(text)] and [int(text, 16)] on ASCII text.
    The white space that [int] skips and the interpreter's limit on the
    number of decimal digits are modelled as the stock interpreter has
    them. *)

Definition digit_value (c : ascii) : option Z :=
  if is_digit c then Some (ascii_code c - 48)
  else if (97 <=? ascii_code c) && (ascii_code c <=? 122) then Some (ascii_code c - 87)
  else if (65 <=? ascii_code c) && (ascii_code c <=? 90) then Some (ascii_code c - 55)
  else None.

(** What the scan of the digits has just read. *)
Inductive scan_prev := PrevNone | PrevDigit | PrevUnderscore.

(** Digits of the base, single underscores allowed between two digits. *)
Fixpoint scan_digits (base : Z) (s : string) (prev : scan_prev) (acc : Z) : option Z :=
  match s with
  | "" => match prev with PrevDigit => Some acc | _ => None end
  | String c s' =>
      if Ascii.eqb c underscore then
        match prev with
        | PrevDigit => scan_digits base s' PrevUnderscore acc
        | _ => None
        end
      else
        match digit_value c with
        | Some d => if d <? base then scan_digits base s' PrevDigit (acc * base + d) else None
        | None => None
        end
  end.

(** After the sign: for base 16 an optional [0x] or [0X], after which one
    underscore may come. *)
Definition skip_base_prefix (base : Z) (s : string) : string :=
  if base =? 16 then
    match s with
    | String "0" (String x rest) =>
        if Ascii.eqb x "x" || Ascii.eqb x "X" then
          match rest with
          | String "_" rest' => rest'
          | _ => rest
          end
        else s
    | _ => s
    end
  else s.

(** The white space that [int] skips around a number: TAB, LF, VT, FF,
    CR and the space.  The separators 0x1c-0x1f, which [str.strip()]
    removes, are no white space for [int]: it raises on them. *)
Definition is_int_space (c : ascii) : bool :=
  ((9 <=? ascii_code c) && (ascii_code c <=? 13)) || (ascii_code c =? 32).

Fixpoint int_lstrip (s : string) : string :=
  match s with
  | "" => ""
  | String c s' => if is_int_space c then int_lstrip s' else s
  end.

Fixpoint int_rstrip (s : string) : string :=
  match s with
  | "" => ""
  | String c s' =>
      match int_rstrip s' with
      | "" => if is_int_space c then "" else String c ""
      | r => String c r
      end
  end.

Definition int_strip (s : string) : string := int_rstrip (int_lstrip s).

(** The digits that count for the limit of the interpreter: the
    characters after the sign, leading zeros included, underscores not. *)
Fixpoint count_digits (s : string) : Z :=
  match s with
  | "" => 0
  | String c s' => (if Ascii.eqb c underscore then 0 else 1) + count_digits s'
  end.

(** [sys.get_int_max_str_digits()] of the stock interpreter: a decimal
    text of more digits is refused by [int], and [str] refuses an integer
    of more decimal digits.  The limit does not apply to base 16. *)
Definition max_str_digits : Z := 4300.

(** The least positive integer that [str] refuses. *)
Definition max_str_value : Z := 10 ^ max_str_digits.

(** [int(text, base)] for base 10 or 16: [None] is [ValueError]. *)
Definition py_int (base : Z) (text : string) : option Z :=
  let s := int_strip text in
  let '(negative, digits) :=
    match s with
    | String "-" s' => (true, s')
    | String "+" s' => (false, s')
    | _ => (false, s)
    end in
  let digits := skip_base_prefix base digits in
  if (base =? 10) && (max_str_digits <? count_digits digits) then None
  else
    match scan_digits base digits PrevNone 0 with
    | Some n => Some (if negative then - n else n)
    | None => None
    end.

(** [_parse_swift_value].  It returns an integer or raises; it never
    returns [None], so the caller's [if value is not None] always holds. *)
Definition _parse_swift_value (value_str : string) : result Z :=
  let value_str := rstrip_char "," (strip value_str) in
  let parsed := if startswith "0x" value_str || startswith "0X" value_str
                then py_int 16 value_str
                else py_int 10 value_str in
  match parsed with
  | Some v => Ok v
  | None => Raise ValueError
  end.

(** *** [_parse_existing_enums] *)

(** The loop over the lines of a block body, numbered from [line_num]. *)
Fixpoint parse_case_lines (line_num : Z) (lines : list string) : result (list SwiftEnumCase) :=
  match lines with
  | [] => Ok []
  | line :: rest =>
      match search_case line with
      | None => parse_case_lines (line_num + 1) rest
      | Some case_match =>
          value ← _parse_swift_value (strip (cm_value case_match));
          cases ← parse_case_lines (line_num + 1) rest;
          Ok ({| sc_name := cm_name case_match;
                 sc_value := value;
                 sc_comment := cm_comment case_match;
                 sc_line_number := Some line_num |} :: cases)
      end
  end.

(** The body of the loop over the three enum names: the cases it appends
    to [enums[enum_name]]. *)
Definition parse_enum_block (content : string) (enum_name : TargetEnum)
    : result (list SwiftEnumCase) :=
  match search_enum_block enum_name content with
  | None => Ok []
  | Some enum_match =>
      parse_case_lines (em_start enum_match) (split_on newline (em_body enum_match))
  end.

Definition dict_extend {A} (target : TargetEnum) (xs : list A) (d : TargetDict A)
    : TargetDict A :=
  fun t => if decide (t = target) then (d t ++ xs)%list else d t.

Fixpoint parse_enum_blocks (content : string) (names : list TargetEnum)
    (enums : TargetDict SwiftEnumCase) : result (TargetDict SwiftEnumCase) :=
  match names with
  | [] => Ok enums
  | enum_name :: rest =>
      cases ← parse_enum_block content enum_name;
      parse_enum_blocks content rest (dict_extend enum_name cases enums)
  end.

(** [_parse_existing_enums]; [file] is the text of the target file, or
    [None] when opening it raises [FileNotFoundError].  Every exception
    of the [try] block leaves as a [RuntimeError]. *)
Definition _parse_existing_enums (file : option string) : result (TargetDict SwiftEnumCase) :=
  match file with
  | None => Raise RuntimeError
  | Some content =>
      match parse_enum_blocks content all_targets empty_dict with
      | Ok enums => Ok enums
      | Raise _ => Raise RuntimeError
      end
  end.

(** *** Diffing *)

Definition cons_head (c : ascii) (parts : list string) : list string :=
  match parts with
  | p :: ps => String c p :: ps
  | [] => [String c ""]
  end.

(** [re.split] on the pattern that is one upper-case letter [A-Z]
    followed by any number of lower-case letters [a-z], in a capture
    group: the text between the matches and, because of the capture
    group, the matches themselves.  [in_match]
    tells whether the piece being read is a match (an upper-case letter
    and the lower-case letters after it); the head of the result is the
    rest of the piece being read. *)
Fixpoint split_capitalized_go (in_match : bool) (s : string) : list string :=
  match s with
  | "" => if in_match then [""; ""] else [""]
  | String c s' =>
      if is_upper c then
        let r := cons_head c (split_capitalized_go true s') in
        if in_match then "" :: "" :: r else "" :: r
      else if in_match && is_lower c then cons_head c (split_capitalized_go true s')
      else
        let r := cons_head c (split_capitalized_go false s') in
        if in_match then "" :: r else r
  end.

Definition split_capitalized (name : string) : list string :=
  split_capitalized_go false name.

(** The local function [normalize_swift_name] of [_analyze_enum_changes]. *)
Definition normalize_swift_name (name : string) : string :=
  let parts := split_capitalized name in
  remove_char underscore
    (join_empty (map lower (List.filter (fun p => negb (String.eqb p "")) parts))).

Definition swift_key (case : SwiftEnumCase) : string * Z :=
  (normalize_swift_name (sc_name case), sc_value case).

(** [{(normalize_swift_name(case.name), case.value): case for case in swift_cases}] *)
Definition swift_normalized_map (swift_cases : list SwiftEnumCase)
    : gmap (string * Z) SwiftEnumCase :=
  foldl (fun m case => <[swift_key case := case]> m) ∅ swift_cases.

(** [{case.value: case for case in swift_cases}] *)
Definition swift_value_map (swift_cases : list SwiftEnumCase) : gmap Z SwiftEnumCase :=
  foldl (fun m case => <[sc_value case := case]> m) ∅ swift_cases.

(** [key in d] *)
Definition dict_has `{Countable K} {V} (key : K) (d : gmap K V) : bool :=
  bool_decide (is_Some (d !! key)).

Definition py_key (py_case : EnumCase) : string * Z :=
  (lower (ec_name py_case), ec_value py_case).

(** The lists the first loop of [_analyze_enum_changes] fills. *)
Record DiffState := mkDiffState {
  ds_additions : list EnumCase;
  ds_duplicates : list EnumCase
}.

(** One iteration of that loop. *)
Definition diff_case (normalized : gmap (string * Z) SwiftEnumCase)
    (by_value : gmap Z SwiftEnumCase) (st : DiffState) (py_case : EnumCase) : DiffState :=
  if dict_has (py_key py_case) normalized then st
  else if dict_has (ec_value py_case) by_value then
    {| ds_additions := ds_additions st;
       ds_duplicates := (ds_duplicates st ++ [py_case])%list |}
  else
    {| ds_additions := (ds_additions st ++ [py_case])%list;
       ds_duplicates := ds_duplicates st |}.

Definition diff_cases (python_cases : list EnumCase) (swift_cases : list SwiftEnumCase)
    : DiffState :=
  foldl (diff_case (swift_normalized_map swift_cases) (swift_value_map swift_cases))
        {| ds_additions := []; ds_duplicates := [] |} python_cases.

(** The second loop: the Swift cases whose name and value are both
    unknown on the Python side. *)
Definition find_swift_extras (python_cases : list EnumCase) (swift_cases : list SwiftEnumCase)
    : list SwiftEnumCase :=
  let py_case_names : gset string := list_to_set (map ec_name python_cases) in
  let py_case_values : gset Z := list_to_set (map ec_value python_cases) in
  List.filter (fun swift_case =>
                 negb (bool_decide (sc_name swift_case ∈ py_case_names))
                 && negb (bool_decide (sc_value swift_case ∈ py_case_values)))
              swift_cases.

(** [_analyze_enum_changes] *)
Definition _analyze_enum_changes (enum_name : TargetEnum) (python_cases : list EnumCase)
    (swift_cases : list SwiftEnumCase) : ChangeAnalysis :=
  let st := diff_cases python_cases swift_cases in
  {| ca_target_enum := enum_name;
     ca_additions := ds_additions st;
     ca_updates := [];
     ca_duplicates := ds_duplicates st;
     ca_swift_extras := find_swift_extras python_cases swift_cases |}.

(** The filter of [analyze_changes] by value range. *)
Definition filter_by_range (enum_name : TargetEnum) (python_cases : list EnumCase)
    : list EnumCase :=
  match enum_name with
  | CommandCode => python_cases
  | ResponseCode => List.filter (fun c => ec_value c <? 128) python_cases
  | PushCode => List.filter (fun c => 128 <=? ec_value c) python_cases
  end.

(** [analyze_changes] *)
Definition analyze_changes (swift_enums : TargetDict SwiftEnumCase)
    (python_enums : TargetDict EnumCase) : list ChangeAnalysis :=
  map (fun enum_name =>
         _analyze_enum_changes enum_name
           (filter_by_range enum_name (python_enums enum_name))
           (swift_enums enum_name))
      all_targets.

(** *** Merging *)

(** [s.upper()] *)
Fixpoint upper (s : string) : string :=
  match s with
  | "" => ""
  | String c s' => String (to_upper c) (upper s')
  end.

(** [str(value)] for an integer of at most [max_str_digits] decimal
    digits; beyond that the stock interpreter raises [ValueError], and
    the properties that rest on this text bound the value. *)
Definition str_int (value : Z) : string :=
  DecimalString.NilZero.string_of_int (Z.to_int value).

(** The upper-case hexadecimal digits of a natural number. *)
Definition hex_digits (n : Z) : string :=
  upper (HexadecimalString.NilZero.string_of_int (Z.to_hex_int n)).

Fixpoint zeros (n : nat) : string :=
  match n with
  | O => ""
  | S n' => String "0" (zeros n')
  end.

Definition zero_pad (width : nat) (s : string) : string :=
  zeros (width - String.length s) +:+ s.

(** [f"{value:02X}"]: the padding with zeros to width 2 counts the sign. *)
Definition format_02X (value : Z) : string :=
  if value <? 0 then "-" +:+ zero_pad 1 (hex_digits (- value))
  else zero_pad 2 (hex_digits value).

(** [_format_swift_value], used for the code of the additions. *)
Definition _format_swift_value (value : Z) (source_context : string) : string :=
  if (128 <=? value) || startswith "0x" source_context
  then "0x" +:+ format_02X value
  else str_int value.

(** [sorted(cases, key=lambda c: c.value)]: a stable sort; an element
    goes before the first one whose value is not smaller. *)
Fixpoint insert_by {A} (value : A -> Z) (case : A) (sorted : list A) : list A :=
  match sorted with
  | [] => [case]
  | x :: rest =>
      if value case <=? value x then case :: sorted
      else x :: insert_by value case rest
  end.

Fixpoint sorted_by {A} (value : A -> Z) (cases : list A) : list A :=
  match cases with
  | [] => []
  | case :: rest => insert_by value case (sorted_by value rest)
  end.

(** [Path(path).name] for the path of a file, as [rglob] gives the
    paths of the sources (no slash and no dot component at its end):
    what follows the last slash. *)
Definition path_name (path : string) : string :=
  List.last (split_on "/" path) "".

(** [generate_swift_cases]: the Swift code of the additions, one line per
    case, sorted by value. *)
Definition generate_swift_cases (version_tag : string) (cases : list EnumCase) : string :=
  join_with (String newline "")
    (map (fun case =>
            let value_str := _format_swift_value (ec_value case) (ec_original_name case) in
            let comment := " // Python: " +:+ ec_original_name case +:+ " ("
                           +:+ path_name (ec_source_file case) +:+ " v" +:+ version_tag
                           +:+ ")" in
            "    case " +:+ ec_name case +:+ " = " +:+ value_str +:+ comment)
         (sorted_by ec_value cases)).

Definition not_slash_space (c : ascii) : bool :=
  negb (Ascii.eqb c "/") && negb (is_space c).

(** [re.match] of the pattern of [_parse_new_cases_from_code], which is
    the case pattern with white space allowed in front and a value that
    holds no white space. *)
Definition match_new_case (s : string) : option CaseMatch :=
  match strip_prefix "case" (lstrip s) with
  | None => None
  | Some r1 =>
      let '(ws1, r2) := span is_space r1 in
      if String.eqb ws1 "" then None else
      let '(name, r3) := span is_word r2 in
      if String.eqb name "" then None else
      match snd (span is_space r3) with
      | String "=" r5 =>
          let '(value, r7) := span not_slash_space (snd (span is_space r5)) in
          if String.eqb value "" then None
          else Some {| cm_name := name; cm_value := value; cm_comment := match_comment r7 |}
      | _ => None
      end
  end.

(** The loop of [_parse_new_cases_from_code] over the lines of the code. *)
Fixpoint parse_new_case_lines (lines : list string) : result (list SwiftEnumCase) :=
  match lines with
  | [] => Ok []
  | line :: rest =>
      let skip := parse_new_case_lines rest in
      if startswith "case " (strip line) then
        match match_new_case (strip line) with
        | None => skip
        | Some m =>
            let value_str := cm_value m in
            let parsed := if startswith "0x" value_str || startswith "0X" value_str
                          then py_int 16 value_str
                          else py_int 10 value_str in
            match parsed with
            | None => Raise ValueError
            | Some value =>
                cases ← skip;
                Ok ({| sc_name := cm_name m; sc_value := value;
                       sc_comment := cm_comment m; sc_line_number := None |} :: cases)
            end
        end
      else skip
  end.

(** [_parse_new_cases_from_code] *)
Definition _parse_new_cases_from_code (new_cases_code : string) : result (list SwiftEnumCase) :=
  parse_new_case_lines (split_on newline (strip new_cases_code)).

Definition hex_name_prefixes : list string :=
  ["node"; "path"; "send"; "set"; "get"; "req"; "resp"].

(** [case.name.startswith((...))] *)
Definition has_hex_prefix (name : string) : bool :=
  existsb (fun p => startswith p name) hex_name_prefixes.

(** The value of a case in the regenerated block. *)
Definition render_value (case : SwiftEnumCase) : string :=
  if (sc_value case <? 256) && (has_hex_prefix (sc_name case) || (128 <=? sc_value case))
  then "0x" +:+ format_02X (sc_value case)
  else str_int (sc_value case).

(** An empty comment counts as no comment. *)
Definition comment_part (case : SwiftEnumCase) : string :=
  match sc_comment case with
  | Some "" => ""
  | Some comment => " // " +:+ comment
  | None => ""
  end.

(** One line of the regenerated block: case number [i] of [count]. *)
Definition render_line (count : Z) (i : Z) (case : SwiftEnumCase) : string :=
  let comma_part := if i <? count - 1 then "," else "" in
  "    case " +:+ sc_name case +:+ " = " +:+ render_value case
    +:+ comment_part case +:+ comma_part.

Fixpoint render_lines (count : Z) (i : Z) (cases : list SwiftEnumCase) : list string :=
  match cases with
  | [] => []
  | case :: rest => render_line count i case :: render_lines count (i + 1) rest
  end.

(** The merge of [insert_cases_into_swift_file]: existing and new cases
    together, sorted by value. *)
Definition merged_cases (existing_cases new_cases : list SwiftEnumCase) : list SwiftEnumCase :=
  sorted_by sc_value (existing_cases ++ new_cases)%list.

(** [new_enum_body_content] of [insert_cases_into_swift_file]: the body
    of the regenerated block.  [new_cases] are the additions as
    [_parse_new_cases_from_code] reads them back from the generated code. *)
Definition new_enum_body_content (existing_cases new_cases : list SwiftEnumCase) : string :=
  let sorted_cases := merged_cases existing_cases new_cases in
  join_with (String newline "")
    (render_lines (Z.of_nat (length sorted_cases)) 0 sorted_cases).

(** [s.count(ch)] *)
Fixpoint count_char (ch : ascii) (s : string) : Z :=
  match s with
  | "" => 0
  | String c s' => (if Ascii.eqb c ch then 1 else 0) + count_char ch s'
  end.

(** The loop of [_parse_enum_by_lines]: the line with the head of the
    block and the first line after it on which the braces are balanced
    again. *)
Fixpoint find_enum_lines (header : string) (lines : list string) (i : nat)
    (start_line : option nat) (brace_count : Z) : option nat * option nat :=
  match lines with
  | [] => (start_line, None)
  | line :: rest =>
      if contains header line then
        find_enum_lines header rest (S i) (Some i)
          (count_char "{" line - count_char "}" line)
      else
        match start_line with
        | Some _ =>
            let brace_count := brace_count + (count_char "{" line - count_char "}" line) in
            if brace_count <=? 0 then (start_line, Some i)
            else find_enum_lines header rest (S i) start_line brace_count
        | None => find_enum_lines header rest (S i) start_line brace_count
        end
  end.

(** [_parse_enum_by_lines]: the fallback that puts the new code in front
    of the closing line of the block. *)
Definition _parse_enum_by_lines (content : string) (enum_name : TargetEnum)
    (new_cases_code : string) : result string :=
  let lines := split_on newline content in
  match find_enum_lines (enum_header (target_name enum_name)) lines 0 None 0 with
  | (Some _, Some end_line) =>
      Ok (join_with (String newline "")
            (take end_line lines ++ new_cases_code :: drop end_line lines)%list)
  | _ => Raise RuntimeError
  end.

Section Merge.

(** [re.sub] of the block pattern in the content, by the library. *)
Variable sub_enum_block : TargetEnum -> string -> string -> result string.

(** [insert_cases_into_swift_file]; [swift_enums] is [self.swift_enums].
    The block pattern has one capture group. *)
Definition insert_cases_into_swift_file (swift_enums : TargetDict SwiftEnumCase)
    (content : string) (target_enum : TargetEnum) (new_cases_code : string)
    : result string :=
  match search_enum_block target_enum content with
  | None => _parse_enum_by_lines content target_enum new_cases_code
  | Some enum_match =>
      enum_body ← enum_match_group enum_match 1;
      closing_brace ← enum_match_group enum_match 2;
      let existing_cases := swift_enums target_enum in
      new_cases ← _parse_new_cases_from_code new_cases_code;
      if is_nil new_cases then Ok content
      else
        let new_enum_body :=
          enum_header (target_name target_enum) +:+ " {" +:+ String newline ""
          +:+ new_enum_body_content existing_cases new_cases +:+ String newline ""
          +:+ strip closing_brace +:+ "}" in
        sub_enum_block target_enum new_enum_body content
  end.

End Merge.

(** ** MeshCoreSyncApp *)

(** What a run can observe and change: the text of the target file
    ([None] when there is no such file), the lines waiting on standard
    input, and what was printed (messages are abbreviated, and the output
    of the verbose mode is left out). *)
Record World := mkWorld {
  w_target_file : option string;
  w_stdin : list string;
  w_printed : list string
}.

Definition print (message : string) (w : World) : World :=
  {| w_target_file := w_target_file w;
     w_stdin := w_stdin w;
     w_printed := (w_printed w ++ [message])%list |}.

(** [input(prompt)]: the next line of standard input, [EOFError] at its end. *)
Definition input (prompt : string) (w : World) : result string * World :=
  match w_stdin w with
  | [] => (Raise EOFError, print prompt w)
  | line :: rest =>
      (Ok line,
       {| w_target_file := w_target_file w;
          w_stdin := rest;
          w_printed := (w_printed w ++ [prompt])%list |})
  end.

Definition sum_lengths {A} (f : ChangeAnalysis -> list A) (analyses : list ChangeAnalysis) : Z :=
  fold_right (fun a acc => Z.of_nat (length (f a)) + acc) 0 analyses.

(** The answers that count as a yes. *)
Definition is_yes (response : string) : bool :=
  string_in (strip (lower response)) ["y"; "yes"].

Definition default_max_additions : Z := 50.

Section Run.

(** The parts of the run that are outside this development: the text of
    the change summary, and the application of the approved changes
    (backup, merge, validation by the Swift tool chain, write) followed
    by the update of the version comment. *)
Variable summary_text : list ChangeAnalysis -> bool -> list string.
Variable apply_and_stamp : list ChangeAnalysis -> bool -> World -> Z * World.

(** [_show_change_summary] *)
Definition _show_change_summary (analyses : list ChangeAnalysis) (dry_run auto_approve : bool)
    (w : World) : result bool * World :=
  let total_additions := sum_lengths ca_additions analyses in
  let total_updates := sum_lengths ca_updates analyses in
  if (total_additions =? 0) && (total_updates =? 0) then
    (Ok false, print "No changes detected - enums are already in sync!" w)
  else
    let w := foldl (fun w line => print line w) w (summary_text analyses dry_run) in
    if auto_approve then (Ok true, print "AUTO-APPROVAL ENABLED" w)
    else
      match input "Proceed with these changes? (y/n): " w with
      | (Ok response, w') => (Ok (is_yes response), w')
      | (Raise e, w') => (Raise e, w')
      end.

(** [run] from step 3.5 on: [analyses] is what steps 1 to 3 computed.
    The result is the exit code and the world after the run; an
    exception is caught, reported, and gives exit code 1. *)
Definition run_from_analyses (analyses : list ChangeAnalysis)
    (dry_run auto_approve skip_backup : bool) (max_additions : Z) (w : World)
    : Z * World :=
  let total_additions := sum_lengths ca_additions analyses in
  let continue (w : World) : Z * World :=
    match _show_change_summary analyses dry_run auto_approve w with
    | (Raise _, w') => (1, print "Error" w')
    | (Ok false, w') => (0, w')
    | (Ok true, w') =>
        if dry_run then (0, print "Dry run complete - no changes made" w')
        else apply_and_stamp analyses skip_backup (print "Applying changes..." w')
    end in
  if (max_additions <? total_additions) && negb auto_approve then
    let w := print "Warning: additions exceed safety limit" w in
    let w := print "This may indicate incorrect enum mapping or version mismatch." w in
    match input "Proceed anyway? (y/n): " w with
    | (Raise _, w') => (1, print "Error" w')
    | (Ok response, w') =>
        if negb (is_yes response) then (0, print "Aborted due to safety limit" w')
        else continue w'
    end
  else continue w.

(** [run].  [mapped_enums] is the outcome of steps 1 and 2, the download
    of the release and the extraction and mapping of its enums; they
    do not touch the target file.  Step 3 builds the analyzer, which
    parses the target file, and analyzes the changes.  The removal of
    the download directory in the [finally] clause is left out. *)
Definition run (mapped_enums : result (TargetDict EnumCase))
    (dry_run auto_approve skip_backup : bool) (max_additions : Z) (w : World)
    : Z * World :=
  let w := print "Downloading MeshCore Python library..." w in
  match mapped_enums with
  | Raise _ => (1, print "Error" w)
  | Ok mapped =>
      let w := print "Extracting enum definitions..." w in
      let w := print "Analyzing changes..." w in
      match _parse_existing_enums (w_target_file w) with
      | Raise _ => (1, print "Error" w)
      | Ok swift_enums =>
          run_from_analyses (analyze_changes swift_enums mapped)
            dry_run auto_approve skip_backup max_additions w
      end
  end.

End Run.

(** ** Notions used to state the properties *)

(** Some underscore of [s] is directly followed by a letter. *)
Fixpoint underscore_then_letter (s : string) : bool :=
  match s with
  | "" => false
  | String c s' =>
      (Ascii.eqb c underscore
       && match s' with String d _ => is_letter d | "" => false end)
      || underscore_then_letter s'
  end.







(** The filters of [_extract_int_enum] that do not look at the cases. *)
Definition class_accepted (class_node : ClassDef) (source_file : SourceFile) : bool :=
  _is_int_enum_subclass class_node
  && String.eqb (cd_name class_node) "PacketType"
  && negb (contains "commands" (lower (sf_relative source_file))).

(** An existing case has the normalized name and the value of [py_case]. *)
Definition covered (swift_cases : list SwiftEnumCase) (py_case : EnumCase) : Prop :=
  ∃ swift_case, In swift_case swift_cases
    ∧ normalize_swift_name (sc_name swift_case) = lower (ec_name py_case)
    ∧ sc_value swift_case = ec_value py_case.

(** An existing case has the value of [py_case]. *)
Definition value_taken (swift_cases : list SwiftEnumCase) (py_case : EnumCase) : Prop :=
  ∃ swift_case, In swift_case swift_cases ∧ sc_value swift_case = ec_value py_case.

(** The value of a regenerated line as the specification words it:
    hexadecimal from 0x80 on or under a control-style name. *)
Definition spec_render_value (case : SwiftEnumCase) : string :=
  if (128 <=? sc_value case) || has_hex_prefix (sc_name case)
  then "0x" +:+ format_02X (sc_value case)
  else str_int (sc_value case).

Definition hex_digit_char (d : Z) : ascii :=
  if d <? 10 then char_of_code (48 + d) else char_of_code (55 + d).

(** The value text of a matched case line as [_parse_swift_value] reads
    it, and when it is a number. *)
Definition value_text (case_match : CaseMatch) : string :=
  rstrip_char "," (strip (strip (cm_value case_match))).

Definition valid_decimal (text : string) : Prop := is_Some (py_int 10 text).

Definition valid_prefixed_hex (text : string) : Prop :=
  (startswith "0x" text || startswith "0X" text = true) ∧ is_Some (py_int 16 text).

(** What [_normalize_name] makes of the text after an underscore. *)
Definition normalize_tail (s : string) : string :=
  join_empty (map capitalize (split_on underscore (lower s))).

Fixpoint has_char (ch : ascii) (s : string) : bool :=
  match s with
  | "" => false
  | String c s' => Ascii.eqb c ch || has_char ch s'
  end.

Fixpoint has_upper (s : string) : bool :=
  match s with
  | "" => false
  | String c s' => is_upper c || has_upper s'
  end.

Definition starts_with_letter (s : string) : bool :=
  match s with String d _ => is_letter d | "" => false end.

(** What the loops of [map_to_swift_enums] maintain: the key of every
    case in a list is in the set of seen keys, and no list holds a key
    twice. *)
Definition map_invariant (st : MapState) : Prop :=
  (∀ t c, c ∈ ms_swift_enums st t → case_key c ∈ ms_seen_cases st)
  ∧ (∀ t, NoDup (case_key <$> ms_swift_enums st t)).

(** ** The rest of the pipeline *)

(** *** [extract_all_enums] *)

(** A source file of the tree: its paths and the class definitions that
    [ast.walk] yields, or [None] when the file does not parse
    ([SyntaxError], [UnicodeDecodeError]) and is skipped. *)
Record PyFile := mkPyFile {
  pf_file : SourceFile;
  pf_classes : option (list ClassDef)
}.

(** [d[key] = value] on a dictionary in insertion order: a key that is
    there keeps its place. *)
Fixpoint odict_set {V} (key : string) (value : V) (d : list (string * V))
    : list (string * V) :=
  match d with
  | [] => [(key, value)]
  | (k, v) :: rest =>
      if String.eqb k key then (k, value) :: rest
      else (k, v) :: odict_set key value rest
  end.

(** The loop over the class definitions of one file. *)
Definition extract_file_enums (enums : list (string * EnumDefinition)) (file : PyFile)
    : list (string * EnumDefinition) :=
  match pf_classes file with
  | None => enums
  | Some classes =>
      foldl (fun enums class_node =>
               match _extract_int_enum class_node (pf_file file) with
               | Some enum_def => odict_set (ed_name enum_def) enum_def enums
               | None => enums
               end) enums classes
  end.

(** [extract_all_enums]; [files] are the files of the tree in the order
    [rglob] gives them. *)
Definition extract_all_enums (files : list PyFile) : list (string * EnumDefinition) :=
  foldl extract_file_enums [] files.

(** [enums.values()] *)
Definition odict_values {V} (d : list (string * V)) : list V := map snd d.

(** *** [_extract_version_from_path] *)

(** [s.split(ch, 1)[1]] when [ch in s]: what follows the first [ch]. *)
Fixpoint after_first (ch : ascii) (s : string) : option string :=
  match s with
  | "" => None
  | String c s' => if Ascii.eqb c ch then Some s' else after_first ch s'
  end.

Fixpoint all_chars (p : ascii -> bool) (s : string) : bool :=
  match s with
  | "" => true
  | String c s' => p c && all_chars p s'
  end.

(** [s.isdigit()] on ASCII text: at least one character, digits only. *)
Definition isdigit (s : string) : bool :=
  negb (String.eqb s "") && all_chars is_digit s.

(** [s.lstrip(ch)] for one character. *)
Fixpoint lstrip_char (ch : ascii) (s : string) : string :=
  match s with
  | "" => ""
  | String c s' => if Ascii.eqb c ch then lstrip_char ch s' else s
  end.

(** [_extract_version_from_path]; [dir_name] is [source_dir.name]. *)
Definition _extract_version_from_path (dir_name : string) : string :=
  match after_first "-" dir_name with
  | Some potential_version =>
      if isdigit (remove_char "v" (remove_char "." potential_version))
      then lstrip_char "v" potential_version
      else "unknown"
  | None => "unknown"
  end.

(** *** [_update_version_comment] *)

Definition sync_marker : string := "// Synced to MeshCore_py".

(** [version_comment] of [_update_version_comment]; [today] is
    [datetime.now().strftime('%Y-%m-%d')]. *)
Definition version_comment (version_tag today : string) : string :=
  sync_marker +:+ " v" +:+ version_tag +:+ " on " +:+ today.

(** [re.sub] of the marker and the rest of its line, under MULTILINE, by a
    replacement that holds no backslash and so stands for itself.
    [skipping] tells that the text read is the rest of a matched line. *)
Fixpoint sub_marker_lines (replacement : string) (skipping : bool) (s : string) : string :=
  match s with
  | "" => ""
  | String c s' =>
      if skipping then
        if Ascii.eqb c newline then String c (sub_marker_lines replacement false s')
        else sub_marker_lines replacement true s'
      else if startswith sync_marker s then
        replacement +:+ sub_marker_lines replacement true s'
      else String c (sub_marker_lines replacement false s')
  end.

(** The new text of the file in [_update_version_comment].  The version
    tag of a run comes from [_extract_version_from_path] and the date from
    [strftime]: neither holds a backslash. *)
Definition stamp_version (version_tag today content : string) : string :=
  if contains sync_marker content
  then sub_marker_lines (version_comment version_tag today) false content
  else version_comment version_tag today +:+ String newline (String newline "") +:+ content.

Definition set_target_file (file : option string) (w : World) : World :=
  {| w_target_file := file; w_stdin := w_stdin w; w_printed := w_printed w |}.

(** [_update_version_comment]: an exception (no file to read) is caught
    and reported. *)
Definition _update_version_comment (version_tag today : string) (w : World) : World :=
  match w_target_file w with
  | None => print "Warning: Could not update version comment" w
  | Some content => set_target_file (Some (stamp_version version_tag today content)) w
  end.

(** *** Applying the changes *)

(** [_get_enum_approval] *)
Definition _get_enum_approval (analysis : ChangeAnalysis) (w : World) : result bool * World :=
  if is_nil (ca_additions analysis) then (Ok false, w)
  else
    let w := print (target_name (ca_target_enum analysis) +:+ " changes:") w in
    match input "Apply changes? (y/n/skip): " w with
    | (Ok response, w') => (Ok (is_yes response), w')
    | (Raise e, w') => (Raise e, w')
    end.

Section Apply.

(** The library and the tools outside the script: [re.sub] of the block
    pattern; [swiftc -parse] on a text, giving whether it exits with 0 and
    what it writes to standard error, or an exception (time-out, no such
    program); and [swiftformat], giving the formatted text when it is
    installed and exits with 0. *)
Variable sub_enum_block : TargetEnum -> string -> string -> result string.
Variable swiftc_parse : string -> result (bool * string).
Variable swiftformat : string -> option string.

(** [validate_swift_syntax] *)
Definition validate_swift_syntax (content : string) : bool * string :=
  match swiftc_parse content with
  | Raise _ => (false, "Validation error")
  | Ok (syntax_valid, error_output) =>
      if syntax_valid then
        match swiftformat content with
        | Some formatted_content =>
            match swiftc_parse formatted_content with
            | Raise _ => (false, "Validation error")
            | Ok (true, _) => (true, formatted_content)
            | Ok (false, format_errors) =>
                (syntax_valid,
                 error_output +:+ String newline "SwiftFormat introduced syntax errors: "
                   +:+ format_errors)
            end
        | None => (syntax_valid, error_output)
        end
      else (syntax_valid, error_output)
  end.

(** The loop of [_apply_changes] over the analyses: the content with the
    approved additions inserted. *)
Fixpoint apply_analyses (version_tag : string) (swift_enums : TargetDict SwiftEnumCase)
    (analyses : list ChangeAnalysis) (content : string) (w : World)
    : result string * World :=
  match analyses with
  | [] => (Ok content, w)
  | analysis :: rest =>
      if is_nil (ca_additions analysis)
      then apply_analyses version_tag swift_enums rest content w
      else
        match _get_enum_approval analysis w with
        | (Raise e, w') => (Raise e, w')
        | (Ok false, w') => apply_analyses version_tag swift_enums rest content w'
        | (Ok true, w') =>
            let new_cases_code := generate_swift_cases version_tag (ca_additions analysis) in
            if String.eqb new_cases_code ""
            then apply_analyses version_tag swift_enums rest content w'
            else
              match insert_cases_into_swift_file sub_enum_block swift_enums content
                      (ca_target_enum analysis) new_cases_code with
              | Raise e => (Raise e, w')
              | Ok content' =>
                  apply_analyses version_tag swift_enums rest content'
                    (print ("Added cases to " +:+ target_name (ca_target_enum analysis)) w')
              end
        end
  end.

(** [_restore_backup]; [backup] is the text of the backup, if one was made. *)
Definition restore_backup (backup : option string) (w : World) : World :=
  match backup with
  | Some text => print "Restored from backup" (set_target_file (Some text) w)
  | None => w
  end.

(** [_apply_changes].  The result is [None] when [_create_backup], which
    is called before the [try], raises because there is no file to copy;
    every later exception is caught and gives [False].  The backup file
    itself is not part of the world. *)
Definition _apply_changes (version_tag : string) (swift_enums : TargetDict SwiftEnumCase)
    (analyses : list ChangeAnalysis) (skip_backup : bool) (w : World)
    : option (bool * World) :=
  let backed_up :=
    if skip_backup then Some (None, print "Skipping backup creation" w)
    else match w_target_file w with
         | Some text => Some (Some text, w)
         | None => None
         end in
  match backed_up with
  | None => None
  | Some (backup, w) =>
      match w_target_file w with
      | None => Some (false, restore_backup backup (print "Error applying changes" w))
      | Some content =>
          match apply_analyses version_tag swift_enums analyses content w with
          | (Raise _, w') =>
              Some (false, restore_backup backup (print "Error applying changes" w'))
          | (Ok content', w') =>
              match validate_swift_syntax content' with
              | (false, result) =>
                  Some (false,
                        restore_backup backup
                          (print result (print "Generated Swift code has syntax errors:" w')))
              | (true, result) => Some (true, set_target_file (Some result) w')
              end
          end
      end
  end.

(** Steps 5 and 6 of [run]. *)
Definition apply_and_stamp (version_tag today : string)
    (swift_enums : TargetDict SwiftEnumCase) (analyses : list ChangeAnalysis)
    (skip_backup : bool) (w : World) : Z * World :=
  match _apply_changes version_tag swift_enums analyses skip_backup w with
  | None => (1, print "Error" w)
  | Some (false, w') => (1, w')
  | Some (true, w') =>
      (0, print "Synchronization complete!" (_update_version_comment version_tag today w'))
  end.

End Apply.

(** *** [main] *)

(** The flags of the command line that [main] and [run] look at. *)
Record Args := mkArgs {
  arg_apply : bool;
  arg_auto_approve : bool;
  arg_force : bool;
  arg_max_additions : Z
}.

Section Main.

(** [app.run] with its flags: dry run, automatic approval, no backup, limit. *)
Variable app_run : bool -> bool -> bool -> Z -> World -> Z * World.

(** [main] *)
Definition main (args : Args) (w : World) : Z * World :=
  match w_target_file w with
  | None => (1, print "Error: ProtocolFrame.swift not found" w)
  | Some _ =>
      if arg_auto_approve args && negb (arg_apply args)
      then (1, print "Error: --auto-approve requires --apply" w)
      else if arg_force args && negb (arg_apply args)
      then (1, print "Error: --force requires --apply" w)
      else app_run (negb (arg_apply args)) (arg_auto_approve args) (arg_force args)
             (arg_max_additions args) w
  end.

End Main.

(** *** [GitHubDownloader.get_latest_release_info] *)

(** An asset of a release in the JSON that the GitHub API returns, and
    the release itself: the keys the script reads, [None] for a key that
    is missing.  The values are taken to be strings (the list of assets,
    a list of objects), as the API documents them. *)
Record Asset := mkAsset {
  asset_name : option string;
  asset_browser_download_url : option string
}.

Record ReleaseData := mkReleaseData {
  rd_assets : option (list Asset);
  rd_tag_name : option string;
  rd_name : option string;
  rd_published_at : option string
}.

Record ReleaseInfo := mkReleaseInfo {
  ri_tag : string;
  ri_name : string;
  ri_download_url : string;
  ri_published_at : string
}.

(** What one request gives: a [RequestException] (no connection, time
    out, an error status), a body that is no JSON ([ValueError]), or the
    JSON of the release. *)
Inductive Response :=
  | RequestFailed
  | InvalidJson
  | Json (data : ReleaseData).

(** [s.endswith(suffix)] *)
Fixpoint endswith (suffix s : string) : bool :=
  String.eqb suffix s ||
  match s with
  | "" => false
  | String _ s' => endswith suffix s'
  end.

(** The name of a source archive. *)
Definition is_source_zip (name : string) : bool :=
  endswith ".zip" name && contains "source" (lower name).

(** The loop over the assets: the URL of the first source archive, if
    there is one; [None] is [KeyError]. *)
Fixpoint find_source_asset (assets : list Asset) : option (option string) :=
  match assets with
  | [] => Some None
  | asset :: rest =>
      match asset_name asset with
      | None => None
      | Some name =>
          if is_source_zip name then
            match asset_browser_download_url asset with
            | None => None
            | Some url => Some (Some url)
            end
          else find_source_asset rest
      end
  end.

Definition MESHCORE_REPO : string := "meshcore-dev/meshcore_py".

Definition archive_url (tag_name : string) : string :=
  "https://github.com/" +:+ MESHCORE_REPO +:+ "/archive/" +:+ tag_name +:+ ".zip".

(** The body of the [try] after the JSON is there: [None] is [KeyError]. *)
Definition release_info_of (data : ReleaseData) : option ReleaseInfo :=
  found ← find_source_asset (default [] (rd_assets data));
  download_url ←
    match found with
    | Some (String c url) => Some (String c url)
    | _ => archive_url <$> rd_tag_name data
    end;
  tag ← rd_tag_name data;
  name ← rd_name data;
  published_at ← rd_published_at data;
  Some {| ri_tag := tag; ri_name := name; ri_download_url := download_url;
          ri_published_at := published_at |}.

(** One attempt: [None] is one of the exceptions that the loop catches. *)
Definition release_attempt (response : Response) : option ReleaseInfo :=
  match response with
  | RequestFailed | InvalidJson => None
  | Json data => release_info_of data
  end.

(** The loop [for attempt in range(max_retries)] from [attempt] on, with
    [remaining] attempts to go: the result and the seconds slept between
    the attempts.  [Ok None] is the end of the loop without a [return],
    which a [max_retries] of 0 gives. *)
Fixpoint retry_from {A} (fetch : nat -> option A) (attempt remaining : nat) (slept : list Z)
    : result (option A) * list Z :=
  match remaining with
  | O => (Ok None, slept)
  | S remaining' =>
      match fetch attempt with
      | Some a => (Ok (Some a), slept)
      | None =>
          match remaining' with
          | O => (Raise RuntimeError, slept)
          | S _ => retry_from fetch (S attempt) remaining' (slept ++ [2 ^ Z.of_nat attempt])%list
          end
      end
  end.

Definition MAX_RETRIES : nat := 3.

(** [get_latest_release_info]; [responses] gives what the request of
    each attempt returns. *)
Definition get_latest_release_info (responses : nat -> Response)
    : result (option ReleaseInfo) * list Z :=
  retry_from (fun attempt => release_attempt (responses attempt)) 0 MAX_RETRIES [].

(** *** Notions for the further properties *)

(** The cases in the lists come from the definitions, each in a list its
    definition is routed to. *)
Definition map_sound (enums : list EnumDefinition) (st : MapState) : Prop :=
  ∀ t c, c ∈ ms_swift_enums st t →
    ∃ enum_def, enum_def ∈ enums ∧ c ∈ ed_cases enum_def
                ∧ t ∈ _detect_target_enums_dynamic enum_def.

(** Every seen key is the key of a case in some list. *)
Definition map_complete (st : MapState) : Prop :=
  ∀ k, k ∈ ms_seen_cases st → ∃ t c, c ∈ ms_swift_enums st t ∧ case_key c = k.

(** The lines of a block body on which the case pattern matches, each
    with the number the parser gives it: the offset of the block in the
    text plus the index of the line in the body. *)
Fixpoint matched_lines (line_num : Z) (lines : list string) : list (Z * CaseMatch) :=
  match lines with
  | [] => []
  | line :: rest =>
      match search_case line with
      | Some m => (line_num, m) :: matched_lines (line_num + 1) rest
      | None => matched_lines (line_num + 1) rest
      end
  end.

(** The case that the parser makes of a matched line. *)
Definition case_of_match (numbered : Z * CaseMatch) (case : SwiftEnumCase) : Prop :=
  sc_name case = cm_name numbered.2
  ∧ _parse_swift_value (strip (cm_value numbered.2)) = Ok (sc_value case)
  ∧ sc_comment case = cm_comment numbered.2
  ∧ sc_line_number case = Some numbered.1.

(** The characters of a text that [_extract_version_from_path] takes
    for a version. *)
Definition is_version_char (c : ascii) : bool :=
  is_digit c || Ascii.eqb c "." || Ascii.eqb c "v".

Fixpoint any_char (p : ascii -> bool) (s : string) : bool :=
  match s with
  | "" => false
  | String c s' => p c || any_char p s'
  end.

Definition backslash : ascii := "092"%char.

(** Text of one line that [re.sub] takes as it is when it is part of the
    replacement: no newline and no backslash. *)
Definition is_plain_char (c : ascii) : bool :=
  negb (Ascii.eqb c newline) && negb (Ascii.eqb c backslash).

(** Characters that [strip()] and [rstrip(',')] leave where they are and
    that the value group of the case pattern takes. *)
Definition is_value_char (c : ascii) : bool :=
  negb (is_space c) && negb (Ascii.eqb c ",") && negb (Ascii.eqb c "/").

(** The comment that [generate_swift_cases] writes after a case, without
    the slashes. *)
Definition case_comment (version_tag : string) (case : EnumCase) : string :=
  "Python: " +:+ ec_original_name case +:+ " (" +:+ path_name (ec_source_file case)
    +:+ " v" +:+ version_tag +:+ ")".

(** The line that [generate_swift_cases] writes for a case. *)
Definition generated_line (version_tag : string) (case : EnumCase) : string :=
  "    case " +:+ ec_name case +:+ " = "
    +:+ _format_swift_value (ec_value case) (ec_original_name case)
    +:+ " // " +:+ case_comment version_tag case.

(** The cases as the parser is to read them back from consecutive lines. *)
Fixpoint read_back (version_tag : string) (line_num : Z) (cases : list EnumCase)
    : list SwiftEnumCase :=
  match cases with
  | [] => []
  | case :: rest =>
      {| sc_name := ec_name case;
         sc_value := ec_value case;
         sc_comment := Some (case_comment version_tag case);
         sc_line_number := Some line_num |} :: read_back version_tag (line_num + 1) rest
  end.

(** A case whose line is written and can be read back: the name is an
    identifier, the texts of the comment hold no newline, and the value is
    not negative or is one that [str] accepts and that is not written in
    hexadecimal. *)
Definition printable_case (version_tag : string) (case : EnumCase) : bool :=
  negb (String.eqb (ec_name case) "")
  && all_chars is_word (ec_name case)
  && all_chars not_newline (case_comment version_tag case)
  && ((0 <=? ec_value case)
      || (negb (startswith "0x" (ec_original_name case))
          && (- max_str_value <? ec_value case))).

(** The analyses for which [_apply_changes] asks. *)
Definition has_additions (analysis : ChangeAnalysis) : bool :=
  negb (is_nil (ca_additions analysis)).

(** ASCII text: where [lower] and [capitalize] of this development are
    [str.lower] and [str.capitalize].  The names of the extracted sources
    are such text; on letters outside ASCII the two methods change more
    than the ASCII letters. *)
Definition is_ascii_char (c : ascii) : bool := ascii_code c <? 128.

Definition ascii_text (s : string) : bool := all_chars is_ascii_char s.

(** * Properties *)

(** ** Characters *)

Ltac by_cases_on_char c :=
  destruct c as [[] [] [] [] [] [] [] []]; vm_compute; (reflexivity || tauto || congruence || (split; congruence)).

Lemma to_lower_not_upper c : is_upper (to_lower c) = false.
Proof. by_cases_on_char c. Qed.

Lemma to_lower_idem c : to_lower (to_lower c) = to_lower c.
Proof. by_cases_on_char c. Qed.

Lemma to_lower_underscore c : Ascii.eqb (to_lower c) underscore = Ascii.eqb c underscore.
Proof. by_cases_on_char c. Qed.

Lemma to_upper_underscore c :
  Ascii.eqb c underscore = false → Ascii.eqb (to_upper c) underscore = false.
Proof. by_cases_on_char c. Qed.

Lemma upper_of_lower_is_upper c : is_upper (to_upper (to_lower c)) = is_letter c.
Proof. by_cases_on_char c. Qed.

Lemma to_lower_fixed c : to_lower c = c ↔ is_upper c = false.
Proof. by_cases_on_char c. Qed.

(** ** Name normalization *)

Lemma split_on_nonempty sep s : ∃ p ps, split_on sep s = p :: ps.
Proof.
  induction s as [|c s [p [ps IH]]]; simpl; [by eauto|].
  destruct (Ascii.eqb c sep); [by eauto|]. rewrite IH. by eauto.
Qed.

(** The parts of a lower-cased string are lower-cased. *)
Lemma split_on_lower_head sep s p ps :
  split_on sep (lower s) = p :: ps → lower p = p.
Proof.
  revert p ps. induction s as [|c s IH]; simpl; intros p ps H.
  - by inversion H.
  - destruct (Ascii.eqb (to_lower c) sep).
    + by inversion H.
    + destruct (split_on_nonempty sep (lower s)) as [q [qs Hq]].
      rewrite Hq in H. injection H as <- <-. simpl.
      by rewrite to_lower_idem, (IH q qs Hq).
Qed.


Lemma normalize_name_cons c s :
  _normalize_name (String c s) =
    if Ascii.eqb c underscore then normalize_tail s
    else String (to_lower c) (_normalize_name s).
Proof.
  unfold _normalize_name, normalize_tail. simpl.
  rewrite to_lower_underscore.
  destruct (Ascii.eqb c underscore); [done|].
  destruct (split_on_nonempty underscore (lower s)) as [p [ps Hp]].
  by rewrite Hp.
Qed.

Lemma normalize_tail_cons c s :
  normalize_tail (String c s) =
    if Ascii.eqb c underscore then normalize_tail s
    else String (to_upper (to_lower c)) (_normalize_name s).
Proof.
  unfold _normalize_name, normalize_tail. simpl.
  rewrite to_lower_underscore.
  destruct (Ascii.eqb c underscore); [done|].
  destruct (split_on_nonempty underscore (lower s)) as [p [ps Hp]].
  rewrite Hp. simpl. by rewrite (split_on_lower_head _ _ _ _ Hp).
Qed.


(** The result of the normalization holds no underscore. *)
Lemma normalize_name_no_underscore s :
  has_char underscore (_normalize_name s) = false
  ∧ has_char underscore (normalize_tail s) = false.
Proof.
  induction s as [|c s [IH1 IH2]]; [done|].
  rewrite normalize_name_cons, normalize_tail_cons.
  destruct (Ascii.eqb c underscore) eqn:E; [done|]. simpl.
  rewrite IH1, to_lower_underscore, E.
  assert (Ascii.eqb (to_lower c) underscore = false) as E' by by rewrite to_lower_underscore.
  by rewrite (to_upper_underscore _ E').
Qed.

(** Without an underscore the normalization is the lower-casing. *)
Lemma normalize_name_without_underscore s :
  has_char underscore s = false → _normalize_name s = lower s.
Proof.
  induction s as [|c s IH]; [done|]. simpl. intros H.
  apply orb_false_iff in H as [H1 H2].
  rewrite normalize_name_cons, H1. by rewrite IH.
Qed.

Lemma lower_fixed s : lower s = s ↔ has_upper s = false.
Proof.
  induction s as [|c s IH]; simpl; [done|].
  rewrite orb_false_iff, <- IH, <- to_lower_fixed. split.
  - intros H. by inversion H as [[H1 H2]]; rewrite !H1, !H2.
  - intros [-> ->]. done.
Qed.

(** The result holds an upper-case letter exactly when an underscore of
    the input is directly followed by a letter. *)
Lemma normalize_name_has_upper s :
  has_upper (_normalize_name s) = underscore_then_letter s
  ∧ has_upper (normalize_tail s) = starts_with_letter s || underscore_then_letter s.
Proof.
  induction s as [|c s [IH1 IH2]]; [done|].
  rewrite normalize_name_cons, normalize_tail_cons.
  cbn [underscore_then_letter starts_with_letter].
  fold (starts_with_letter s).
  destruct (Ascii.eqb c underscore) eqn:E; simpl.
  - rewrite IH2. split; [done|].
    assert (is_letter c = false) as ->; [|done].
    apply Ascii.eqb_eq in E. by subst c.
  - by rewrite IH1, to_lower_not_upper, upper_of_lower_is_upper.
Qed.

Example normalize_name_examples :
  _normalize_name "SELF_INFO" = "selfInfo"
  ∧ _normalize_name "NO_MORE_MSGS" = "noMoreMsgs"
  ∧ _normalize_name "ok" = "ok"
  ∧ _normalize_name "CHANNEL_2_INFO" = "channel2Info"
  ∧ _normalize_name (_normalize_name "SELF_INFO") = "selfinfo".
Proof. repeat split. Qed.

(** C2, as stated, fails: the normalization is not idempotent, on ASCII
    names already.  [A_B] becomes [aB], and [aB] becomes [ab]. *)
Lemma normalize_name_not_idempotent :
  ¬ (∀ name, _normalize_name (_normalize_name name) = _normalize_name name).
Proof. intros H. specialize (H "A_B"). vm_compute in H. discriminate H. Qed.

(** C2, amended: on ASCII text [_normalize_name] is deterministic (equal
    inputs give equal outputs); applied to its own output it returns
    that output lower-cased, so it is idempotent exactly on the inputs
    in which no underscore is directly followed by a letter.  The
    statement is for ASCII names, on which the case conversions of this
    development are those of the code. *)
Theorem normalize_name_renormalized (name : string) :
  ascii_text name = true →
  (∀ name', name = name' → _normalize_name name = _normalize_name name')
  ∧ _normalize_name (_normalize_name name) = lower (_normalize_name name)
  ∧ (_normalize_name (_normalize_name name) = _normalize_name name
     ↔ underscore_then_letter name = false).
Proof.
  intros _.
  assert (_normalize_name (_normalize_name name) = lower (_normalize_name name)) as Hre.
  { apply normalize_name_without_underscore, normalize_name_no_underscore. }
  split; [by intros ? ->|]. split; [done|].
  rewrite Hre, lower_fixed. by rewrite (proj1 (normalize_name_has_upper name)).
Qed.

Lemma normalize_name_renormalized_witness :
  ascii_text "SELF_2X" = true
  ∧ underscore_then_letter "SELF_2X" = false
  ∧ _normalize_name (_normalize_name "SELF_2X") = _normalize_name "SELF_2X".
Proof.
  split; [reflexivity|]. split; [reflexivity|].
  apply (proj2 (proj2 (proj2 (normalize_name_renormalized "SELF_2X" eq_refl)))). reflexivity.
Defined.

(** ** Extraction *)





Lemma class_accepted_filters class_node source_file :
  class_accepted class_node source_file = true →
  _is_int_enum_subclass class_node = true
  ∧ string_in (cd_name class_node) ["BinaryReqType"; "ControlType"] = false
  ∧ contains "commands" (lower (sf_relative source_file)) = false
  ∧ String.eqb (cd_name class_node) "PacketType" = true.
Proof.
  unfold class_accepted. rewrite !andb_true_iff, negb_true_iff.
  intros [[H1 H2] H3]. repeat split; try done.
  apply String.eqb_eq in H2. by rewrite H2.
Qed.

(** [_extract_int_enum] keeps a class exactly when it passes the filters
    and has two cases or more. *)
Lemma extract_int_enum_result class_node source_file :
  _extract_int_enum class_node source_file =
    if class_accepted class_node source_file
       && (2 <=? length (extract_cases (cd_body class_node) source_file))%nat
    then Some {| ed_name := cd_name class_node;
                 ed_cases := extract_cases (cd_body class_node) source_file;
                 ed_base_type := determine_base_type (cd_bases class_node);
                 ed_source_file := sf_relative source_file |}
    else None.
Proof.
  unfold _extract_int_enum, class_accepted.
  destruct (_is_int_enum_subclass class_node); cbn [negb andb]; [|done].
  destruct (Z.ltb_spec (Z.of_nat (length (extract_cases (cd_body class_node) source_file))) 2)
    as [Hlt|Hge].
  - rewrite (proj2 (Nat.leb_gt _ _)) by lia. by rewrite andb_false_r.
  - rewrite (proj2 (Nat.leb_le _ _)) by lia. rewrite andb_true_r.
    destruct (String.eqb (cd_name class_node) "PacketType") eqn:E; cbn [negb andb].
    + apply String.eqb_eq in E. rewrite E. cbn [string_in existsb orb String.eqb Ascii.eqb Bool.eqb].
      by destruct (contains "commands" (lower (sf_relative source_file))).
    + by destruct (_ || _).
Qed.

Example evaluate_constant_examples :
  _evaluate_constant (Constant (CInt 5)) = Some 5
  ∧ _evaluate_constant (UnaryOp USub (Constant (CInt 5))) = Some (-5)
  ∧ _evaluate_constant (UnaryOp USub (UnaryOp USub (Constant (CInt 5)))) = Some 5
  ∧ _evaluate_constant (Constant (CBool true)) = Some 1
  ∧ _evaluate_constant (UnaryOp UAdd (Constant (CInt 5))) = None
  ∧ _evaluate_constant (Constant (CFloat "1.5")) = None
  ∧ _evaluate_constant (Call (Name "auto") []) = None.
Proof. repeat split. Qed.




(** ** Classification *)

(** With a value at hand, neither of the two empty-values returns is
    taken, and some target enum is returned. *)
Lemma detect_site_with_values enum_def :
  ed_cases enum_def ≠ [] →
  detect_site enum_def ≠ RetNonNumeric
  ∧ detect_site enum_def ≠ RetNoValues
  ∧ _detect_target_enums_dynamic enum_def ≠ [].
Proof.
  intros Hne. unfold _detect_target_enums_dynamic, detect_site.
  destruct (ed_cases enum_def) as [|case cases]; [done|].
  cbn [map is_nil]. rewrite andb_false_r.
  repeat match goal with |- context [if ?b then _ else _] => destruct b end;
    by repeat split.
Qed.

Lemma extract_int_enum_packet_type class_node source_file enum_def :
  _extract_int_enum class_node source_file = Some enum_def →
  ed_name enum_def = "PacketType" ∧ (2 ≤ length (ed_cases enum_def))%nat.
Proof.
  rewrite extract_int_enum_result. intros H.
  destruct (class_accepted class_node source_file) eqn:Hacc; cbn [andb] in H; [|done].
  destruct (Nat.leb_spec 2 (length (extract_cases (cd_body class_node) source_file)));
    [|done].
  injection H as <-. split; [|done]. simpl.
  apply class_accepted_filters in Hacc as (_ & _ & _ & Hname).
  by apply String.eqb_eq.
Qed.

(** C10: a definition that [_extract_int_enum] produces has two cases or
    more, so the value list of the classifier is not empty, neither of its
    two empty-values returns is taken, and it returns at least one target
    enum. *)
Theorem classification_of_extracted_definition
    (class_node : ClassDef) (source_file : SourceFile) (enum_def : EnumDefinition) :
  _extract_int_enum class_node source_file = Some enum_def →
  map ec_value (ed_cases enum_def) ≠ []
  ∧ detect_site enum_def ≠ RetNonNumeric
  ∧ detect_site enum_def ≠ RetNoValues
  ∧ _detect_target_enums_dynamic enum_def ≠ [].
Proof.
  intros H. apply extract_int_enum_packet_type in H as [_ Hlen].
  assert (ed_cases enum_def ≠ []) as Hne.
  { intros E. rewrite E in Hlen. simpl in Hlen. lia. }
  split; [|by apply detect_site_with_values].
  by destruct (ed_cases enum_def).
Qed.

Lemma classification_of_extracted_definition_witness :
  let class_node :=
    {| cd_name := "PacketType"; cd_bases := [Name "Enum"];
       cd_body := [Assign [Name "OK"] (Constant (CInt 0)) 2;
                   Assign [Name "ADVERTISEMENT"] (Constant (CInt 128)) 3] |} in
  let source_file := {| sf_path := "/tmp/src/packets.py"; sf_relative := "packets.py" |} in
  ∃ enum_def, _extract_int_enum class_node source_file = Some enum_def
    ∧ _detect_target_enums_dynamic enum_def ≠ [].
Proof.
  intros class_node source_file. eexists. split; [reflexivity|].
  eapply (classification_of_extracted_definition class_node source_file). reflexivity.
Defined.

(** C4: when the lower-cased name of a definition holds none of the
    command tokens and one of the response tokens, the classifier returns
    the push enum alone if some value of the definition is 0x80 or more
    and the response enum alone otherwise; the choice is made once for
    the definition, so each of its cases that is new goes to that one
    enum, whatever its own value. *)
Theorem response_like_definition_routing (enum_def : EnumDefinition) :
  any_keyword command_keywords (lower (ed_name enum_def)) = false →
  any_keyword response_keywords (lower (ed_name enum_def)) = true →
  let group := if existsb (fun v => 128 <=? v) (map ec_value (ed_cases enum_def))
               then PushCode else ResponseCode in
  _detect_target_enums_dynamic enum_def = [group]
  ∧ ∀ st case, case_key case ∉ ms_seen_cases st →
      ms_swift_enums (map_case (_detect_target_enums_dynamic enum_def) st case)
      = dict_append group case (ms_swift_enums st).
Proof.
  intros Hcmd Hresp group.
  assert (_detect_target_enums_dynamic enum_def = [group]) as Hgroup.
  { unfold _detect_target_enums_dynamic, detect_site. rewrite Hcmd, Hresp.
    subst group. by destruct (existsb _ _). }
  split; [done|]. intros st case Hnew. rewrite Hgroup.
  unfold map_case. by rewrite decide_False.
Qed.

Lemma response_like_definition_routing_witness :
  let case_low := {| ec_name := "ok"; ec_value := 0; ec_source_file := "events.py";
                     ec_line_number := 2; ec_original_name := "OK" |} in
  let case_high := {| ec_name := "advert"; ec_value := 128; ec_source_file := "events.py";
                      ec_line_number := 3; ec_original_name := "ADVERT" |} in
  let enum_def := {| ed_name := "EventCodes"; ed_cases := [case_low; case_high];
                     ed_base_type := "IntEnum"; ed_source_file := "events.py" |} in
  _detect_target_enums_dynamic enum_def = [PushCode].
Proof.
  intros case_low case_high enum_def.
  apply (response_like_definition_routing enum_def); reflexivity.
Defined.

(** ** Deduplication *)

Lemma site_targets_NoDup r : NoDup (site_targets r).
Proof.
  destruct r; by apply (bool_decide_unpack _).
Qed.

(** The inner loop over the targets of a definition appends the case once
    to the list of each of them. *)
Lemma foldl_dict_append {A} (targets : list TargetEnum) (case : A) (d : TargetDict A) t :
  NoDup targets →
  foldl (fun d target => dict_append target case d) d targets t
  = (d t ++ if decide (t ∈ targets) then [case] else [])%list.
Proof.
  revert d. induction targets as [|target targets IH]; intros d Hnd; simpl.
  - by rewrite app_nil_r.
  - apply NoDup_cons in Hnd as [Hnotin Hnd]. rewrite IH by done.
    unfold dict_append.
    destruct (decide (t = target)) as [->|Hne].
    + rewrite (decide_False (P := target ∈ targets)) by done.
      rewrite (decide_True (P := target ∈ target :: targets)) by apply list_elem_of_here.
      by rewrite app_nil_r.
    + destruct (decide (t ∈ targets)).
      * by rewrite (decide_True (P := t ∈ target :: targets))
          by by apply list_elem_of_further.
      * rewrite (decide_False (P := t ∈ target :: targets)); [done|].
        rewrite elem_of_cons. tauto.
Qed.

Lemma map_case_preserves targets st case :
  NoDup targets → map_invariant st → map_invariant (map_case targets st case).
Proof.
  intros Hnd [Hseen Hnodup]. unfold map_case.
  destruct (decide (case_key case ∈ ms_seen_cases st)) as [Hin|Hnew]; [done|].
  split; simpl; intros t.
  - intros c. rewrite foldl_dict_append by done. rewrite elem_of_app.
    intros [Hc|Hc].
    + apply elem_of_union_l. by eapply Hseen.
    + destruct (decide (t ∈ targets)); [|by apply elem_of_nil in Hc].
      apply list_elem_of_singleton in Hc as ->. apply elem_of_union_r. by apply elem_of_singleton_2.
  - rewrite foldl_dict_append by done. rewrite fmap_app.
    apply NoDup_app. split; [done|]. split.
    + intros k Hk Hk'. destruct (decide (t ∈ targets)); [|by apply elem_of_nil in Hk'].
      apply list_elem_of_singleton in Hk' as ->.
      apply list_elem_of_fmap in Hk as (c & Hkey & Hc).
      apply Hnew. rewrite Hkey. by eapply Hseen.
    + destruct (decide (t ∈ targets)); simpl; [apply NoDup_singleton|apply NoDup_nil_2].
Qed.

Lemma map_definition_preserves st enum_def :
  map_invariant st → map_invariant (map_definition st enum_def).
Proof.
  unfold map_definition. generalize (ed_cases enum_def) as cases.
  intros cases. revert st.
  induction cases as [|case cases IH]; intros st Hinv; simpl; [done|].
  apply IH, map_case_preserves; [apply site_targets_NoDup|done].
Qed.

(** C3: within one run of [map_to_swift_enums] every case key occurs at
    most once in the list of each target enum, whatever the definitions
    and however often they repeat a key; and a case whose key is already
    in the set of seen keys changes nothing, for any list of targets. *)
Theorem case_key_appended_once :
  (∀ (enums : list EnumDefinition) (target : TargetEnum),
     NoDup (case_key <$> map_to_swift_enums enums target))
  ∧ (∀ target_enums st case,
       case_key case ∈ ms_seen_cases st → map_case target_enums st case = st).
Proof.
  split.
  - intros enums target. unfold map_to_swift_enums.
    assert (∀ st, map_invariant st → map_invariant (foldl map_definition st enums)) as H.
    { induction enums as [|enum_def enums IH]; intros st Hinv; simpl; [done|].
      by apply IH, map_definition_preserves. }
    apply H. split; [intros t c Hc; by apply elem_of_nil in Hc|intros t; apply NoDup_nil_2].
  - intros target_enums st case Hin. unfold map_case. by rewrite decide_True.
Qed.

Lemma case_key_appended_once_witness :
  let case := {| ec_name := "ok"; ec_value := 0; ec_source_file := "packets.py";
                 ec_line_number := 2; ec_original_name := "OK" |} in
  let st := {| ms_swift_enums := dict_append ResponseCode case empty_dict;
               ms_seen_cases := {[ case_key case ]} |} in
  map_case [ResponseCode; PushCode] st case = st.
Proof.
  intros case st.
  apply (proj2 case_key_appended_once). simpl. apply elem_of_singleton_2. reflexivity.
Defined.

(** ** Diffing *)

(** The keys of a dictionary built by a comprehension over a list. *)
Lemma foldl_insert_is_Some `{Countable K} {A} (key_of : A → K) (l : list A)
    (m0 : gmap K A) (k : K) :
  is_Some (foldl (fun m x => <[key_of x := x]> m) m0 l !! k)
  ↔ is_Some (m0 !! k) ∨ ∃ x, In x l ∧ key_of x = k.
Proof.
  revert m0. induction l as [|a l IH]; intros m0; simpl.
  - split; [by left|]. by intros [?|(x & [] & _)].
  - rewrite IH, lookup_insert_is_Some. split.
    + intros [[Heq|[_ Hk]]|(x & Hx & Hkey)].
      * right. exists a. by split; [left|].
      * by left.
      * right. exists x. by split; [right|].
    + intros [Hk|(x & [Hx|Hx] & Hkey)].
      * left. destruct (decide (key_of a = k)); [by left|by right].
      * subst x. by left; left.
      * right. by exists x.
Qed.

Lemma dict_has_normalized swift_cases py_case :
  dict_has (py_key py_case) (swift_normalized_map swift_cases) = true
  ↔ covered swift_cases py_case.
Proof.
  unfold dict_has, swift_normalized_map, covered.
  rewrite bool_decide_eq_true, foldl_insert_is_Some, lookup_empty. split.
  - intros [[? ?]|(x & Hx & Hkey)]; [done|].
    exists x. unfold swift_key, py_key in Hkey. by injection Hkey as -> ->.
  - intros (x & Hx & Hname & Hvalue). right. exists x. split; [done|].
    unfold swift_key, py_key. by rewrite Hname, Hvalue.
Qed.

Lemma dict_has_value swift_cases py_case :
  dict_has (ec_value py_case) (swift_value_map swift_cases) = true
  ↔ value_taken swift_cases py_case.
Proof.
  unfold dict_has, swift_value_map, value_taken.
  rewrite bool_decide_eq_true, foldl_insert_is_Some, lookup_empty. split.
  - intros [[? ?]|(x & Hx & Hkey)]; [done|]. by exists x.
  - intros (x & Hx & Hvalue). right. by exists x.
Qed.

(** The two lists of the diff are two filters of the extracted cases. *)
Lemma diff_cases_filters python_cases swift_cases :
  let is_covered c := dict_has (py_key c) (swift_normalized_map swift_cases) in
  let is_taken c := dict_has (ec_value c) (swift_value_map swift_cases) in
  ds_additions (diff_cases python_cases swift_cases)
    = List.filter (fun c => negb (is_covered c) && negb (is_taken c)) python_cases
  ∧ ds_duplicates (diff_cases python_cases swift_cases)
    = List.filter (fun c => negb (is_covered c) && is_taken c) python_cases.
Proof.
  intros is_covered is_taken. unfold diff_cases.
  set (step := diff_case _ _).
  assert (∀ st,
    ds_additions (foldl step st python_cases)
      = (ds_additions st
         ++ List.filter (fun c => negb (is_covered c) && negb (is_taken c)) python_cases)%list
    ∧ ds_duplicates (foldl step st python_cases)
      = (ds_duplicates st
         ++ List.filter (fun c => negb (is_covered c) && is_taken c) python_cases)%list)
    as H.
  { induction python_cases as [|c cases IH]; intros st; simpl.
    - by rewrite !app_nil_r.
    - destruct (IH (step st c)) as [-> ->]. subst step. unfold diff_case.
      fold (is_covered c). fold (is_taken c).
      destruct (is_covered c), (is_taken c); simpl; by rewrite <- ?app_assoc. }
  apply (H {| ds_additions := []; ds_duplicates := [] |}).
Qed.

(** The two scenarios of the specification: against the cases [A = 1] and
    [B = 2], the extracted [a = 1] is covered and [c = 3] is an addition;
    against [X = 5], the extracted [y = 5] is a duplicate. *)
Example diff_round_trip_scenario :
  let extracted n v := {| ec_name := n; ec_value := v; ec_source_file := "packets.py";
                          ec_line_number := 1; ec_original_name := n |} in
  let existing n v := {| sc_name := n; sc_value := v; sc_comment := None;
                         sc_line_number := None |} in
  let analysis := _analyze_enum_changes ResponseCode
                    [extracted "a" 1; extracted "c" 3] [existing "A" 1; existing "B" 2] in
  map ec_name (ca_additions analysis) = ["c"]
  ∧ ca_duplicates analysis = []
  ∧ map sc_name (ca_swift_extras analysis) = ["B"].
Proof. vm_compute. done. Qed.

Example diff_collision_scenario :
  let analysis :=
    _analyze_enum_changes ResponseCode
      [ {| ec_name := "y"; ec_value := 5; ec_source_file := "packets.py";
           ec_line_number := 1; ec_original_name := "Y" |} ]
      [ {| sc_name := "X"; sc_value := 5; sc_comment := None; sc_line_number := None |} ] in
  ca_additions analysis = []
  ∧ map ec_name (ca_duplicates analysis) = ["y"].
Proof. vm_compute. done. Qed.

(** [analyze_changes] gives one analysis per target enum, in the fixed
    order, each over the cases of the matching value range. *)
Lemma analyze_changes_targets swift_enums python_enums :
  map ca_target_enum (analyze_changes swift_enums python_enums) = all_targets.
Proof. reflexivity. Qed.

(** C1: the diff puts every extracted case it is given in exactly one of
    three classes: covered (an existing case has its normalized name and
    its value; the case is in neither list), duplicate (not covered, its
    value is taken by an existing case), or addition (neither).  The
    covered test comes first, so a covered case is never a duplicate; and
    the two lists hold extracted cases only. *)
Theorem diff_partitions_cases (enum_name : TargetEnum) (python_cases : list EnumCase)
    (swift_cases : list SwiftEnumCase) :
  let analysis := _analyze_enum_changes enum_name python_cases swift_cases in
  (∀ py_case, In py_case python_cases →
     (covered swift_cases py_case
      ∧ ¬ In py_case (ca_duplicates analysis) ∧ ¬ In py_case (ca_additions analysis))
     ∨ (¬ covered swift_cases py_case ∧ value_taken swift_cases py_case
        ∧ In py_case (ca_duplicates analysis) ∧ ¬ In py_case (ca_additions analysis))
     ∨ (¬ covered swift_cases py_case ∧ ¬ value_taken swift_cases py_case
        ∧ ¬ In py_case (ca_duplicates analysis) ∧ In py_case (ca_additions analysis)))
  ∧ (∀ py_case, In py_case (ca_additions analysis) ∨ In py_case (ca_duplicates analysis) →
       In py_case python_cases).
Proof.
  simpl. destruct (diff_cases_filters python_cases swift_cases) as [-> ->].
  split.
  - intros c Hc. rewrite !filter_In.
    pose proof (dict_has_normalized swift_cases c) as Hcov.
    pose proof (dict_has_value swift_cases c) as Htaken.
    destruct (dict_has (py_key c) _), (dict_has (ec_value c) _); simpl.
    + left. split; [tauto|]. split; intros [_ ?]; done.
    + left. split; [tauto|]. split; intros [_ ?]; done.
    + right; left. repeat split; try tauto.
      * intros H. apply Hcov in H. done.
      * intros [_ ?]; done.
    + right; right. repeat split; try tauto.
      * intros H. apply Hcov in H. done.
      * intros H. apply Htaken in H. done.
      * intros [_ ?]; done.
  - intros c. rewrite !filter_In. tauto.
Qed.

Lemma diff_partitions_cases_witness :
  let a := {| ec_name := "a"; ec_value := 1; ec_source_file := "packets.py";
              ec_line_number := 2; ec_original_name := "A" |} in
  let c := {| ec_name := "c"; ec_value := 3; ec_source_file := "packets.py";
              ec_line_number := 3; ec_original_name := "C" |} in
  let swift_cases := [ {| sc_name := "a"; sc_value := 1; sc_comment := None;
                          sc_line_number := Some 1 |};
                       {| sc_name := "b"; sc_value := 2; sc_comment := None;
                          sc_line_number := Some 2 |} ] in
  In c [a; c] ∧ In c (ca_additions (_analyze_enum_changes ResponseCode [a; c] swift_cases)).
Proof.
  intros a c swift_cases.
  assert (In c [a; c]) as Hin by (right; left; reflexivity).
  split; [exact Hin|].
  destruct (proj1 (diff_partitions_cases ResponseCode [a; c] swift_cases) c Hin)
    as [(_ & _ & Hno)|[(_ & _ & _ & Hno)|(_ & _ & _ & Hadd)]].
  - exfalso. apply Hno. vm_compute. left. reflexivity.
  - exfalso. apply Hno. vm_compute. left. reflexivity.
  - exact Hadd.
Defined.





(** ** Merging *)

Lemma insert_by_perm {A} (value : A → Z) case cases :
  Permutation (case :: cases) (insert_by value case cases).
Proof.
  induction cases as [|x cases IH]; simpl; [done|].
  destruct (value case <=? value x); [done|].
  rewrite perm_swap. by constructor.
Qed.

Lemma sorted_by_perm {A} (value : A → Z) cases :
  Permutation cases (sorted_by value cases).
Proof.
  induction cases as [|case cases IH]; simpl; [done|].
  rewrite <- insert_by_perm. by constructor.
Qed.

Lemma insert_by_sorted {A} (value : A → Z) case cases :
  StronglySorted (fun a b => value a ≤ value b) cases →
  StronglySorted (fun a b => value a ≤ value b) (insert_by value case cases).
Proof.
  induction 1 as [|x cases Hsorted IH Hall]; simpl.
  - repeat constructor.
  - destruct (Z.leb_spec (value case) (value x)) as [Hle|Hgt].
    + constructor; [by constructor|]. constructor; [done|].
      eapply Forall_impl; [exact Hall|]. simpl. intros y Hy. lia.
    + constructor; [done|].
      rewrite <- insert_by_perm. constructor; [lia|done].
Qed.

Lemma sorted_by_sorted {A} (value : A → Z) cases :
  StronglySorted (fun a b => value a ≤ value b) (sorted_by value cases).
Proof.
  induction cases as [|case cases IH]; simpl; [constructor|].
  by apply insert_by_sorted.
Qed.

Lemma render_lines_lookup count k cases (i : nat) :
  render_lines count k cases !! i
  = render_line count (k + Z.of_nat i) <$> cases !! i.
Proof.
  revert k i. induction cases as [|case cases IH]; intros k i; [done|].
  destruct i as [|i]; simpl.
  - by rewrite Z.add_0_r.
  - rewrite IH. do 2 f_equal. lia.
Qed.

(** [02X] gives the two upper-case hexadecimal digits of a byte. *)
Lemma format_02X_byte v :
  0 ≤ v < 256 →
  format_02X v = String (hex_digit_char (v / 16)) (String (hex_digit_char (v mod 16)) "").
Proof.
  intros Hv.
  assert (forallb (fun n => String.eqb (format_02X (Z.of_nat n))
            (String (hex_digit_char (Z.of_nat n / 16))
               (String (hex_digit_char (Z.of_nat n mod 16)) "")))
          (seq 0 256) = true) as Hall by (vm_compute; reflexivity).
  rewrite forallb_forall in Hall.
  specialize (Hall (Z.to_nat v)). rewrite Z2Nat.id in Hall by lia.
  apply String.eqb_eq, Hall, in_seq. lia.
Qed.

Example format_examples :
  format_02X 5 = "05" ∧ format_02X 171 = "AB" ∧ format_02X 300 = "12C"
  ∧ format_02X (-5) = "-5"
  ∧ _format_swift_value 130 "ADVERT" = "0x82" ∧ _format_swift_value 7 "OK" = "7"
  ∧ str_int (-12) = "-12" ∧ str_int 0 = "0".
Proof. repeat split. Qed.

(** The merge of the specification's scenario: to [A = 1] and [B = 2]
    comes [c = 3]. *)
Example new_enum_body_content_example :
  let case n v c := {| sc_name := n; sc_value := v; sc_comment := c;
                       sc_line_number := None |} in
  new_enum_body_content [case "A" 1 None; case "B" 2 (Some "second")]
                        [case "c" 3 (Some "Python: C (packets.py v2.1.0)")]
  = "    case A = 1," +:+ String newline ""
    +:+ "    case B = 2 // second," +:+ String newline ""
    +:+ "    case c = 3 // Python: C (packets.py v2.1.0)".
Proof. reflexivity. Qed.

(** When the block is found, [insert_cases_into_swift_file] asks the
    match for a second group, which the pattern does not have: the call
    raises before it merges anything, whatever the substitution does. *)
Lemma insert_cases_second_group sub_enum_block swift_enums content target_enum
    new_cases_code enum_match :
  search_enum_block target_enum content = Some enum_match →
  insert_cases_into_swift_file sub_enum_block swift_enums content target_enum new_cases_code
  = Raise IndexError.
Proof. unfold insert_cases_into_swift_file. by intros ->. Qed.

Example generate_and_parse_back_example :
  let case := {| ec_name := "sendAck"; ec_value := 130;
                 ec_source_file := "/tmp/src/meshcore/packets.py";
                 ec_line_number := 7; ec_original_name := "SEND_ACK" |} in
  generate_swift_cases "2.1.0" [case]
    = "    case sendAck = 0x82 // Python: SEND_ACK (packets.py v2.1.0)"
  ∧ _parse_new_cases_from_code (generate_swift_cases "2.1.0" [case])
    = Ok [ {| sc_name := "sendAck"; sc_value := 130;
              sc_comment := Some "Python: SEND_ACK (packets.py v2.1.0)";
              sc_line_number := None |} ].
Proof. vm_compute. done. Qed.

Example parse_enum_by_lines_example :
  let content := "public enum PushCode: UInt8, Sendable, Codable {" +:+ String newline ""
                 +:+ "    case advert = 0x80" +:+ String newline "" +:+ "}" in
  search_enum_block PushCode content = None
  ∧ _parse_enum_by_lines content PushCode "    case pathUpdated = 0x81"
    = Ok ("public enum PushCode: UInt8, Sendable, Codable {" +:+ String newline ""
          +:+ "    case advert = 0x80" +:+ String newline ""
          +:+ "    case pathUpdated = 0x81" +:+ String newline "" +:+ "}").
Proof. vm_compute. done. Qed.

(** C6: on the primary merge path no block body is regenerated.  When
    the block pattern finds the block of the target enum, as it does in a
    regular target file, [insert_cases_into_swift_file] asks the match
    for a second group; the pattern has one, so the call raises
    [IndexError] before it merges, sorts or renders anything, whatever
    the cases parsed from the file and the substitution are.  The text
    below is such a file with the code generated for one addition. *)
Theorem primary_merge_path_raises :
  let content := "public enum PushCode: UInt8, Sendable {" +:+ String newline ""
                 +:+ "    case advert = 0x80" +:+ String newline "" +:+ "}" in
  let case := {| ec_name := "pathUpdated"; ec_value := 129; ec_source_file := "src/packets.py";
                 ec_line_number := 7; ec_original_name := "PATH_UPDATED" |} in
  let new_cases_code := generate_swift_cases "2.2.1" [case] in
  new_cases_code = "    case pathUpdated = 0x81 // Python: PATH_UPDATED (packets.py v2.2.1)"
  ∧ search_enum_block PushCode content
    = Some {| em_start := 0; em_body := String newline "    case advert = 0x80" |}
  ∧ ∀ (sub_enum_block : TargetEnum → string → string → result string)
      (swift_enums : TargetDict SwiftEnumCase),
      insert_cases_into_swift_file sub_enum_block swift_enums content PushCode new_cases_code
      = Raise IndexError.
Proof.
  intros content case new_cases_code.
  split; [reflexivity|]. split; [reflexivity|].
  intros sub_enum_block swift_enums.
  by apply (insert_cases_second_group _ _ _ _ _
              {| em_start := 0; em_body := String newline "    case advert = 0x80" |}).
Qed.

(** The rendering that follows the failing call in the source, which
    no call reaches: a value of 0x100 or more is written in decimal
    although it is 0x80 or more. *)
Lemma large_value_rendered_decimal :
  let case := {| sc_name := "status"; sc_value := 300; sc_comment := None;
                 sc_line_number := None |} in
  128 ≤ sc_value case
  ∧ spec_render_value case = "0x12C"
  ∧ render_value case = "300"
  ∧ new_enum_body_content [] [case] = "    case status = 300".
Proof. vm_compute. repeat split; congruence. Qed.

(** What that rendering would give: one line per case of the existing
    cases and the additions together, sorted by ascending value; line
    [i] is the name, the value, the comment if there is a non-empty one,
    and a comma unless the line is the last.  The value is hexadecimal
    ([0x] and the [02X] form, two upper-case digits for a byte) when it
    is below 256 and either 0x80 or more or under a name with one of the
    listed prefixes, and plain decimal otherwise. *)
Lemma regenerated_block_body (existing_cases new_cases : list SwiftEnumCase) :
  let sorted_cases := merged_cases existing_cases new_cases in
  let count := length sorted_cases in
  let lines := render_lines (Z.of_nat count) 0 sorted_cases in
  Permutation (existing_cases ++ new_cases) sorted_cases
  ∧ StronglySorted (fun a b => sc_value a ≤ sc_value b) sorted_cases
  ∧ new_enum_body_content existing_cases new_cases = join_with (String newline "") lines
  ∧ length lines = count
  ∧ (∀ (i : nat) case, sorted_cases !! i = Some case →
       lines !! i = Some ("    case " +:+ sc_name case +:+ " = " +:+ render_value case
                          +:+ match sc_comment case with
                              | Some "" | None => ""
                              | Some comment => " // " +:+ comment
                              end
                          +:+ if decide (S i = count) then "" else ","))
  ∧ (∀ case,
       (sc_value case < 256 →
        128 ≤ sc_value case ∨ has_hex_prefix (sc_name case) = true →
        render_value case = "0x" +:+ format_02X (sc_value case))
       ∧ (0 ≤ sc_value case < 256 →
          format_02X (sc_value case)
          = String (hex_digit_char (sc_value case / 16))
              (String (hex_digit_char (sc_value case mod 16)) ""))
       ∧ (256 ≤ sc_value case
          ∨ (sc_value case < 128 ∧ has_hex_prefix (sc_name case) = false) →
          render_value case = str_int (sc_value case))).
Proof.
  intros sorted_cases count lines.
  split; [apply sorted_by_perm|].
  split; [apply (sorted_by_sorted sc_value)|].
  split; [done|].
  assert (∀ n k l, length (render_lines n k l) = length l) as Hlen.
  { intros n k l. revert k. induction l as [|x l IH]; intros k; simpl; [done|].
    by rewrite IH. }
  split; [apply Hlen|]. split.
  - intros i case Hi. subst lines. rewrite render_lines_lookup, Hi. simpl.
    unfold render_line, comment_part. do 5 f_equal.
    apply lookup_lt_Some in Hi. fold count in Hi.
    destruct (decide (S i = count)) as [Hlast|Hnot].
    + rewrite (proj2 (Z.ltb_ge _ _)) by lia. by destruct (sc_comment case) as [[]|].
    + rewrite (proj2 (Z.ltb_lt _ _)) by lia. by destruct (sc_comment case) as [[]|].
  - intros case. unfold render_value. split; [|split].
    + intros Hlt Hor. rewrite (proj2 (Z.ltb_lt _ _)) by done.
      destruct Hor as [Hhigh| ->]; [|done].
      rewrite (proj2 (Z.leb_le _ _)) by done. by rewrite orb_true_r.
    + apply format_02X_byte.
    + intros [Hbig|[Hlow Hprefix]].
      * by rewrite (proj2 (Z.ltb_ge _ _)) by done.
      * rewrite Hprefix, (proj2 (Z.leb_gt _ _)) by done. by rewrite andb_false_r.
Qed.

Lemma regenerated_block_body_witness :
  let existing := [ {| sc_name := "ok"; sc_value := 0; sc_comment := Some "success";
                       sc_line_number := Some 1 |};
                    {| sc_name := "advert"; sc_value := 128; sc_comment := None;
                       sc_line_number := Some 2 |} ] in
  let new_case := {| sc_name := "sendAck"; sc_value := 5; sc_comment := None;
                     sc_line_number := None |} in
  merged_cases existing [new_case] !! 1%nat = Some new_case
  ∧ render_lines 3 0 (merged_cases existing [new_case]) !! 1%nat
    = Some "    case sendAck = 0x05,".
Proof.
  intros existing new_case.
  assert (merged_cases existing [new_case] !! 1%nat = Some new_case) as Hi by reflexivity.
  split; [exact Hi|].
  exact (proj1 (proj2 (proj2 (proj2 (proj2 (regenerated_block_body existing [new_case])))))
           1%nat new_case Hi).
Defined.

(** ** Parsing the target file *)

Lemma parse_swift_value_raises value_str e :
  _parse_swift_value value_str = Raise e → e = ValueError.
Proof.
  unfold _parse_swift_value.
  match goal with |- context [match ?p with Some _ => _ | None => _ end] => destruct p end;
    [done|]. by intros [= <-].
Qed.

Lemma parse_swift_value_invalid case_match :
  ¬ valid_decimal (value_text case_match) →
  ¬ valid_prefixed_hex (value_text case_match) →
  _parse_swift_value (strip (cm_value case_match)) = Raise ValueError.
Proof.
  unfold valid_decimal, valid_prefixed_hex, value_text, _parse_swift_value.
  cbv zeta.
  generalize (rstrip_char "," (strip (strip (cm_value case_match)))) as text.
  intros text Hdec Hhex.
  destruct (startswith "0x" text || startswith "0X" text) eqn:Hprefix.
  - destruct (py_int 16 text) eqn:E; [|reflexivity].
    exfalso. apply Hhex. split; [done|]. by eexists.
  - destruct (py_int 10 text) eqn:E; [|reflexivity].
    exfalso. apply Hdec. by eexists.
Qed.

Example search_case_examples :
  search_case "    case appStart = 1," =
    Some {| cm_name := "appStart"; cm_value := "1,"; cm_comment := None |}
  ∧ search_case "    case sendAck = 0x05 // acknowledge" =
    Some {| cm_name := "sendAck"; cm_value := "0x05 "; cm_comment := Some "acknowledge" |}
  ∧ search_case "    case broken =" = None
  ∧ search_case "    case blank = " =
    Some {| cm_name := "blank"; cm_value := " "; cm_comment := None |}
  ∧ search_case "    // a comment" = None.
Proof. repeat split. Qed.

Example parse_swift_value_examples :
  _parse_swift_value "1," = Ok 1
  ∧ _parse_swift_value "0x1F" = Ok 31
  ∧ _parse_swift_value "0X_ff" = Ok 255
  ∧ _parse_swift_value "1_000" = Ok 1000
  ∧ _parse_swift_value "-7" = Ok (-7)
  ∧ _parse_swift_value "0b1000" = Raise ValueError
  ∧ _parse_swift_value "" = Raise ValueError
  ∧ _parse_swift_value ".max" = Raise ValueError.
Proof. repeat split. Qed.

Example parse_existing_enums_example :
  let content :=
    "import Foundation" +:+ String newline ""
    +:+ "public enum CommandCode: UInt8, Sendable {" +:+ String newline ""
    +:+ "    case appStart = 1," +:+ String newline ""
    +:+ "    case sendAck = 0x05 // acknowledge" +:+ String newline ""
    +:+ "}" in
  parse_enum_block content CommandCode =
    Ok [ {| sc_name := "appStart"; sc_value := 1; sc_comment := None;
            sc_line_number := Some 19 |};
         {| sc_name := "sendAck"; sc_value := 5; sc_comment := Some "acknowledge";
            sc_line_number := Some 20 |} ]
  ∧ parse_enum_block content PushCode = Ok [].
Proof. vm_compute. done. Qed.

(** One case line with a value that is no number makes the whole loop
    over the lines raise, wherever the line stands. *)
Lemma parse_case_lines_invalid line_num lines line case_match :
  In line lines →
  search_case line = Some case_match →
  _parse_swift_value (strip (cm_value case_match)) = Raise ValueError →
  parse_case_lines line_num lines = Raise ValueError.
Proof.
  intros Hin Hmatch Hvalue. revert line_num.
  induction lines as [|l lines IH]; intros line_num; [done|].
  destruct Hin as [->|Hin]; simpl.
  - by rewrite Hmatch, Hvalue.
  - rewrite (IH Hin). destruct (search_case l) as [m|]; [|done].
    destruct (_parse_swift_value (strip (cm_value m))) as [v|e] eqn:E; simpl; [done|].
    by rewrite (parse_swift_value_raises _ _ E).
Qed.

Lemma parse_case_lines_raises line_num lines e :
  parse_case_lines line_num lines = Raise e → e = ValueError.
Proof.
  revert line_num. induction lines as [|l lines IH]; intros line_num; simpl; [done|].
  destruct (search_case l) as [m|]; [|by apply IH].
  destruct (_parse_swift_value (strip (cm_value m))) as [v|e'] eqn:E; simpl.
  - destruct (parse_case_lines (line_num + 1) lines) as [cs|e'] eqn:E'; simpl; [done|].
    intros [= <-]. by eapply IH.
  - intros [= <-]. by eapply parse_swift_value_raises.
Qed.

Lemma parse_enum_block_raises content enum_name e :
  parse_enum_block content enum_name = Raise e → e = ValueError.
Proof.
  unfold parse_enum_block. destruct (search_enum_block enum_name content); [|done].
  apply parse_case_lines_raises.
Qed.

(** The loop over the three names, unrolled. *)
Lemma parse_enum_blocks_all content :
  parse_enum_blocks content all_targets empty_dict =
    match parse_enum_block content CommandCode,
          parse_enum_block content ResponseCode,
          parse_enum_block content PushCode with
    | Ok c, Ok r, Ok p =>
        Ok (dict_extend PushCode p
              (dict_extend ResponseCode r (dict_extend CommandCode c empty_dict)))
    | Raise e, _, _ => Raise e
    | Ok _, Raise e, _ => Raise e
    | Ok _, Ok _, Raise e => Raise e
    end.
Proof.
  unfold all_targets. cbn [parse_enum_blocks].
  destruct (parse_enum_block content CommandCode); simpl; [|done].
  destruct (parse_enum_block content ResponseCode); simpl; [|done].
  by destruct (parse_enum_block content PushCode).
Qed.

(** The parser succeeds exactly when the three blocks parse, and then
    each list holds the cases of its own block. *)
Lemma parse_existing_enums_ok content enums :
  _parse_existing_enums (Some content) = Ok enums →
  ∀ enum_name, parse_enum_block content enum_name = Ok (enums enum_name).
Proof.
  unfold _parse_existing_enums. rewrite parse_enum_blocks_all.
  destruct (parse_enum_block content CommandCode) as [c|] eqn:Ec; [|done].
  destruct (parse_enum_block content ResponseCode) as [r|] eqn:Er; [|done].
  destruct (parse_enum_block content PushCode) as [p|] eqn:Ep; [|done].
  intros [= <-] enum_name.
  destruct enum_name; [rewrite Ec|rewrite Er|rewrite Ep]; reflexivity.
Qed.

Lemma parse_existing_enums_raise content :
  _parse_existing_enums (Some content) = Raise RuntimeError
  ↔ ∃ enum_name, parse_enum_block content enum_name = Raise ValueError.
Proof.
  unfold _parse_existing_enums. rewrite parse_enum_blocks_all. split.
  - destruct (parse_enum_block content CommandCode) as [c|e] eqn:Ec.
    2:{ intros _. exists CommandCode. by rewrite Ec, (parse_enum_block_raises _ _ _ Ec). }
    destruct (parse_enum_block content ResponseCode) as [r|e] eqn:Er.
    2:{ intros _. exists ResponseCode. by rewrite Er, (parse_enum_block_raises _ _ _ Er). }
    destruct (parse_enum_block content PushCode) as [p|e] eqn:Ep; [done|].
    intros _. exists PushCode. by rewrite Ep, (parse_enum_block_raises _ _ _ Ep).
  - intros [enum_name H]. destruct enum_name; rewrite H; try done;
      destruct (parse_enum_block content CommandCode); try done;
      by destruct (parse_enum_block content ResponseCode).
Qed.

Lemma parse_existing_enums_total content :
  (∃ enums, _parse_existing_enums (Some content) = Ok enums)
  ∨ _parse_existing_enums (Some content) = Raise RuntimeError.
Proof.
  unfold _parse_existing_enums.
  destruct (parse_enum_blocks content all_targets empty_dict); [left; by eexists|by right].
Qed.

(** C8, as stated, fails: with one block absent the parser can still
    raise, because a block that is present holds a value that is no
    number. *)
Lemma absent_block_beside_malformed_block :
  let content := "public enum CommandCode: UInt8, Sendable {" +:+ String newline ""
                 +:+ "    case appStart = one" +:+ String newline "" +:+ "}" in
  search_enum_block ResponseCode content = None
  ∧ _parse_existing_enums (Some content) = Raise RuntimeError.
Proof. vm_compute. done. Qed.

(** C8, amended: when the block of a target enum is absent from the text,
    the parser collects no case for that enum and the absence raises
    nothing: a successful parse has the empty list for it and, for every
    enum, the cases of its own block; and the parse raises only when the
    block of another enum, one that is present, holds a value that is no
    number. *)
Theorem absent_block_gives_no_cases (content : string) (enum_name : TargetEnum) :
  search_enum_block enum_name content = None →
  parse_enum_block content enum_name = Ok []
  ∧ (∀ enums, _parse_existing_enums (Some content) = Ok enums →
       enums enum_name = []
       ∧ ∀ other, parse_enum_block content other = Ok (enums other))
  ∧ ((∀ other, other ≠ enum_name → ∃ cases, parse_enum_block content other = Ok cases) →
       ∃ enums, _parse_existing_enums (Some content) = Ok enums)
  ∧ (_parse_existing_enums (Some content) = Raise RuntimeError
     ↔ ∃ other, other ≠ enum_name ∧ parse_enum_block content other = Raise ValueError).
Proof.
  intros Habsent.
  assert (parse_enum_block content enum_name = Ok []) as Hempty.
  { unfold parse_enum_block. by rewrite Habsent. }
  assert (_parse_existing_enums (Some content) = Raise RuntimeError
          ↔ ∃ other, other ≠ enum_name ∧ parse_enum_block content other = Raise ValueError)
    as Hraise.
  { rewrite parse_existing_enums_raise. split.
    - intros [other H]. exists other. split; [|done]. intros ->. congruence.
    - intros (other & _ & H). by exists other. }
  split; [done|]. split; [|split; [|done]].
  - intros enums Hok. pose proof (parse_existing_enums_ok _ _ Hok) as Hall.
    split; [|done]. specialize (Hall enum_name). congruence.
  - intros Hothers. destruct (parse_existing_enums_total content) as [?|H]; [done|].
    apply Hraise in H as (other & Hne & H).
    destruct (Hothers other Hne) as [cases ?]. congruence.
Qed.

Lemma absent_block_gives_no_cases_witness :
  let content := "public enum CommandCode: UInt8, Sendable {" +:+ String newline ""
                 +:+ "    case appStart = 1" +:+ String newline "" +:+ "}" in
  search_enum_block PushCode content = None
  ∧ parse_enum_block content PushCode = Ok [].
Proof.
  intros content.
  assert (search_enum_block PushCode content = None) as Habsent by reflexivity.
  split; [exact Habsent|].
  exact (proj1 (absent_block_gives_no_cases content PushCode Habsent)).
Defined.

Lemma print_target_file message w : w_target_file (print message w) = w_target_file w.
Proof. done. Qed.

(** C9, as stated, fails: a line of the case shape with a value that is
    no number is skipped when it is outside the bodies that the parser
    reads.  Here it comes after the first closing brace of the enum, where
    the lazy block pattern has ended the body; parsing succeeds and
    gives no case. *)
Lemma malformed_line_outside_body_is_skipped :
  let line := "    case later = .max" in
  let content := "public enum CommandCode: UInt8, Sendable {" +:+ String newline ""
                 +:+ "    var raw: Int { 1 }" +:+ String newline ""
                 +:+ line +:+ String newline "" +:+ "}" in
  In line (split_on newline content)
  ∧ (∃ case_match, search_case line = Some case_match
                   ∧ ¬ valid_decimal (value_text case_match)
                   ∧ ¬ valid_prefixed_hex (value_text case_match))
  ∧ ∃ enums, _parse_existing_enums (Some content) = Ok enums
             ∧ ∀ enum_name, enums enum_name = [].
Proof.
  intros line content. split; [|split].
  - right. right. left. reflexivity.
  - exists {| cm_name := "later"; cm_value := ".max"; cm_comment := None |}.
    split; [reflexivity|]. split.
    + intros [v Hv]. vm_compute in Hv. discriminate Hv.
    + intros [Hprefix _]. vm_compute in Hprefix. discriminate Hprefix.
  - eexists. split; [reflexivity|]. by intros [].
Qed.

(** C9, amended: when a line of the body of a block that the parser
    finds (the text from the opening brace of one of the three enums to
    the first closing brace after it) matches the case pattern and its
    value text is neither a decimal integer nor a hexadecimal one after
    [0x], parsing the target file raises; the line is not skipped, no
    list comes back, and a run ends there with exit code 1 and the file
    as it was. *)
Theorem malformed_value_aborts_parse (content : string) (enum_name : TargetEnum)
    (enum_match : EnumMatch) (line : string) (case_match : CaseMatch) :
  search_enum_block enum_name content = Some enum_match →
  In line (split_on newline (em_body enum_match)) →
  search_case line = Some case_match →
  ¬ valid_decimal (value_text case_match) →
  ¬ valid_prefixed_hex (value_text case_match) →
  _parse_existing_enums (Some content) = Raise RuntimeError
  ∧ ∀ summary_text apply_and_stamp mapped dry_run auto_approve skip_backup max_additions w,
      w_target_file w = Some content →
      ∃ w', run summary_text apply_and_stamp (Ok mapped) dry_run auto_approve skip_backup
              max_additions w = (1, w')
            ∧ w_target_file w' = Some content.
Proof.
  intros Hblock Hline Hmatch Hdec Hhex.
  assert (_parse_existing_enums (Some content) = Raise RuntimeError) as Hraise.
  { apply parse_existing_enums_raise. exists enum_name.
    unfold parse_enum_block. rewrite Hblock.
    eapply parse_case_lines_invalid; [exact Hline|exact Hmatch|].
    by apply parse_swift_value_invalid. }
  split; [done|].
  intros summary_text apply_and_stamp mapped dry_run auto_approve skip_backup
    max_additions w Hfile.
  unfold run. rewrite !print_target_file, Hfile, Hraise.
  eexists. split; [reflexivity|]. by rewrite !print_target_file.
Qed.

Lemma malformed_value_aborts_parse_witness :
  let content := "public enum PushCode: UInt8, Sendable {" +:+ String newline ""
                 +:+ "    case advert = 0b1000," +:+ String newline "" +:+ "}" in
  _parse_existing_enums (Some content) = Raise RuntimeError.
Proof.
  intros content.
  refine (proj1 (malformed_value_aborts_parse content PushCode
            {| em_start := 0; em_body := String newline "    case advert = 0b1000," |}
            "    case advert = 0b1000,"
            {| cm_name := "advert"; cm_value := "0b1000,"; cm_comment := None |}
            _ _ _ _ _)).
  - reflexivity.
  - right. left. reflexivity.
  - reflexivity.
  - intros [v Hv]. vm_compute in Hv. discriminate Hv.
  - intros [Hprefix _]. vm_compute in Hprefix. discriminate Hprefix.
Defined.

(** A successful loop over the lines gives one case per line on which the
    case pattern matches: no such line is skipped. *)
Lemma parse_case_lines_ok line_num lines cases :
  parse_case_lines line_num lines = Ok cases →
  length cases
  = length (List.filter (fun line => bool_decide (is_Some (search_case line))) lines).
Proof.
  revert line_num cases.
  induction lines as [|l lines IH]; intros line_num cases; simpl.
  - by intros [= <-].
  - destruct (search_case l) as [m|]; simpl; [|by apply IH].
    destruct (_parse_swift_value (strip (cm_value m))) as [v|]; simpl; [|done].
    destruct (parse_case_lines (line_num + 1) lines) as [cs|] eqn:E; simpl; [|done].
    intros [= <-]. simpl. f_equal. by eapply IH.
Qed.

(** ** The safety limit of a run *)

(** C7: when the additions of all enums together exceed the limit and
    there is no automatic approval, the run prints its warning and waits
    for an answer on standard input; with an answer other than [y] or
    [yes] it ends with exit code 0, the target file is what it was, and
    nothing but the answer was read. *)
Theorem safety_limit_declined
    (summary_text : list ChangeAnalysis → bool → list string)
    (apply_and_stamp : list ChangeAnalysis → bool → World → Z * World)
    (mapped : TargetDict EnumCase) (swift_enums : TargetDict SwiftEnumCase)
    (dry_run skip_backup : bool) (max_additions : Z) (w : World)
    (response : string) (rest : list string) :
  _parse_existing_enums (w_target_file w) = Ok swift_enums →
  max_additions < sum_lengths ca_additions (analyze_changes swift_enums mapped) →
  w_stdin w = response :: rest →
  is_yes response = false →
  ∃ w', run summary_text apply_and_stamp (Ok mapped) dry_run false skip_backup
          max_additions w = (0, w')
        ∧ w_target_file w' = w_target_file w
        ∧ w_stdin w' = rest
        ∧ In "Proceed anyway? (y/n): " (w_printed w').
Proof.
  intros Hparse Hlimit Hstdin Hno.
  unfold run. rewrite !print_target_file, Hparse.
  unfold run_from_analyses.
  rewrite (proj2 (Z.ltb_lt _ _) Hlimit). cbn [negb andb].
  unfold input. cbn [print w_stdin]. rewrite Hstdin, Hno. cbn [negb].
  eexists. split; [reflexivity|]. repeat split.
  cbn [print w_printed]. rewrite !in_app_iff. left. right. left. reflexivity.
Qed.

Lemma safety_limit_declined_witness :
  let cases := map (fun n => {| ec_name := "code"; ec_value := Z.of_nat n;
                                ec_source_file := "packets.py"; ec_line_number := 1;
                                ec_original_name := "CODE" |}) (seq 0 60) in
  let mapped : TargetDict EnumCase :=
    fun t => match t with CommandCode => cases | _ => [] end in
  let w := {| w_target_file := Some ""; w_stdin := ["n"]; w_printed := [] |} in
  ∃ w', run (fun _ _ => []) (fun _ _ w => (0, w)) (Ok mapped) false false false
          default_max_additions w = (0, w')
        ∧ w_target_file w' = Some "" ∧ w_stdin w' = []
        ∧ In "Proceed anyway? (y/n): " (w_printed w').
Proof.
  intros cases mapped w.
  apply (safety_limit_declined (fun _ _ => []) (fun _ _ w => (0, w)) mapped
           (dict_extend PushCode []
              (dict_extend ResponseCode [] (dict_extend CommandCode [] empty_dict)))
           false false default_max_additions w "n" []).
  - reflexivity.
  - vm_compute. reflexivity.
  - reflexivity.
  - reflexivity.
Defined.

(** Without an answer to read the run does not go on either: it ends
    with exit code 1 and the file as it was. *)
Lemma safety_limit_no_answer
    (summary_text : list ChangeAnalysis → bool → list string)
    (apply_and_stamp : list ChangeAnalysis → bool → World → Z * World)
    (analyses : list ChangeAnalysis) (dry_run skip_backup : bool)
    (max_additions : Z) (w : World) :
  max_additions < sum_lengths ca_additions analyses →
  w_stdin w = [] →
  ∃ w', run_from_analyses summary_text apply_and_stamp analyses dry_run false skip_backup
          max_additions w = (1, w')
        ∧ w_target_file w' = w_target_file w.
Proof.
  intros Hlimit Hstdin. unfold run_from_analyses.
  rewrite (proj2 (Z.ltb_lt _ _) Hlimit). cbn [negb andb].
  unfold input. cbn [print w_stdin]. rewrite Hstdin.
  eexists. split; reflexivity.
Qed.

(** With automatic approval, or within the limit, the run does not ask
    at this step. *)
Lemma safety_limit_not_asked
    (summary_text : list ChangeAnalysis → bool → list string)
    (apply_and_stamp : list ChangeAnalysis → bool → World → Z * World)
    (analyses : list ChangeAnalysis) (dry_run auto_approve skip_backup : bool)
    (max_additions : Z) (w : World) :
  auto_approve = true ∨ sum_lengths ca_additions analyses ≤ max_additions →
  run_from_analyses summary_text apply_and_stamp analyses dry_run auto_approve skip_backup
    max_additions w
  = match _show_change_summary summary_text analyses dry_run auto_approve w with
    | (Raise _, w') => (1, print "Error" w')
    | (Ok false, w') => (0, w')
    | (Ok true, w') =>
        if dry_run then (0, print "Dry run complete - no changes made" w')
        else apply_and_stamp analyses skip_backup (print "Applying changes..." w')
    end.
Proof.
  intros H. unfold run_from_analyses.
  destruct H as [->|Hle].
  - by rewrite andb_false_r.
  - by rewrite (proj2 (Z.ltb_ge _ _) Hle).
Qed.

(** * Further properties of the pipeline *)

(** ** The whole extraction *)

(** A definition whose name holds [packet] and none of the command and
    response tokens goes to the response and the push enum. *)
Lemma detect_packet_type enum_def :
  ed_name enum_def = "PacketType" →
  _detect_target_enums_dynamic enum_def = [ResponseCode; PushCode].
Proof.
  intros Hname. unfold _detect_target_enums_dynamic, detect_site. by rewrite Hname.
Qed.

Lemma map_case_both st case :
  ms_swift_enums st CommandCode = [] →
  ms_swift_enums st ResponseCode = ms_swift_enums st PushCode →
  ms_swift_enums (map_case [ResponseCode; PushCode] st case) CommandCode = []
  ∧ ms_swift_enums (map_case [ResponseCode; PushCode] st case) ResponseCode
    = ms_swift_enums (map_case [ResponseCode; PushCode] st case) PushCode.
Proof.
  intros Hc Hrp. unfold map_case.
  destruct (decide (case_key case ∈ ms_seen_cases st)); [done|].
  simpl. unfold dict_append. simpl. by rewrite Hc, Hrp.
Qed.

(** X1: whatever the source tree, [extract_all_enums] keeps at most one
    definition, the class [PacketType] with its two cases or more; so
    the mapping of what it extracts leaves the command enum empty and
    gives the response and the push enum the same list of cases. *)
Theorem extracted_cases_go_to_response_and_push (files : list PyFile) :
  let enums := extract_all_enums files in
  let mapped := map_to_swift_enums (odict_values enums) in
  (enums = []
   ∨ ∃ enum_def, enums = [("PacketType", enum_def)]
       ∧ ed_name enum_def = "PacketType" ∧ (2 ≤ length (ed_cases enum_def))%nat)
  ∧ mapped CommandCode = []
  ∧ mapped ResponseCode = mapped PushCode.
Proof.
  intros enums mapped. subst mapped enums.
  assert (∀ files', extract_all_enums files' = []
            ∨ ∃ d, extract_all_enums files' = [("PacketType", d)]
                   ∧ ed_name d = "PacketType" ∧ (2 ≤ length (ed_cases d))%nat) as Hsingle.
  { intros files'. unfold extract_all_enums.
    assert (∀ enums,
      (enums = [] ∨ ∃ d, enums = [("PacketType", d)]
                         ∧ ed_name d = "PacketType" ∧ (2 ≤ length (ed_cases d))%nat) →
      foldl extract_file_enums enums files' = []
      ∨ ∃ d, foldl extract_file_enums enums files' = [("PacketType", d)]
             ∧ ed_name d = "PacketType" ∧ (2 ≤ length (ed_cases d))%nat) as H.
    { induction files' as [|file files' IH]; intros enums Henums; [done|].
      simpl. apply IH. unfold extract_file_enums.
      destruct (pf_classes file) as [classes|]; [|done].
      clear IH. revert enums Henums.
      induction classes as [|class_node classes IHc]; intros enums Henums; [done|].
      simpl. apply IHc.
      destruct (_extract_int_enum class_node (pf_file file)) as [d'|] eqn:E; [|done].
      apply extract_int_enum_packet_type in E as [Hname Hlen]. rewrite Hname.
      right. exists d'. split; [|done].
      by destruct Henums as [->|(d & -> & _)]. }
    apply H. by left. }
  split; [apply Hsingle|].
  destruct (Hsingle files) as [->|(d & -> & Hname & _)]; [done|].
  unfold map_to_swift_enums, odict_values. simpl.
  unfold map_definition. rewrite (detect_packet_type d Hname).
  assert (∀ cases st,
    ms_swift_enums st CommandCode = [] →
    ms_swift_enums st ResponseCode = ms_swift_enums st PushCode →
    ms_swift_enums (foldl (map_case [ResponseCode; PushCode]) st cases) CommandCode = []
    ∧ ms_swift_enums (foldl (map_case [ResponseCode; PushCode]) st cases) ResponseCode
      = ms_swift_enums (foldl (map_case [ResponseCode; PushCode]) st cases) PushCode) as H.
  { induction cases as [|case cases IH]; intros st Hc Hrp; [done|].
    simpl. destruct (map_case_both st case Hc Hrp). by apply IH. }
  by apply H.
Qed.

(** ** What the mapping keeps *)

Lemma map_case_lists targets st case t :
  NoDup targets →
  ms_swift_enums (map_case targets st case) t
  = (ms_swift_enums st t
     ++ if decide (case_key case ∈ ms_seen_cases st) then []
        else if decide (t ∈ targets) then [case] else [])%list.
Proof.
  intros Hnd. unfold map_case.
  destruct (decide (case_key case ∈ ms_seen_cases st)); [by rewrite app_nil_r|].
  simpl. by rewrite foldl_dict_append.
Qed.

Lemma map_case_seen targets st case :
  ms_seen_cases (map_case targets st case) = ms_seen_cases st ∪ {[ case_key case ]}.
Proof.
  unfold map_case.
  destruct (decide (case_key case ∈ ms_seen_cases st)) as [Hin|]; [|done].
  apply set_eq. intros k. rewrite elem_of_union, elem_of_singleton.
  split; [by left|]. by intros [?| ->].
Qed.

Lemma map_case_sound enums enum_def st case :
  enum_def ∈ enums → case ∈ ed_cases enum_def →
  map_sound enums st →
  map_sound enums (map_case (_detect_target_enums_dynamic enum_def) st case).
Proof.
  intros Hd Hc Hsound t c.
  rewrite map_case_lists by apply site_targets_NoDup.
  rewrite elem_of_app. intros [Hin|Hin]; [by apply Hsound|].
  destruct (decide (case_key case ∈ ms_seen_cases st)); [by apply elem_of_nil in Hin|].
  destruct (decide (t ∈ _detect_target_enums_dynamic enum_def)) as [Ht|];
    [|by apply elem_of_nil in Hin].
  apply list_elem_of_singleton in Hin as ->. by exists enum_def.
Qed.

Lemma map_case_complete targets st case :
  NoDup targets → targets ≠ [] →
  map_complete st → map_complete (map_case targets st case).
Proof.
  intros Hnd Hne Hcomplete k. rewrite map_case_seen, elem_of_union, elem_of_singleton.
  assert (∀ t c, c ∈ ms_swift_enums st t → c ∈ ms_swift_enums (map_case targets st case) t)
    as Hgrow.
  { intros t c Hc. rewrite map_case_lists by done. apply elem_of_app. by left. }
  destruct (decide (case_key case ∈ ms_seen_cases st)) as [Hseen|Hnew].
  - intros Hk. assert (k ∈ ms_seen_cases st) as Hk' by (by destruct Hk as [?| ->]).
    destruct (Hcomplete k Hk') as (t & c & Hc & Hkey). exists t, c. split; [by apply Hgrow|done].
  - intros [Hk| ->].
    + destruct (Hcomplete k Hk) as (t & c & Hc & Hkey). exists t, c. by split; [apply Hgrow|].
    + destruct targets as [|t targets]; [done|]. exists t, case. split; [|done].
      rewrite map_case_lists by done. rewrite (decide_False (P := _ ∈ ms_seen_cases st)) by done.
      rewrite (decide_True (P := t ∈ t :: targets)) by apply list_elem_of_here.
      apply elem_of_app. right. apply list_elem_of_here.
Qed.

Lemma map_definition_sound_complete enums enum_def st :
  enum_def ∈ enums →
  (map_sound enums st → map_sound enums (map_definition st enum_def))
  ∧ (map_complete st → map_complete (map_definition st enum_def))
  ∧ ms_seen_cases st ⊆ ms_seen_cases (map_definition st enum_def)
  ∧ (∀ c, c ∈ ed_cases enum_def → case_key c ∈ ms_seen_cases (map_definition st enum_def)).
Proof.
  intros Hd. unfold map_definition.
  assert (∀ cases st,
    (∀ c, c ∈ cases → c ∈ ed_cases enum_def) →
    let st' := foldl (map_case (_detect_target_enums_dynamic enum_def)) st cases in
    (map_sound enums st → map_sound enums st')
    ∧ (map_complete st → map_complete st')
    ∧ ms_seen_cases st ⊆ ms_seen_cases st'
    ∧ (∀ c, c ∈ cases → case_key c ∈ ms_seen_cases st')) as H.
  { induction cases as [|case cases IH]; intros st0 Hsub; simpl.
    - repeat split; try done. intros c Hc. by apply elem_of_nil in Hc.
    - assert (case ∈ ed_cases enum_def) as Hcase by apply Hsub, list_elem_of_here.
      assert (_detect_target_enums_dynamic enum_def ≠ []) as Hne.
      { apply detect_site_with_values. intros E. rewrite E in Hcase.
        by apply elem_of_nil in Hcase. }
      destruct (IH (map_case (_detect_target_enums_dynamic enum_def) st0 case))
        as (Hs & Hc & Hmono & Hkeys).
      { intros c Hc. by apply Hsub, list_elem_of_further. }
      assert (ms_seen_cases st0 ∪ {[case_key case]}
              ⊆ ms_seen_cases
                  (foldl (map_case (_detect_target_enums_dynamic enum_def))
                     (map_case (_detect_target_enums_dynamic enum_def) st0 case) cases))
        as Hmono' by by rewrite <- (map_case_seen (_detect_target_enums_dynamic enum_def)).
      repeat split.
      + intros Hsound. by apply Hs, map_case_sound.
      + intros Hcomplete. apply Hc, map_case_complete; [apply site_targets_NoDup|done..].
      + intros k Hk. apply Hmono', elem_of_union. by left.
      + intros c Hin. apply elem_of_cons in Hin as [->|Hin]; [|by apply Hkeys].
        apply Hmono', elem_of_union. right. by apply elem_of_singleton. }
  by apply H.
Qed.

(** X2: the mapping invents and loses nothing: a case in the list of a
    target enum is a case of one of the definitions, and that definition
    is routed to that enum; and for every case of every definition some
    list holds a case with its key. *)
Theorem mapped_cases_sound_and_complete (enums : list EnumDefinition) :
  (∀ target case, case ∈ map_to_swift_enums enums target →
     ∃ enum_def, enum_def ∈ enums ∧ case ∈ ed_cases enum_def
                 ∧ target ∈ _detect_target_enums_dynamic enum_def)
  ∧ (∀ enum_def case, enum_def ∈ enums → case ∈ ed_cases enum_def →
       ∃ target case', case' ∈ map_to_swift_enums enums target
                       ∧ case_key case' = case_key case).
Proof.
  unfold map_to_swift_enums.
  assert (∀ processed st,
    (∀ d, d ∈ processed → d ∈ enums) →
    let st' := foldl map_definition st processed in
    (map_sound enums st → map_sound enums st')
    ∧ (map_complete st → map_complete st')
    ∧ ms_seen_cases st ⊆ ms_seen_cases st'
    ∧ (∀ d c, d ∈ processed → c ∈ ed_cases d → case_key c ∈ ms_seen_cases st')) as H.
  { induction processed as [|d processed IH]; intros st Hsub; simpl.
    - repeat split; try done. intros d c Hd. by apply elem_of_nil in Hd.
    - assert (d ∈ enums) as Hd by apply Hsub, list_elem_of_here.
      destruct (map_definition_sound_complete enums d st Hd) as (Hs1 & Hc1 & Hm1 & Hk1).
      destruct (IH (map_definition st d)) as (Hs & Hc & Hmono & Hkeys).
      { intros d' Hd'. by apply Hsub, list_elem_of_further. }
      repeat split.
      + intros Hsound. by apply Hs, Hs1.
      + intros Hcomplete. by apply Hc, Hc1.
      + intros k Hk. by apply Hmono, Hm1.
      + intros d' c Hin Hc'. apply elem_of_cons in Hin as [->|Hin]; [|by eapply Hkeys].
        by apply Hmono, Hk1. }
  destruct (H enums {| ms_swift_enums := empty_dict; ms_seen_cases := ∅ |})
    as (Hs & Hc & _ & Hkeys); [done|].
  split.
  - apply Hs. intros t c Hin. by apply elem_of_nil in Hin.
  - intros d c Hd Hin. apply Hc; [|by eapply Hkeys].
    intros k Hk. by apply elem_of_empty in Hk.
Qed.

Lemma mapped_cases_sound_and_complete_witness :
  let first := {| ec_name := "ok"; ec_value := 0; ec_source_file := "a.py";
                  ec_line_number := 2; ec_original_name := "OK" |} in
  let again := {| ec_name := "ok"; ec_value := 0; ec_source_file := "b.py";
                  ec_line_number := 9; ec_original_name := "OK" |} in
  let enums := [ {| ed_name := "PacketType"; ed_cases := [first];
                    ed_base_type := "IntEnum"; ed_source_file := "a.py" |};
                 {| ed_name := "Codes"; ed_cases := [again];
                    ed_base_type := "IntEnum"; ed_source_file := "b.py" |} ] in
  ∃ target case', case' ∈ map_to_swift_enums enums target
                  ∧ case_key case' = case_key again.
Proof.
  intros first again enums.
  apply (proj2 (mapped_cases_sound_and_complete enums)
           {| ed_name := "Codes"; ed_cases := [again];
              ed_base_type := "IntEnum"; ed_source_file := "b.py" |} again).
  - apply list_elem_of_further, list_elem_of_here.
  - apply list_elem_of_here.
Defined.

(** ** Routing by name and by value *)

Lemma forallb_existsb_range (values : list Z) :
  forallb (fun v => v <? 128) values = negb (existsb (fun v => 128 <=? v) values)
  ∧ forallb (fun v => 128 <=? v) values = negb (existsb (fun v => v <? 128) values).
Proof.
  induction values as [|v values [IH1 IH2]]; [done|]. simpl. rewrite IH1, IH2.
  split; destruct (Z.ltb_spec v 128), (Z.leb_spec 128 v); simpl; try lia; done.
Qed.

Lemma existsb_value_of_case (p : Z → bool) cases (c : EnumCase) :
  c ∈ cases → p (ec_value c) = true → existsb p (map ec_value cases) = true.
Proof.
  intros Hc Hp. apply existsb_exists. exists (ec_value c). split; [|done].
  apply in_map, list_elem_of_In, Hc.
Qed.

(** X3: the command enum is chosen by the name alone: it is among the
    targets exactly when the lower-cased name holds a command token, and
    then it is the only target.  When the name holds neither a command
    nor a response token, the enum of the value range of every case of
    the definition is among the targets (the response enum below 0x80,
    the push enum from 0x80 on). *)
Theorem routing_by_name_and_range (enum_def : EnumDefinition) :
  let name := lower (ed_name enum_def) in
  let targets := _detect_target_enums_dynamic enum_def in
  (CommandCode ∈ targets ↔ any_keyword command_keywords name = true)
  ∧ (any_keyword command_keywords name = true → targets = [CommandCode])
  ∧ (any_keyword command_keywords name = false →
     any_keyword response_keywords name = false →
     ∀ case, case ∈ ed_cases enum_def →
       (if ec_value case <? 128 then ResponseCode else PushCode) ∈ targets).
Proof.
  intros name targets. subst name targets.
  unfold _detect_target_enums_dynamic, detect_site.
  destruct (any_keyword command_keywords (lower (ed_name enum_def))) eqn:Hcmd.
  { split; [|done]. split; [done|]. intros _. apply list_elem_of_here. }
  split; [|split; [done|]].
  - split; [|done]. intros Hin.
    repeat match type of Hin with
           | context [if ?b then _ else _] => destruct b
           end; simpl in Hin;
      repeat (apply elem_of_cons in Hin as [Hin|Hin]; [done|]); by apply elem_of_nil in Hin.
  - intros _ ->. intros case Hcase.
    destruct (contains "packet" (lower (ed_name enum_def))).
    { simpl. destruct (ec_value case <? 128);
        [apply list_elem_of_here|apply list_elem_of_further, list_elem_of_here]. }
    assert (is_nil (map ec_value (ed_cases enum_def)) = false) as ->.
    { destruct (ed_cases enum_def); [by apply elem_of_nil in Hcase|done]. }
    rewrite andb_false_r.
    destruct (forallb_existsb_range (map ec_value (ed_cases enum_def))) as [-> ->].
    destruct (Z.ltb_spec (ec_value case) 128) as [Hlow|Hhigh].
    + rewrite (existsb_value_of_case (fun v => v <? 128) _ case Hcase)
        by by apply Z.ltb_lt.
      destruct (existsb (fun v => 128 <=? v) _); simpl; apply list_elem_of_here.
    + rewrite (existsb_value_of_case (fun v => 128 <=? v) _ case Hcase)
        by by apply Z.leb_le.
      simpl. destruct (existsb (fun v => v <? 128) _); simpl;
        [apply list_elem_of_further|]; apply list_elem_of_here.
Qed.

Lemma routing_by_name_and_range_witness :
  let case := {| ec_name := "advert"; ec_value := 128; ec_source_file := "codes.py";
                 ec_line_number := 3; ec_original_name := "ADVERT" |} in
  let enum_def := {| ed_name := "Codes";
                     ed_cases := [ {| ec_name := "ok"; ec_value := 0;
                                      ec_source_file := "codes.py"; ec_line_number := 2;
                                      ec_original_name := "OK" |}; case ];
                     ed_base_type := "IntEnum"; ed_source_file := "codes.py" |} in
  PushCode ∈ _detect_target_enums_dynamic enum_def.
Proof.
  intros case enum_def.
  apply (proj2 (proj2 (routing_by_name_and_range enum_def)) eq_refl eq_refl case).
  apply list_elem_of_further, list_elem_of_here.
Defined.

(** ** The ranges of the analyses *)

(** X4: [analyze_changes] gives the three analyses in the fixed order,
    and the additions and duplicates of each are cases of the list mapped
    to its enum that lie in its range: below 0x80 for the response enum,
    0x80 or more for the push enum, any value for the command enum. *)
Theorem analyses_keep_to_their_ranges (swift_enums : TargetDict SwiftEnumCase)
    (python_enums : TargetDict EnumCase) :
  map ca_target_enum (analyze_changes swift_enums python_enums)
  = [CommandCode; ResponseCode; PushCode]
  ∧ ∀ analysis case,
      In analysis (analyze_changes swift_enums python_enums) →
      In case (ca_additions analysis) ∨ In case (ca_duplicates analysis) →
      In case (python_enums (ca_target_enum analysis))
      ∧ match ca_target_enum analysis with
        | CommandCode => True
        | ResponseCode => ec_value case < 128
        | PushCode => 128 ≤ ec_value case
        end.
Proof.
  split; [done|]. intros analysis case Hin Hcase.
  assert (∃ t, analysis = _analyze_enum_changes t (filter_by_range t (python_enums t))
                            (swift_enums t)) as [t ->].
  { unfold analyze_changes, all_targets in Hin. cbn [map In] in Hin.
    destruct Hin as [<-|[<-|[<-|[]]]];
      [by exists CommandCode|by exists ResponseCode|by exists PushCode]. }
  simpl in *.
  destruct (diff_cases_filters (filter_by_range t (python_enums t)) (swift_enums t))
    as [Hadd Hdup].
  rewrite Hadd, Hdup in Hcase. rewrite !filter_In in Hcase.
  assert (In case (filter_by_range t (python_enums t))) as Hfiltered by tauto.
  destruct t; simpl in Hfiltered; [done|..]; apply filter_In in Hfiltered as [? Hrange];
    (split; [done|lia]).
Qed.

Lemma analyses_keep_to_their_ranges_witness :
  let low := {| ec_name := "ok"; ec_value := 0; ec_source_file := "packets.py";
                ec_line_number := 2; ec_original_name := "OK" |} in
  let high := {| ec_name := "advert"; ec_value := 128; ec_source_file := "packets.py";
                 ec_line_number := 3; ec_original_name := "ADVERT" |} in
  let python_enums : TargetDict EnumCase :=
    fun t => match t with CommandCode => [] | _ => [low; high] end in
  let analysis := _analyze_enum_changes PushCode
                    (filter_by_range PushCode (python_enums PushCode)) (empty_dict PushCode) in
  In high (ca_additions analysis) ∧ In high (python_enums PushCode) ∧ 128 ≤ ec_value high.
Proof.
  intros low high python_enums analysis.
  split; [vm_compute; left; reflexivity|].
  refine (proj2 (analyses_keep_to_their_ranges empty_dict python_enums) analysis high _ _).
  - right. right. left. reflexivity.
  - left. vm_compute. left. reflexivity.
Defined.

(** ** The block the parser locates *)

Lemma append_cons (x : ascii) (a b : string) : String x a +:+ b = String x (a +:+ b).
Proof. reflexivity. Qed.

Lemma append_assoc_string (a b c : string) : (a +:+ b) +:+ c = a +:+ b +:+ c.
Proof. induction a as [|x a IH]; [done|]. by rewrite !append_cons, IH. Qed.

Lemma strip_prefix_app p s r : strip_prefix p s = Some r → s = p +:+ r.
Proof.
  revert s. induction p as [|a p IH]; intros s; simpl.
  - by intros [= ->].
  - destruct s as [|b s]; [done|].
    destruct (Ascii.eqb_spec a b) as [->|]; [|done]. intros H.
    by rewrite append_cons, <- (IH _ H).
Qed.

Lemma lstrip_app s : ∃ ws, s = ws +:+ lstrip s ∧ all_chars is_space ws = true.
Proof.
  induction s as [|c s (ws & Hs & Hws)]; simpl.
  - by exists "".
  - destruct (is_space c) eqn:E.
    + exists (String c ws). rewrite append_cons, <- Hs. simpl. by rewrite E, Hws.
    + by exists "".
Qed.

Lemma lazy_body_shape s body :
  lazy_body s = Some body →
  has_char "}" body = false
  ∧ ∃ ws rest, s = body +:+ ws +:+ String "}" rest ∧ all_chars is_space ws = true.
Proof.
  revert body. induction s as [|c s IH]; intros body; [done|].
  cbn [lazy_body]. destruct (closes_here (String c s)) eqn:Hclose.
  - intros [= <-]. split; [done|]. unfold closes_here in Hclose.
    destruct (lstrip_app (String c s)) as (ws & Hs & Hws).
    destruct (lstrip (String c s)) as [|x rest]; [done|].
    destruct (Ascii.eqb_spec x "}") as [->|Hne].
    + by exists ws, rest.
    + exfalso. revert Hclose. clear -Hne.
      destruct x as [[] [] [] [] [] [] [] []]; done.
  - destruct (lazy_body s) as [body'|]; [|done]. intros [= <-].
    destruct (IH body' eq_refl) as (Hno & ws & rest & -> & Hws).
    split.
    + simpl. rewrite Hno, orb_false_r.
      destruct (Ascii.eqb_spec c "}") as [->|]; [|done]. by simpl in Hclose.
    + by exists ws, rest.
Qed.

Lemma search_enum_from_shape enum_name s pos m :
  search_enum_from enum_name s pos = Some m →
  ∃ pre rest, s = pre +:+ rest
    ∧ em_start m = pos + Z.of_nat (String.length pre)
    ∧ match_enum_at enum_name rest = Some (em_body m).
Proof.
  revert pos. induction s as [|c s IH]; intros pos; simpl.
  - done.
  - destruct (match_enum_at enum_name (String c s)) as [body|] eqn:E.
    + intros [= <-]. exists "", (String c s). simpl. split; [done|]. split; [lia|done].
    + intros H. destruct (IH _ H) as (pre & rest & -> & Hstart & Hmatch).
      exists (String c pre), rest. simpl. split; [done|]. split; [lia|done].
Qed.

(** X5: a block the parser locates is the head of the enum, white space,
    an opening brace, the body, white space and a closing brace, at the
    offset the match reports; the body holds no closing brace, so it ends
    at the first one after the head, whatever braces the enum nests. *)
Theorem located_block_shape (content : string) (enum_name : TargetEnum) (m : EnumMatch) :
  search_enum_block enum_name content = Some m →
  has_char "}" (em_body m) = false
  ∧ ∃ before ws1 ws2 after,
      content = before +:+ enum_header (target_name enum_name) +:+ ws1 +:+ "{"
                +:+ em_body m +:+ ws2 +:+ "}" +:+ after
      ∧ em_start m = Z.of_nat (String.length before)
      ∧ all_chars is_space ws1 = true ∧ all_chars is_space ws2 = true.
Proof.
  unfold search_enum_block. intros H.
  apply search_enum_from_shape in H as (before & rest & -> & Hstart & Hmatch).
  unfold match_enum_at in Hmatch.
  destruct (strip_prefix _ rest) as [r1|] eqn:Hprefix; [|done].
  apply strip_prefix_app in Hprefix as ->.
  destruct (lstrip_app r1) as (ws1 & Hr1 & Hws1).
  destruct (lstrip r1) as [|x r2]; [done|].
  destruct (Ascii.eqb_spec x "{") as [->|Hne].
  2:{ exfalso. revert Hmatch. clear -Hne. destruct x as [[] [] [] [] [] [] [] []]; done. }
  apply lazy_body_shape in Hmatch as (Hno & ws2 & after & -> & Hws2).
  split; [done|]. exists before, ws1, ws2, after.
  rewrite Hr1. split; [reflexivity|done].
Qed.

Lemma located_block_shape_witness :
  let content := "public enum PushCode: UInt8, Sendable {" +:+ String newline ""
                 +:+ "    case advert = 0x80" +:+ String newline ""
                 +:+ "    var raw: Int { 1 }" +:+ String newline "" +:+ "}" in
  ∃ m, search_enum_block PushCode content = Some m ∧ has_char "}" (em_body m) = false.
Proof.
  intros content. eexists. split; [reflexivity|].
  eapply (proj1 (located_block_shape content PushCode _ _)).
  Unshelve. reflexivity.
Defined.

(** ** The cases of a block *)

Lemma matched_lines_lookup line_num lines n m :
  In (n, m) (matched_lines line_num lines)
  ↔ ∃ (i : nat) line, lines !! i = Some line ∧ search_case line = Some m
                      ∧ n = line_num + Z.of_nat i.
Proof.
  revert line_num. induction lines as [|l lines IH]; intros line_num; simpl.
  - split; [done|]. by intros (i & line & Hi & _).
  - assert (In (n, m) (matched_lines (line_num + 1) lines)
            ↔ ∃ (i : nat) line, (l :: lines) !! S i = Some line ∧ search_case line = Some m
                                ∧ n = line_num + Z.of_nat (S i)) as Hrest.
    { rewrite IH. split; intros (i & line & Hi & Hm & ->); exists i, line;
        (split; [done|split; [done|lia]]). }
    destruct (search_case l) as [m'|] eqn:E; simpl; rewrite Hrest; split.
    + intros [[= <- <-]|(i & line & Hi & Hm & ->)].
      * exists O, l. split; [done|]. split; [done|lia].
      * by exists (S i), line.
    + intros ([|i] & line & Hi & Hm & ->).
      * left. injection Hi as <-. rewrite E in Hm. injection Hm as <-. f_equal. lia.
      * right. by exists i, line.
    + intros (i & line & Hi & Hm & ->). by exists (S i), line.
    + intros ([|i] & line & Hi & Hm & ->).
      * injection Hi as <-. congruence.
      * by exists i, line.
Qed.

Lemma parse_case_lines_exact line_num lines cases :
  parse_case_lines line_num lines = Ok cases
  ↔ Forall2 case_of_match (matched_lines line_num lines) cases.
Proof.
  revert line_num cases.
  induction lines as [|l lines IH]; intros line_num cases; simpl.
  - split; [intros [= <-]; constructor|]. by intros ->%Forall2_nil_inv_l.
  - destruct (search_case l) as [m|]; [|apply IH].
    destruct (_parse_swift_value (strip (cm_value m))) as [v|e] eqn:Ev; simpl.
    + destruct (parse_case_lines (line_num + 1) lines) as [cs|e] eqn:Ecs; simpl.
      * split.
        -- intros [= <-]. constructor; [done|]. by apply IH.
        -- intros (c & cs' & (Hn & Hv & Hc & Hl) & Hrest & ->)%Forall2_cons_inv_l.
           apply IH in Hrest. rewrite Ecs in Hrest. injection Hrest as <-.
           destruct c as [cn cv cc cl].
           cbn [sc_name sc_value sc_comment sc_line_number fst snd] in *.
           rewrite Ev in Hv. injection Hv as ->. by subst.
      * split; [done|].
        intros (c & cs' & _ & Hrest & ->)%Forall2_cons_inv_l.
        apply IH in Hrest. congruence.
    + split; [done|].
      intros (c & cs' & (_ & Hv & _) & _ & ->)%Forall2_cons_inv_l. simpl in Hv. congruence.
Qed.

(** X6: for a block that is found, the parser succeeds exactly when the
    value of every line of the body on which the case pattern matches is
    a number that [int] accepts, and then it gives one case per such
    line, in the order of the lines, with the name and the comment of
    the match.  What it records as the line number of a case is no line
    number: it is the character offset at which the block starts in the
    text ([enum_match.start()]) plus the index of the line in the
    body. *)
Theorem block_cases_follow_matched_lines (content : string) (enum_name : TargetEnum)
    (m : EnumMatch) :
  search_enum_block enum_name content = Some m →
  let lines := split_on newline (em_body m) in
  (∀ cases, parse_enum_block content enum_name = Ok cases
            ↔ Forall2 case_of_match (matched_lines (em_start m) lines) cases)
  ∧ (∀ n case_match, In (n, case_match) (matched_lines (em_start m) lines)
       ↔ ∃ (i : nat) line, lines !! i = Some line ∧ search_case line = Some case_match
                           ∧ n = em_start m + Z.of_nat i).
Proof.
  intros Hblock lines. split.
  - intros cases. unfold parse_enum_block. rewrite Hblock. apply parse_case_lines_exact.
  - intros n case_match. apply matched_lines_lookup.
Qed.

Lemma block_cases_follow_matched_lines_witness :
  let content := "// frame" +:+ String newline ""
                 +:+ "public enum PushCode: UInt8, Sendable {" +:+ String newline ""
                 +:+ "    case advert = 0x80 // heard" +:+ String newline "" +:+ "}" in
  parse_enum_block content PushCode
  = Ok [ {| sc_name := "advert"; sc_value := 128; sc_comment := Some "heard";
            sc_line_number := Some 10 |} ].
Proof.
  intros content.
  apply (proj1 (block_cases_follow_matched_lines content PushCode
                  {| em_start := 9; em_body := String newline "    case advert = 0x80 // heard" |}
                  eq_refl)).
  repeat constructor.
Defined.

(** ** The shape of a matched case line *)

Lemma span_spec p s a b :
  span p s = (a, b) →
  s = a +:+ b ∧ all_chars p a = true
  ∧ match b with String c _ => p c = false | "" => True end.
Proof.
  revert a b. induction s as [|c s IH]; intros a b; simpl.
  - by intros [= <- <-].
  - destruct (p c) eqn:E.
    + destruct (span p s) as [a' b'] eqn:Hspan. intros [= <- <-].
      destruct (IH a' b' eq_refl) as (-> & Ha & Hb).
      split; [done|]. split; [|done]. simpl. by rewrite E, Ha.
    + intros [= <- <-]. by rewrite E.
Qed.

Lemma last_non_newline_spec ws c newlines :
  all_chars is_space ws = true →
  last_non_newline ws = Some (c, newlines) →
  is_space c = true ∧ Ascii.eqb c newline = false.
Proof.
  revert c newlines. induction ws as [|x ws IH]; intros c newlines; simpl; [done|].
  intros [Hx Hws]%andb_true_iff.
  destruct (last_non_newline ws) as [[c' nl']|] eqn:E.
  - intros [= <- <-]. by eapply IH.
  - destruct (Ascii.eqb x newline) eqn:Hnl; [done|]. by intros [= <- <-].
Qed.

Lemma space_is_no_slash c : is_space c = true → negb (Ascii.eqb c "/") = true.
Proof. destruct c as [[] [] [] [] [] [] [] []]; vm_compute; congruence. Qed.

Lemma match_comment_line s comment :
  match_comment s = Some comment → all_chars not_newline comment = true.
Proof.
  unfold match_comment. destruct (strip_prefix "//" (lstrip s)) as [rest|]; [|done].
  intros [= <-]. destruct (span not_newline (lstrip rest)) as [a b] eqn:E.
  by apply span_spec in E as (_ & Ha & _).
Qed.

Lemma match_case_at_shape s m :
  match_case_at s = Some m →
  cm_name m ≠ "" ∧ all_chars is_word (cm_name m) = true
  ∧ cm_value m ≠ "" ∧ all_chars not_slash_newline (cm_value m) = true
  ∧ ∀ comment, cm_comment m = Some comment → all_chars not_newline comment = true.
Proof.
  unfold match_case_at. destruct (strip_prefix "case" s) as [r1|]; [|done].
  destruct (span is_space r1) as [ws1 r2]. destruct (String.eqb ws1 ""); [done|].
  destruct (span is_word r2) as [name r3] eqn:Hname.
  destruct (String.eqb_spec name "") as [|Hne]; [done|].
  apply span_spec in Hname as (_ & Hword & _).
  destruct (snd (span is_space r3)) as [|x r5]; [done|].
  destruct (Ascii.eqb x "=") eqn:Heq.
  2:{ intros H. exfalso. revert H Heq. clear.
      destruct x as [[] [] [] [] [] [] [] []]; done. }
  apply Ascii.eqb_eq in Heq as ->.
  destruct (span is_space r5) as [ws2 r6] eqn:Hws2.
  apply span_spec in Hws2 as (_ & Hspace & _).
  destruct (span not_slash_newline r6) as [value r7] eqn:Hvalue.
  apply span_spec in Hvalue as (_ & Hval & _).
  destruct (String.eqb_spec value "") as [->|Hnv].
  - destruct (last_non_newline ws2) as [[c newlines]|] eqn:Hlast; [|done].
    intros [= <-]. simpl.
    destruct (last_non_newline_spec _ _ _ Hspace Hlast) as [Hc Hnl].
    repeat split; try done.
    + unfold not_slash_newline. by rewrite (space_is_no_slash c Hc), Hnl.
    + intros comment. apply match_comment_line.
  - intros [= <-]. simpl. repeat split; try done.
    intros comment. apply match_comment_line.
Qed.

(** X7: when the case pattern matches on a line, the name it captures is
    an identifier (one word character or more), the value text is not
    empty and holds no slash and no newline (it stops at the first
    slash), and a captured comment holds no newline. *)
Theorem matched_case_shape (line : string) (case_match : CaseMatch) :
  search_case line = Some case_match →
  cm_name case_match ≠ "" ∧ all_chars is_word (cm_name case_match) = true
  ∧ cm_value case_match ≠ ""
  ∧ all_chars not_slash_newline (cm_value case_match) = true
  ∧ ∀ comment, cm_comment case_match = Some comment →
      all_chars not_newline comment = true.
Proof.
  induction line as [|c line IH]; simpl.
  - done.
  - destruct (match_case_at (String c line)) eqn:E; [|done].
    intros [= <-]. by apply match_case_at_shape in E.
Qed.

Lemma matched_case_shape_witness :
  ∃ case_match, search_case "    case ratio = 3/4 // three quarters" = Some case_match
    ∧ cm_value case_match = "3"
    ∧ all_chars not_slash_newline (cm_value case_match) = true.
Proof.
  exists {| cm_name := "ratio"; cm_value := "3"; cm_comment := None |}.
  assert (search_case "    case ratio = 3/4 // three quarters"
          = Some {| cm_name := "ratio"; cm_value := "3"; cm_comment := None |}) as H
    by reflexivity.
  split; [exact H|]. split; [reflexivity|].
  exact (proj1 (proj2 (proj2 (proj2 (matched_case_shape _ _ H))))).
Defined.

(** ** The fallback that works on lines *)

Lemma append_nil_r (s : string) : s +:+ "" = s.
Proof. induction s as [|c s IH]; [done|]. by rewrite append_cons, IH. Qed.

Lemma join_with_cons sep p q ps :
  join_with sep (p :: q :: ps) = p +:+ sep +:+ join_with sep (q :: ps).
Proof. reflexivity. Qed.

(** Splitting at a character and joining with it gives the text back. *)
Lemma join_split ch s : join_with (String ch "") (split_on ch s) = s.
Proof.
  induction s as [|c s IH]; [done|]. simpl.
  destruct (split_on_nonempty ch s) as (p & ps & Hp). rewrite Hp in *.
  destruct (Ascii.eqb_spec c ch) as [->|Hne].
  - rewrite join_with_cons, IH. reflexivity.
  - destruct ps as [|q ps].
    + simpl in *. by rewrite IH.
    + rewrite join_with_cons in *. by rewrite append_cons, IH.
Qed.

Lemma join_with_app sep l1 l2 :
  l1 ≠ [] → l2 ≠ [] →
  join_with sep (l1 ++ l2)%list = join_with sep l1 +:+ sep +:+ join_with sep l2.
Proof.
  intros H1 H2. induction l1 as [|p l1 IH]; [done|].
  destruct l2 as [|q l2]; [done|].
  destruct l1 as [|p' l1].
  - reflexivity.
  - specialize (IH ltac:(done)). cbn [app] in *.
    rewrite !join_with_cons in *. rewrite IH. by rewrite !append_assoc_string.
Qed.

Lemma startswith_app h x b : startswith h x = true → startswith h (x +:+ b) = true.
Proof.
  revert x. induction h as [|a h IH]; intros x; [done|].
  destruct x as [|c x]; [done|]. rewrite append_cons. simpl.
  intros [-> Hx]%andb_true_iff. by rewrite (IH _ Hx).
Qed.

Lemma contains_app_r h x b : contains h x = true → contains h (x +:+ b) = true.
Proof.
  induction x as [|c x IH].
  - simpl. rewrite orb_false_r. intros H. destruct h; [|done]. by destruct b.
  - rewrite append_cons. cbn [contains]. intros [H|H]%orb_true_iff.
    + apply (startswith_app _ _ b) in H. rewrite append_cons in H. by rewrite H.
    + rewrite (IH H). apply orb_true_r.
Qed.

Lemma contains_app_l h a x : contains h x = true → contains h (a +:+ x) = true.
Proof.
  intros H. induction a as [|c a IH]; [done|].
  rewrite append_cons. cbn [contains]. rewrite IH. apply orb_true_r.
Qed.

Lemma contains_middle h a x b : contains h x = true → contains h (a +:+ x +:+ b) = true.
Proof. intros H. by apply contains_app_l, contains_app_r. Qed.

Lemma split_on_head_prefix ch s p ps : split_on ch s = p :: ps → ∃ b, s = p +:+ b.
Proof.
  revert p ps. induction s as [|c s IH]; intros p ps; simpl.
  - intros [= <- <-]. by exists "".
  - destruct (Ascii.eqb c ch).
    + intros [= <- <-]. by exists (String c s).
    + destruct (split_on_nonempty ch s) as (q & qs & Hq). rewrite Hq.
      intros [= <- <-]. destruct (IH q qs Hq) as [b ->]. by exists b.
Qed.

Lemma split_on_elem_middle ch s line :
  In line (split_on ch s) → ∃ a b, s = a +:+ line +:+ b.
Proof.
  revert line. induction s as [|c s IH]; intros line; simpl.
  - intros [<-|[]]. by exists "", "".
  - destruct (Ascii.eqb c ch).
    + intros [<-|Hin]; [by exists "", (String c s)|].
      destruct (IH line Hin) as (a & b & ->). by exists (String c a), b.
    + destruct (split_on_nonempty ch s) as (q & qs & Hq). rewrite Hq in *.
      intros [<-|Hin].
      * destruct (split_on_head_prefix _ _ _ _ Hq) as [b ->]. by exists "", b.
      * destruct (IH line (or_intror Hin)) as (a & b & ->). by exists (String c a), b.
Qed.

Lemma join_with_elem_middle sep l line :
  In line l → ∃ a b, join_with sep l = a +:+ line +:+ b.
Proof.
  induction l as [|p l IH]; [done|]. intros [<-|Hin].
  - destruct l as [|q l].
    + exists "", "". simpl. by rewrite append_nil_r.
    + exists "", (sep +:+ join_with sep (q :: l)). by rewrite join_with_cons.
  - destruct (IH Hin) as (a & b & Hjoin). destruct l as [|q l]; [done|].
    rewrite join_with_cons, Hjoin. exists (p +:+ sep +:+ a), b.
    by rewrite !append_assoc_string.
Qed.

Lemma find_enum_lines_none header lines i brace_count :
  (∀ line, In line lines → contains header line = false) →
  find_enum_lines header lines i None brace_count = (None, None).
Proof.
  revert i. induction lines as [|line lines IH]; intros i Hno; [done|].
  simpl. rewrite (Hno line) by by left. apply IH. intros l Hl. apply Hno. by right.
Qed.

Lemma find_enum_lines_found header lines i start_line brace_count a k :
  find_enum_lines header lines i start_line brace_count = (Some a, Some k) →
  (i ≤ k < i + length lines)%nat
  ∧ (start_line = Some a
     ∨ ∃ line, lines !! (a - i)%nat = Some line ∧ contains header line = true
               ∧ (i ≤ a < k)%nat).
Proof.
  revert i start_line brace_count.
  induction lines as [|line lines IH]; intros i start_line brace_count; [done|].
  cbn [find_enum_lines]. destruct (contains header line) eqn:Hline.
  - intros H. apply IH in H as [Hk Hstart]. split; [simpl; lia|]. right.
    destruct Hstart as [[= <-]|(l & Hl & Hc & Ha)].
    + exists line. rewrite Nat.sub_diag. split; [done|]. split; [done|lia].
    + exists l. split; [|split; [done|lia]].
      replace (a - i)%nat with (S (a - S i)) by lia. done.
  - destruct start_line as [s0|].
    + destruct (_ <=? 0).
      * intros [= <- <-]. split; [simpl; lia|by left].
      * intros H. apply IH in H as [Hk Hstart]. split; [simpl; lia|].
        destruct Hstart as [?|(l & Hl & Hc & Ha)]; [by left|]. right.
        exists l. split; [|split; [done|lia]].
        replace (a - i)%nat with (S (a - S i)) by lia. done.
    + intros H. apply IH in H as [Hk Hstart]. split; [simpl; lia|].
      destruct Hstart as [?|(l & Hl & Hc & Ha)]; [done|]. right.
      exists l. split; [|split; [done|lia]].
      replace (a - i)%nat with (S (a - S i)) by lia. done.
Qed.

(** What the fallback returns. *)
Lemma parse_enum_by_lines_ok (content : string) (enum_name : TargetEnum)
    (new_cases_code out : string) :
  _parse_enum_by_lines content enum_name new_cases_code = Ok out →
  ∃ before after,
    content = before +:+ String newline after
    ∧ out = before +:+ String newline (new_cases_code +:+ String newline after)
    ∧ contains (enum_header (target_name enum_name)) before = true.
Proof.
  unfold _parse_enum_by_lines.
  destruct (find_enum_lines _ _ _ _ _) as [[a|] [k|]] eqn:Hfind; try done.
  intros [= <-].
  apply find_enum_lines_found in Hfind as [Hk [?|(line & Hline & Hc & Ha)]]; [done|].
  set (lines := split_on newline content) in *.
  assert (take k lines ≠ []) as Hbefore.
  { intros E. apply (f_equal length) in E. rewrite length_take in E. simpl in E. lia. }
  assert (drop k lines ≠ []) as Hafter.
  { intros E. apply (f_equal length) in E. rewrite length_drop in E. simpl in E. lia. }
  exists (join_with (String newline "") (take k lines)),
         (join_with (String newline "") (drop k lines)).
  split; [|split].
  + rewrite <- (join_split newline content) at 1. fold lines.
    rewrite <- (take_drop k lines) at 1. by rewrite join_with_app.
  + rewrite (join_with_app _ (take k lines) (new_cases_code :: drop k lines)) by done.
    destruct (drop k lines) as [|q l]; [done|]. by rewrite join_with_cons.
  + assert (In line (take k lines)) as Hin.
    { apply list_elem_of_In, list_elem_of_lookup. exists (a - 0)%nat.
      rewrite lookup_take_lt by lia. done. }
    destruct (join_with_elem_middle (String newline "") _ _ Hin) as (x & y & ->).
    by apply contains_middle.
Qed.

(** X8: the fallback changes nothing of the text it is given: when it
    succeeds, the result is the text with the new code put in as lines of
    its own at a line break that comes after a line with the head of the
    enum; and when the head of the enum is nowhere in the text, it raises
    [RuntimeError]. *)
Theorem fallback_inserts_whole_lines (content : string) (enum_name : TargetEnum)
    (new_cases_code : string) :
  (∀ out, _parse_enum_by_lines content enum_name new_cases_code = Ok out →
     ∃ before after,
       content = before +:+ String newline after
       ∧ out = before +:+ String newline (new_cases_code +:+ String newline after)
       ∧ contains (enum_header (target_name enum_name)) before = true)
  ∧ (contains (enum_header (target_name enum_name)) content = false →
     _parse_enum_by_lines content enum_name new_cases_code = Raise RuntimeError).
Proof.
  split; [intros out; apply parse_enum_by_lines_ok|].
  intros Hno. unfold _parse_enum_by_lines. rewrite find_enum_lines_none; [done|].
  intros line Hin. destruct (contains _ line) eqn:E; [|done].
  destruct (split_on_elem_middle _ _ _ Hin) as (x & y & Hcontent).
  rewrite Hcontent in Hno. by rewrite contains_middle in Hno.
Qed.

Lemma fallback_inserts_whole_lines_witness :
  _parse_enum_by_lines "struct Frame {}" PushCode "    case advert = 0x80"
  = Raise RuntimeError.
Proof.
  apply (proj2 (fallback_inserts_whole_lines "struct Frame {}" PushCode
                  "    case advert = 0x80")).
  reflexivity.
Defined.

(** ** Inserting the new cases *)

(** X9: [insert_cases_into_swift_file] never regenerates a block.  When
    the block pattern finds the block it raises [IndexError]; otherwise
    it is the fallback; so a result it returns is the text it was given
    with the new code put in as lines of its own, and neither the cases
    parsed from the file nor the substitution of the block play a part. *)
Theorem insert_never_rewrites_a_block
    (sub_enum_block : TargetEnum → string → string → result string)
    (swift_enums : TargetDict SwiftEnumCase) (content : string) (target_enum : TargetEnum)
    (new_cases_code : string) :
  let inserted := insert_cases_into_swift_file sub_enum_block swift_enums content
                    target_enum new_cases_code in
  (inserted = Raise IndexError ∧ is_Some (search_enum_block target_enum content)
   ∨ inserted = _parse_enum_by_lines content target_enum new_cases_code
     ∧ search_enum_block target_enum content = None)
  ∧ ∀ out, inserted = Ok out →
      ∃ before after,
        content = before +:+ String newline after
        ∧ out = before +:+ String newline (new_cases_code +:+ String newline after).
Proof.
  intros inserted. subst inserted. unfold insert_cases_into_swift_file.
  destruct (search_enum_block target_enum content) as [m|] eqn:Hsearch; simpl.
  - split; [left; by split|]. done.
  - split; [by right|]. intros out Hout.
    destruct (parse_enum_by_lines_ok content target_enum new_cases_code out Hout)
      as (before & after & H1 & H2 & _).
    by exists before, after.
Qed.

Lemma insert_never_rewrites_a_block_witness :
  let content := "public enum PushCode: UInt8, Sendable, Codable {" +:+ String newline ""
                 +:+ "    case advert = 0x80" +:+ String newline "" +:+ "}" in
  ∃ out before after,
    insert_cases_into_swift_file (fun _ _ text => Ok text) empty_dict content PushCode
      "    case pathUpdated = 0x81" = Ok out
    ∧ content = before +:+ String newline after
    ∧ out = before +:+ String newline ("    case pathUpdated = 0x81" +:+ String newline after).
Proof.
  intros content. eexists.
  assert (insert_cases_into_swift_file (fun _ _ text => Ok text) empty_dict content PushCode
            "    case pathUpdated = 0x81"
          = Ok ("public enum PushCode: UInt8, Sendable, Codable {" +:+ String newline ""
                +:+ "    case advert = 0x80" +:+ String newline ""
                +:+ "    case pathUpdated = 0x81" +:+ String newline "" +:+ "}")) as H
    by reflexivity.
  destruct (proj2 (insert_never_rewrites_a_block (fun _ _ text => Ok text) empty_dict content
                     PushCode "    case pathUpdated = 0x81") _ H) as (before & after & H1 & H2).
  exists before, after. by split.
Defined.

(** ** Applying the changes *)

Lemma input_target_file prompt w : w_target_file (input prompt w).2 = w_target_file w.
Proof. unfold input. by destruct (w_stdin w). Qed.

Lemma get_enum_approval_target_file analysis w :
  w_target_file (_get_enum_approval analysis w).2 = w_target_file w.
Proof.
  unfold _get_enum_approval. destruct (is_nil _); [done|].
  pose proof (input_target_file "Apply changes? (y/n/skip): "
                (print (target_name (ca_target_enum analysis) +:+ " changes:") w)) as H.
  destruct (input _ _) as [[response|e] w']; exact H.
Qed.

(** The loop of [_apply_changes] works on the text in memory. *)
Lemma apply_analyses_target_file sub_enum_block version_tag swift_enums analyses content w :
  w_target_file (apply_analyses sub_enum_block version_tag swift_enums analyses content w).2
  = w_target_file w.
Proof.
  revert content w. induction analyses as [|analysis rest IH]; intros content w; [done|].
  cbn [apply_analyses]. destruct (is_nil _); [apply IH|].
  pose proof (get_enum_approval_target_file analysis w) as H.
  destruct (_get_enum_approval analysis w) as [[[|]|e] w']; cbn [snd] in H.
  - destruct (String.eqb _ ""); [by rewrite IH|].
    destruct (insert_cases_into_swift_file _ _ _ _ _); [|done].
    by rewrite IH.
  - by rewrite IH.
  - done.
Qed.

Lemma apply_changes_false sub_enum_block swiftc_parse swiftformat version_tag swift_enums
    analyses skip_backup w w' :
  _apply_changes sub_enum_block swiftc_parse swiftformat version_tag swift_enums analyses
    skip_backup w = Some (false, w') →
  w_target_file w' = w_target_file w.
Proof.
  unfold _apply_changes. destruct skip_backup.
  - cbn [print w_target_file restore_backup].
    destruct (w_target_file w) as [content|] eqn:Hfile; [|by intros [= <-]].
    pose proof (apply_analyses_target_file sub_enum_block version_tag swift_enums analyses
                  content (print "Skipping backup creation" w)) as H.
    destruct (apply_analyses _ _ _ _ _ _) as [[content'|e] w1]; cbn [snd print w_target_file] in H.
    + destruct (validate_swift_syntax _ _ _) as [[|] result]; [done|].
      intros [= <-]. cbn [restore_backup print w_target_file]. by rewrite H.
    + intros [= <-]. cbn [restore_backup print w_target_file]. by rewrite H.
  - destruct (w_target_file w) as [content|] eqn:Hfile; [|done].
    rewrite Hfile.
    destruct (apply_analyses _ _ _ _ _ _) as [[content'|e] w1].
    + destruct (validate_swift_syntax _ _ _) as [[|] result]; [done|].
      by intros [= <-].
    + by intros [= <-].
Qed.

(** X10: when [_apply_changes] returns [False], the target file holds
    what it held before the call: the loop works on the text in memory,
    the file is written only after the validation, and what the failure
    branches restore is the copy of the file made at the start.  And the
    call lets an exception out exactly when it is to make a backup of a
    file that is not there: every later failure is caught. *)
Theorem failed_apply_leaves_file
    (sub_enum_block : TargetEnum → string → string → result string)
    (swiftc_parse : string → result (bool * string)) (swiftformat : string → option string)
    (version_tag : string) (swift_enums : TargetDict SwiftEnumCase)
    (analyses : list ChangeAnalysis) (skip_backup : bool) (w w' : World) :
  (_apply_changes sub_enum_block swiftc_parse swiftformat version_tag swift_enums analyses
     skip_backup w = Some (false, w') →
   w_target_file w' = w_target_file w)
  ∧ (_apply_changes sub_enum_block swiftc_parse swiftformat version_tag swift_enums analyses
       skip_backup w = None
     ↔ skip_backup = false ∧ w_target_file w = None).
Proof.
  split; [apply apply_changes_false|].
  unfold _apply_changes. destruct skip_backup.
  - cbn beta iota. split; [|by intros [? _]].
    destruct (w_target_file _); [|done].
    destruct (apply_analyses _ _ _ _ _ _) as [[merged|e] w1]; [|done].
    by destruct (validate_swift_syntax _ _ _) as [[|] result].
  - destruct (w_target_file w) as [content|] eqn:Hfile; [|done].
    cbn beta iota. rewrite Hfile. split; [|by intros [_ ?]].
    destruct (apply_analyses _ _ _ _ _ _) as [[merged|e] w1]; [|done].
    by destruct (validate_swift_syntax _ _ _) as [[|] result].
Qed.

Lemma failed_apply_leaves_file_witness :
  let w := {| w_target_file := Some "enum E {}"; w_stdin := []; w_printed := [] |} in
  ∃ w', _apply_changes (fun _ _ text => Ok text) (fun _ => Ok (false, "error: expected"))
          (fun _ => None) "2.2.1" empty_dict [] false w = Some (false, w')
        ∧ w_target_file w' = Some "enum E {}".
Proof.
  intros w. eexists. split; [reflexivity|].
  exact (proj1 (failed_apply_leaves_file (fun _ _ text => Ok text)
                  (fun _ => Ok (false, "error: expected")) (fun _ => None) "2.2.1" empty_dict []
                  false w _) eq_refl).
Defined.

(** What a call that returns [True] has done. *)
Lemma apply_changes_true sub_enum_block swiftc_parse swiftformat version_tag swift_enums
    analyses skip_backup w w' :
  _apply_changes sub_enum_block swiftc_parse swiftformat version_tag swift_enums analyses
    skip_backup w = Some (true, w') →
  ∃ content merged result,
    w_target_file w = Some content
    ∧ (apply_analyses sub_enum_block version_tag swift_enums analyses content
         (if skip_backup then print "Skipping backup creation" w else w)).1 = Ok merged
    ∧ validate_swift_syntax swiftc_parse swiftformat merged = (true, result)
    ∧ w_target_file w' = Some result.
Proof.
  unfold _apply_changes. destruct skip_backup.
  - cbn beta iota. rewrite print_target_file.
    destruct (w_target_file w) as [content|]; [|done].
    destruct (apply_analyses _ _ _ _ _ _) as [[merged|e] w1] eqn:Happly; [|done].
    destruct (validate_swift_syntax _ _ _) as [[|] result] eqn:Hvalid; [|done].
    intros [= <-]. exists content, merged, result. by rewrite Happly.
  - destruct (w_target_file w) as [content|] eqn:Hfile; [|done].
    cbn beta iota. rewrite Hfile.
    destruct (apply_analyses _ _ _ _ _ _) as [[merged|e] w1] eqn:Happly; [|done].
    destruct (validate_swift_syntax _ _ _) as [[|] result] eqn:Hvalid; [|done].
    intros [= <-]. exists content, merged, result. by rewrite Happly.
Qed.

(** X11: what a successful [_apply_changes] writes is the second
    component of [validate_swift_syntax]: the text that SwiftFormat made
    of the merged text, when SwiftFormat ran and the compiler accepts
    its output; otherwise what the compiler wrote to standard error for
    the merged text, by itself when SwiftFormat is not available or
    fails, and followed by the report on SwiftFormat when the compiler
    rejects the formatted text.  In the last two cases the merged text
    itself is not what is written. *)
Theorem successful_apply_writes_validator_text
    (sub_enum_block : TargetEnum → string → string → result string)
    (swiftc_parse : string → result (bool * string)) (swiftformat : string → option string)
    (version_tag : string) (swift_enums : TargetDict SwiftEnumCase)
    (analyses : list ChangeAnalysis) (skip_backup : bool) (w w' : World) :
  _apply_changes sub_enum_block swiftc_parse swiftformat version_tag swift_enums analyses
    skip_backup w = Some (true, w') →
  ∃ content merged error_output,
    w_target_file w = Some content
    ∧ (apply_analyses sub_enum_block version_tag swift_enums analyses content
         (if skip_backup then print "Skipping backup creation" w else w)).1 = Ok merged
    ∧ swiftc_parse merged = Ok (true, error_output)
    ∧ ((∃ formatted ignored,
          swiftformat merged = Some formatted
          ∧ swiftc_parse formatted = Ok (true, ignored)
          ∧ w_target_file w' = Some formatted)
       ∨ (swiftformat merged = None ∧ w_target_file w' = Some error_output)
       ∨ (∃ formatted format_errors,
            swiftformat merged = Some formatted
            ∧ swiftc_parse formatted = Ok (false, format_errors)
            ∧ w_target_file w'
              = Some (error_output +:+ String newline "SwiftFormat introduced syntax errors: "
                        +:+ format_errors))).
Proof.
  intros Happly.
  destruct (apply_changes_true _ _ _ _ _ _ _ _ _ Happly)
    as (content & merged & result & Hfile & Hmerged & Hvalid & Hwritten).
  revert Hvalid. unfold validate_swift_syntax.
  destruct (swiftc_parse merged) as [[[|] error_output]|e] eqn:Hparse; [|done|done].
  intros Hvalid. exists content, merged, error_output.
  split; [done|]. split; [done|]. split; [done|].
  destruct (swiftformat merged) as [formatted|] eqn:Hformat.
  - destruct (swiftc_parse formatted) as [[[|] format_errors]|e] eqn:Hcheck; [| |done].
    + left. exists formatted, format_errors. by injection Hvalid as <-.
    + right; right. exists formatted, format_errors. by injection Hvalid as <-.
  - right; left. by injection Hvalid as <-.
Qed.

Lemma successful_apply_writes_validator_text_witness :
  let w := {| w_target_file := Some "enum E {}"; w_stdin := []; w_printed := [] |} in
  ∃ w', _apply_changes (fun _ _ text => Ok text) (fun _ => Ok (true, "warning: unused"))
          (fun _ => None) "2.2.1" empty_dict [] false w = Some (true, w')
        ∧ w_target_file w' = Some "warning: unused".
Proof.
  intros w. eexists. split; [reflexivity|].
  destruct (successful_apply_writes_validator_text (fun _ _ text => Ok text)
              (fun _ => Ok (true, "warning: unused")) (fun _ => None) "2.2.1" empty_dict []
              false w _ eq_refl)
    as (content & merged & error_output & _ & _ & Hparse & [H|[[_ H]|H]]).
  - by destruct H as (formatted & ignored & H & _).
  - injection Hparse as <-. exact H.
  - by destruct H as (formatted & format_errors & H & _).
Defined.

Lemma print_stdin message w : w_stdin (print message w) = w_stdin w.
Proof. done. Qed.

Lemma generate_swift_cases_nonempty version_tag cases :
  cases ≠ [] → generate_swift_cases version_tag cases ≠ "".
Proof.
  intros Hcases. unfold generate_swift_cases.
  destruct (sorted_by ec_value cases) as [|case sorted] eqn:Hsorted.
  - pose proof (sorted_by_perm ec_value cases) as Hperm. rewrite Hsorted in Hperm.
    by apply Permutation_nil_r in Hperm.
  - cbn [map]. destruct (map _ sorted); cbn [join_with]; rewrite !append_cons; discriminate.
Qed.

(** An approved analysis whose block the pattern finds ends the loop. *)
Lemma apply_analyses_approved sub_enum_block version_tag swift_enums skipped analysis rest
    content w response stdin :
  Forall (fun a => ca_additions a = []) skipped →
  ca_additions analysis ≠ [] →
  w_stdin w = response :: stdin →
  is_yes response = true →
  is_Some (search_enum_block (ca_target_enum analysis) content) →
  ∃ w', apply_analyses sub_enum_block version_tag swift_enums
          (skipped ++ analysis :: rest)%list content w = (Raise IndexError, w')
        ∧ w_stdin w' = stdin.
Proof.
  intros Hskipped Hadditions Hstdin Hyes Hfound.
  induction Hskipped as [|a skipped Ha _ IH]; cbn [app apply_analyses].
  - destruct (ca_additions analysis) as [|c cs] eqn:Hc; [done|]. cbn [is_nil].
    unfold _get_enum_approval. rewrite Hc. cbn [is_nil].
    unfold input. rewrite print_stdin, Hstdin, Hyes.
    rewrite (proj2 (String.eqb_neq _ _)) by by apply generate_swift_cases_nonempty.
    destruct Hfound as [enum_match Hmatch].
    rewrite (insert_cases_second_group _ _ _ _ _ enum_match Hmatch).
    eexists. by split.
  - rewrite Ha. exact IH.
Qed.

(** On a text in which the pattern finds every block the loop inserts
    nothing: its result is an exception or the text itself. *)
Lemma apply_analyses_regular sub_enum_block version_tag swift_enums analyses content w merged :
  (∀ enum_name, is_Some (search_enum_block enum_name content)) →
  (apply_analyses sub_enum_block version_tag swift_enums analyses content w).1 = Ok merged →
  merged = content.
Proof.
  intros Hfound. revert w.
  induction analyses as [|analysis rest IH]; intros w; cbn [apply_analyses].
  - by intros [= <-].
  - destruct (is_nil _); [apply IH|].
    destruct (_get_enum_approval analysis w) as [[[|]|e] w']; [|apply IH|done].
    destruct (String.eqb _ ""); [apply IH|].
    destruct (Hfound (ca_target_enum analysis)) as [enum_match Hmatch].
    by rewrite (insert_cases_second_group _ _ _ _ _ enum_match Hmatch).
Qed.

(** Without a line to read, the loop ends at the first analysis that has
    additions. *)
Lemma apply_analyses_no_input sub_enum_block version_tag swift_enums analyses content w :
  sum_lengths ca_additions analyses ≠ 0 →
  w_stdin w = [] →
  ∃ w', apply_analyses sub_enum_block version_tag swift_enums analyses content w
        = (Raise EOFError, w').
Proof.
  intros Hsum Hstdin.
  induction analyses as [|analysis rest IH]; [done|].
  cbn [apply_analyses]. cbn [sum_lengths fold_right] in Hsum.
  destruct (ca_additions analysis) as [|c cs] eqn:Hc; cbn [is_nil].
  - apply IH. by rewrite Z.add_0_l in Hsum.
  - unfold _get_enum_approval. rewrite Hc. cbn [is_nil].
    unfold input. rewrite print_stdin, Hstdin. by eexists.
Qed.

(** And it has printed its prompt by then. *)
Lemma apply_analyses_asks sub_enum_block version_tag swift_enums analyses content w :
  sum_lengths ca_additions analyses ≠ 0 →
  w_stdin w = [] →
  In "Apply changes? (y/n/skip): "
     (w_printed (apply_analyses sub_enum_block version_tag swift_enums analyses content w).2).
Proof.
  intros Hsum Hstdin.
  induction analyses as [|analysis rest IH]; [done|].
  cbn [apply_analyses]. cbn [sum_lengths fold_right] in Hsum.
  destruct (ca_additions analysis) as [|c cs] eqn:Hc; cbn [is_nil].
  - apply IH. by rewrite Z.add_0_l in Hsum.
  - unfold _get_enum_approval. rewrite Hc. cbn [is_nil].
    unfold input. rewrite print_stdin, Hstdin. cbn [snd print w_printed].
    rewrite in_app_iff. right. by left.
Qed.

Lemma foldl_print_target_file lines w :
  w_target_file (foldl (fun w line => print line w) w lines) = w_target_file w.
Proof. revert w. induction lines as [|line lines IH]; intros w; [done|]. cbn [foldl]. by rewrite IH. Qed.

Lemma foldl_print_stdin lines w :
  w_stdin (foldl (fun w line => print line w) w lines) = w_stdin w.
Proof. revert w. induction lines as [|line lines IH]; intros w; [done|]. cbn [foldl]. by rewrite IH. Qed.

Lemma show_change_summary_target_file summary_text analyses dry_run auto_approve w :
  w_target_file (_show_change_summary summary_text analyses dry_run auto_approve w).2
  = w_target_file w.
Proof.
  unfold _show_change_summary. destruct (_ && _); [done|].
  destruct auto_approve; [cbn [snd]; by rewrite print_target_file, foldl_print_target_file|].
  pose proof (input_target_file "Proceed with these changes? (y/n): "
                (foldl (fun w line => print line w) w (summary_text analyses dry_run))) as H.
  destruct (input _ _) as [[response|e] w']; cbn [snd] in *;
    by rewrite H, foldl_print_target_file.
Qed.

Lemma run_from_analyses_dry summary_text apply_and_stamp analyses auto_approve skip_backup
    max_additions w :
  w_target_file (run_from_analyses summary_text apply_and_stamp analyses true auto_approve
                   skip_backup max_additions w).2 = w_target_file w.
Proof.
  unfold run_from_analyses.
  assert (∀ w0,
    w_target_file
      (match _show_change_summary summary_text analyses true auto_approve w0 with
       | (Raise _, w') => (1, print "Error" w')
       | (Ok false, w') => (0, w')
       | (Ok true, w') => (0, print "Dry run complete - no changes made" w')
       end).2 = w_target_file w0) as Hcontinue.
  { intros w0.
    pose proof (show_change_summary_target_file summary_text analyses true auto_approve w0) as H.
    by destruct (_show_change_summary _ _ _ _ _) as [[[|]|e] w1]. }
  destruct (_ && _); [|apply Hcontinue].
  unfold input. cbn [print w_stdin].
  destruct (w_stdin w) as [|response stdin]; [done|].
  destruct (negb (is_yes response)); [done|].
  by rewrite Hcontinue.
Qed.

Lemma run_dry summary_text apply_and_stamp mapped_enums auto_approve skip_backup
    max_additions w :
  w_target_file (run summary_text apply_and_stamp mapped_enums true auto_approve skip_backup
                   max_additions w).2 = w_target_file w.
Proof.
  unfold run. destruct mapped_enums as [mapped|e]; [|done].
  destruct (_parse_existing_enums _); [|done].
  by rewrite run_from_analyses_dry.
Qed.

(** X12: an approval cannot be carried out when the pattern finds the
    block.  Let the first analysis with additions be for an enum whose
    block the pattern finds in the file, and let the line read at its
    prompt be a yes: then [_apply_changes] returns [False], the line is
    consumed, and the file holds what it held. *)
Theorem approved_additions_to_found_block_fail
    (sub_enum_block : TargetEnum → string → string → result string)
    (swiftc_parse : string → result (bool * string)) (swiftformat : string → option string)
    (version_tag : string) (swift_enums : TargetDict SwiftEnumCase)
    (skipped : list ChangeAnalysis) (analysis : ChangeAnalysis) (rest : list ChangeAnalysis)
    (skip_backup : bool) (w : World) (content response : string) (stdin : list string) :
  w_target_file w = Some content →
  Forall (fun a => ca_additions a = []) skipped →
  ca_additions analysis ≠ [] →
  w_stdin w = response :: stdin →
  is_yes response = true →
  is_Some (search_enum_block (ca_target_enum analysis) content) →
  ∃ w', _apply_changes sub_enum_block swiftc_parse swiftformat version_tag swift_enums
          (skipped ++ analysis :: rest)%list skip_backup w = Some (false, w')
        ∧ w_target_file w' = Some content
        ∧ w_stdin w' = stdin.
Proof.
  intros Hfile Hskipped Hadditions Hstdin Hyes Hfound.
  assert (∀ w0, w_target_file w0 = Some content → w_stdin w0 = response :: stdin →
            ∀ backup, backup = None ∨ backup = Some content →
            ∃ w',
              match w_target_file w0 with
              | None => Some (false, restore_backup backup (print "Error applying changes" w0))
              | Some content =>
                  match apply_analyses sub_enum_block version_tag swift_enums
                          (skipped ++ analysis :: rest)%list content w0 with
                  | (Raise _, w1) =>
                      Some (false, restore_backup backup (print "Error applying changes" w1))
                  | (Ok content', w1) =>
                      match validate_swift_syntax swiftc_parse swiftformat content' with
                      | (false, result) =>
                          Some (false,
                                restore_backup backup
                                  (print result
                                     (print "Generated Swift code has syntax errors:" w1)))
                      | (true, result) => Some (true, set_target_file (Some result) w1)
                      end
                  end
              end = Some (false, w')
              ∧ w_target_file w' = Some content ∧ w_stdin w' = stdin) as Hbody.
  { intros w0 Hfile0 Hstdin0 backup Hbackup. rewrite Hfile0.
    destruct (apply_analyses_approved sub_enum_block version_tag swift_enums skipped analysis
                rest content w0 response stdin Hskipped Hadditions Hstdin0 Hyes Hfound)
      as (w1 & Happly & Hstdin1).
    pose proof (apply_analyses_target_file sub_enum_block version_tag swift_enums
                  (skipped ++ analysis :: rest)%list content w0) as Hfile1.
    rewrite Happly in *. cbn [snd] in Hfile1.
    eexists. split; [reflexivity|].
    destruct Hbackup as [-> | ->]; cbn [restore_backup print set_target_file w_target_file w_stdin].
    - split; [by rewrite Hfile1|done].
    - by split. }
  unfold _apply_changes. destruct skip_backup.
  - apply Hbody; [done|done|by left].
  - rewrite Hfile. apply Hbody; [done|done|by right].
Qed.

Lemma approved_additions_to_found_block_fail_witness :
  let content := "public enum PushCode: UInt8, Sendable {" +:+ String newline ""
                 +:+ "    case advert = 0x80" +:+ String newline "" +:+ "}" in
  let case := {| ec_name := "pathUpdated"; ec_value := 129; ec_source_file := "packets.py";
                 ec_line_number := 7; ec_original_name := "PATH_UPDATED" |} in
  let analysis := {| ca_target_enum := PushCode; ca_additions := [case]; ca_updates := [];
                     ca_duplicates := []; ca_swift_extras := [] |} in
  let w := {| w_target_file := Some content; w_stdin := ["y"]; w_printed := [] |} in
  ∃ w', _apply_changes (fun _ _ text => Ok text) (fun _ => Ok (true, "")) (fun _ => None)
          "2.2.1" empty_dict ([] ++ [analysis])%list false w = Some (false, w')
        ∧ w_target_file w' = Some content
        ∧ w_stdin w' = [].
Proof.
  intros content case analysis w.
  apply (approved_additions_to_found_block_fail (fun _ _ text => Ok text)
           (fun _ => Ok (true, "")) (fun _ => None) "2.2.1" empty_dict [] analysis [] false w
           content "y" []).
  - reflexivity.
  - constructor.
  - discriminate.
  - reflexivity.
  - reflexivity.
  - vm_compute. by eexists.
Defined.

(** X13: no case is ever added to a file in which the pattern finds the
    three blocks.  After [_apply_changes] such a file holds what it held,
    or, when the call returns [True], the second component of
    [validate_swift_syntax] for the unchanged text. *)
Theorem regular_file_gets_no_case
    (sub_enum_block : TargetEnum → string → string → result string)
    (swiftc_parse : string → result (bool * string)) (swiftformat : string → option string)
    (version_tag : string) (swift_enums : TargetDict SwiftEnumCase)
    (analyses : list ChangeAnalysis) (skip_backup : bool) (w w' : World) (content : string)
    (applied : bool) :
  w_target_file w = Some content →
  (∀ enum_name, is_Some (search_enum_block enum_name content)) →
  _apply_changes sub_enum_block swiftc_parse swiftformat version_tag swift_enums analyses
    skip_backup w = Some (applied, w') →
  if applied
  then ∃ result, validate_swift_syntax swiftc_parse swiftformat content = (true, result)
                 ∧ w_target_file w' = Some result
  else w_target_file w' = Some content.
Proof.
  intros Hfile Hfound Happly. destruct applied.
  - destruct (apply_changes_true sub_enum_block swiftc_parse swiftformat
                version_tag swift_enums analyses skip_backup w w' Happly)
      as (content0 & merged & result & Hfile0 & Hmerged & Hvalid & Hwritten).
    rewrite Hfile in Hfile0. injection Hfile0 as <-.
    apply apply_analyses_regular in Hmerged; [|done]. subst merged.
    by exists result.
  - rewrite <- Hfile. by eapply apply_changes_false.
Qed.

Lemma regular_file_gets_no_case_witness :
  let content := "public enum CommandCode: UInt8, Sendable {" +:+ String newline "}"
                 +:+ String newline "public enum ResponseCode: UInt8, Sendable {"
                 +:+ String newline "}"
                 +:+ String newline "public enum PushCode: UInt8, Sendable {"
                 +:+ String newline "}" in
  let case := {| ec_name := "pathUpdated"; ec_value := 129; ec_source_file := "packets.py";
                 ec_line_number := 7; ec_original_name := "PATH_UPDATED" |} in
  let analysis := {| ca_target_enum := PushCode; ca_additions := [case]; ca_updates := [];
                     ca_duplicates := []; ca_swift_extras := [] |} in
  let w := {| w_target_file := Some content; w_stdin := ["yes"]; w_printed := [] |} in
  ∃ w', _apply_changes (fun _ _ text => Ok text) (fun _ => Ok (true, "")) (fun _ => None)
          "2.2.1" empty_dict [analysis] true w = Some (false, w')
        ∧ w_target_file w' = Some content.
Proof.
  intros content case analysis w. eexists. split; [reflexivity|].
  refine (regular_file_gets_no_case (fun _ _ text => Ok text) (fun _ => Ok (true, ""))
            (fun _ => None) "2.2.1" empty_dict [analysis] true w _ content false
            eq_refl _ eq_refl).
  intros []; vm_compute; by eexists.
Defined.

(** ** Whole runs *)

Lemma apply_changes_no_input sub_enum_block swiftc_parse swiftformat version_tag swift_enums
    analyses skip_backup w content :
  w_target_file w = Some content →
  sum_lengths ca_additions analyses ≠ 0 →
  w_stdin w = [] →
  ∃ w', _apply_changes sub_enum_block swiftc_parse swiftformat version_tag swift_enums analyses
          skip_backup w = Some (false, w').
Proof.
  intros Hfile Hsum Hstdin. unfold _apply_changes. destruct skip_backup.
  - cbn beta iota. rewrite print_target_file, Hfile.
    destruct (apply_analyses_no_input sub_enum_block version_tag swift_enums analyses content
                (print "Skipping backup creation" w) Hsum Hstdin) as [w1 ->].
    by eexists.
  - rewrite Hfile. cbn beta iota. rewrite Hfile.
    destruct (apply_analyses_no_input sub_enum_block version_tag swift_enums analyses content
                w Hsum Hstdin) as [w1 ->].
    by eexists.
Qed.

(** X14: automatic approval answers the question of the summary only;
    [_apply_changes] still asks for each enum with additions.  So a run
    with [--apply --auto-approve] that has additions to make and nothing
    to read on standard input ends with exit code 1 and leaves the file
    as it was, whatever the limit and the tools are. *)
Theorem auto_approve_still_asks_per_enum
    (summary_text : list ChangeAnalysis → bool → list string)
    (sub_enum_block : TargetEnum → string → string → result string)
    (swiftc_parse : string → result (bool * string)) (swiftformat : string → option string)
    (version_tag today : string) (mapped : TargetDict EnumCase)
    (swift_enums : TargetDict SwiftEnumCase) (skip_backup : bool) (max_additions : Z)
    (w : World) :
  _parse_existing_enums (w_target_file w) = Ok swift_enums →
  sum_lengths ca_additions (analyze_changes swift_enums mapped) ≠ 0 →
  w_stdin w = [] →
  ∃ w', run summary_text
          (apply_and_stamp sub_enum_block swiftc_parse swiftformat version_tag today swift_enums)
          (Ok mapped) false true skip_backup max_additions w = (1, w')
        ∧ w_target_file w' = w_target_file w
        ∧ In "Apply changes? (y/n/skip): " (w_printed w').
Proof.
  intros Hparse Hsum Hstdin.
  unfold run. rewrite !print_target_file, Hparse.
  rewrite safety_limit_not_asked by by left.
  unfold _show_change_summary.
  rewrite (proj2 (Z.eqb_neq _ _) Hsum). cbn [andb].
  destruct (w_target_file w) as [content|] eqn:Hfile; [|done].
  set (w2 := print "Applying changes..." _).
  assert (w_target_file w2 = Some content) as Hfile2.
  { subst w2. by rewrite !print_target_file, foldl_print_target_file, !print_target_file. }
  assert (w_stdin w2 = []) as Hstdin2.
  { subst w2. by rewrite !print_stdin, foldl_print_stdin, !print_stdin. }
  unfold apply_and_stamp.
  destruct (apply_changes_no_input sub_enum_block swiftc_parse swiftformat version_tag
              swift_enums (analyze_changes swift_enums mapped) skip_backup w2 content
              Hfile2 Hsum Hstdin2) as [w' Happly].
  rewrite Happly. exists w'. split; [done|]. split.
  - rewrite <- Hfile2. by eapply apply_changes_false.
  - revert Happly. unfold _apply_changes.
    assert (∀ w0 backup, w_target_file w0 = Some content → w_stdin w0 = [] →
              match w_target_file w0 with
              | None => Some (false, restore_backup backup (print "Error applying changes" w0))
              | Some content =>
                  match apply_analyses sub_enum_block version_tag swift_enums
                          (analyze_changes swift_enums mapped) content w0 with
                  | (Raise _, w1) =>
                      Some (false, restore_backup backup (print "Error applying changes" w1))
                  | (Ok content', w1) =>
                      match validate_swift_syntax swiftc_parse swiftformat content' with
                      | (false, result) =>
                          Some (false,
                                restore_backup backup
                                  (print result
                                     (print "Generated Swift code has syntax errors:" w1)))
                      | (true, result) => Some (true, set_target_file (Some result) w1)
                      end
                  end
              end = Some (false, w') →
              In "Apply changes? (y/n/skip): " (w_printed w')) as Hbody.
    { intros w0 backup Hfile0 Hstdin0. rewrite Hfile0.
      pose proof (apply_analyses_asks sub_enum_block version_tag swift_enums
                    (analyze_changes swift_enums mapped) content w0 Hsum Hstdin0) as Hasked.
      revert Hasked.
      destruct (apply_analyses _ _ _ _ _ w0) as [[merged|e] w1]; cbn [snd]; intros Hasked.
      - destruct (validate_swift_syntax _ _ _) as [[|] result]; [done|].
        intros [= <-].
        destruct backup; cbn [restore_backup print set_target_file w_printed];
          repeat (apply in_or_app; left); exact Hasked.
      - intros [= <-].
        destruct backup; cbn [restore_backup print set_target_file w_printed];
          repeat (apply in_or_app; left); exact Hasked. }
    destruct skip_backup.
    + apply Hbody; [by rewrite print_target_file|by rewrite print_stdin].
    + rewrite Hfile2. apply Hbody; done.
Qed.

Lemma auto_approve_still_asks_per_enum_witness :
  let case := {| ec_name := "pathUpdated"; ec_value := 129; ec_source_file := "packets.py";
                 ec_line_number := 7; ec_original_name := "PATH_UPDATED" |} in
  let mapped : TargetDict EnumCase :=
    fun t => match t with PushCode => [case] | _ => [] end in
  let swift_enums : TargetDict SwiftEnumCase :=
    dict_extend PushCode [] (dict_extend ResponseCode [] (dict_extend CommandCode [] empty_dict)) in
  let w := {| w_target_file := Some ""; w_stdin := []; w_printed := [] |} in
  ∃ w', run (fun _ _ => [])
          (apply_and_stamp (fun _ _ text => Ok text) (fun _ => Ok (true, "")) (fun _ => None)
             "2.2.1" "2025-01-01" swift_enums)
          (Ok mapped) false true false default_max_additions w = (1, w')
        ∧ w_target_file w' = Some ""
        ∧ In "Apply changes? (y/n/skip): " (w_printed w').
Proof.
  intros case mapped swift_enums w.
  apply (auto_approve_still_asks_per_enum (fun _ _ => []) (fun _ _ text => Ok text)
           (fun _ => Ok (true, "")) (fun _ => None) "2.2.1" "2025-01-01" mapped swift_enums
           false default_max_additions w).
  - reflexivity.
  - vm_compute. discriminate.
  - reflexivity.
Defined.

(** X15: without [--apply] nothing is written.  [main] then either
    refuses the flags that need [--apply], with exit code 1 and before
    anything is read, or starts a dry run; and a dry run leaves the
    target file as it is, whatever is answered at its prompts and
    whatever the application of changes would do. *)
Theorem without_apply_nothing_is_written
    (summary_text : list ChangeAnalysis → bool → list string)
    (apply_and_stamp : list ChangeAnalysis → bool → World → Z * World)
    (mapped_enums : result (TargetDict EnumCase)) (args : Args) (w : World) :
  arg_apply args = false →
  let outcome := main (run summary_text apply_and_stamp mapped_enums) args w in
  w_target_file outcome.2 = w_target_file w
  ∧ (arg_auto_approve args = true ∨ arg_force args = true →
     outcome.1 = 1 ∧ w_stdin outcome.2 = w_stdin w).
Proof.
  intros Happly outcome. subst outcome. unfold main. rewrite Happly. cbn [negb].
  destruct (w_target_file w) as [content|] eqn:Hfile.
  - destruct (arg_auto_approve args), (arg_force args); cbn [andb fst snd].
    + split; [by rewrite print_target_file|done].
    + split; [by rewrite print_target_file|done].
    + split; [by rewrite print_target_file|done].
    + rewrite run_dry. split; [done|]. by intros [|].
  - by split.
Qed.

Lemma without_apply_nothing_is_written_witness :
  let case := {| ec_name := "pathUpdated"; ec_value := 129; ec_source_file := "packets.py";
                 ec_line_number := 7; ec_original_name := "PATH_UPDATED" |} in
  let mapped : TargetDict EnumCase :=
    fun t => match t with PushCode => [case] | _ => [] end in
  let args := {| arg_apply := false; arg_auto_approve := false; arg_force := false;
                 arg_max_additions := default_max_additions |} in
  let w := {| w_target_file := Some ""; w_stdin := ["y"]; w_printed := [] |} in
  w_target_file
    (main (run (fun _ _ => []) (fun _ _ w => (0, set_target_file (Some "changed") w))
             (Ok mapped)) args w).2 = Some "".
Proof.
  intros case mapped args w.
  exact (proj1 (without_apply_nothing_is_written (fun _ _ => [])
                  (fun _ _ w => (0, set_target_file (Some "changed") w)) (Ok mapped) args w
                  eq_refl)).
Defined.

(** X16: a dry run asks too.  With additions to report and automatic
    approval off, the run reads a line before it ends, at the safety
    limit or after the summary; with nothing to read it ends with exit
    code 1, also when it is a dry run. *)
Theorem run_without_input_fails
    (summary_text : list ChangeAnalysis → bool → list string)
    (apply_and_stamp : list ChangeAnalysis → bool → World → Z * World)
    (mapped : TargetDict EnumCase) (swift_enums : TargetDict SwiftEnumCase)
    (dry_run skip_backup : bool) (max_additions : Z) (w : World) :
  _parse_existing_enums (w_target_file w) = Ok swift_enums →
  sum_lengths ca_additions (analyze_changes swift_enums mapped) ≠ 0 →
  w_stdin w = [] →
  ∃ w', run summary_text apply_and_stamp (Ok mapped) dry_run false skip_backup
          max_additions w = (1, w')
        ∧ w_target_file w' = w_target_file w.
Proof.
  intros Hparse Hsum Hstdin.
  unfold run. rewrite !print_target_file, Hparse.
  unfold run_from_analyses.
  destruct (_ && _).
  - unfold input. cbn [print w_stdin]. rewrite Hstdin. by eexists.
  - unfold _show_change_summary.
    rewrite (proj2 (Z.eqb_neq _ _) Hsum). cbn [andb].
    unfold input. rewrite foldl_print_stdin. cbn [print w_stdin]. rewrite Hstdin.
    eexists. split; [reflexivity|].
    by rewrite !print_target_file, foldl_print_target_file.
Qed.

Lemma run_without_input_fails_witness :
  let case := {| ec_name := "pathUpdated"; ec_value := 129; ec_source_file := "packets.py";
                 ec_line_number := 7; ec_original_name := "PATH_UPDATED" |} in
  let mapped : TargetDict EnumCase :=
    fun t => match t with PushCode => [case] | _ => [] end in
  let swift_enums : TargetDict SwiftEnumCase :=
    dict_extend PushCode [] (dict_extend ResponseCode [] (dict_extend CommandCode [] empty_dict)) in
  let w := {| w_target_file := Some ""; w_stdin := []; w_printed := [] |} in
  ∃ w', run (fun _ _ => []) (fun _ _ w => (0, w)) (Ok mapped) true false false
          default_max_additions w = (1, w')
        ∧ w_target_file w' = Some "".
Proof.
  intros case mapped swift_enums w.
  apply (run_without_input_fails (fun _ _ => []) (fun _ _ w => (0, w)) mapped swift_enums
           true false default_max_additions w).
  - reflexivity.
  - vm_compute. discriminate.
  - reflexivity.
Defined.

(** X17: when the diff finds no addition, whatever it finds as
    duplicates or as cases that are in the file only, a run within the
    limit reports that the enums are in sync and ends with exit code 0:
    it reads nothing, applies nothing, and leaves the file as it is,
    with or without [--apply]. *)
Theorem no_additions_no_changes
    (summary_text : list ChangeAnalysis → bool → list string)
    (apply_and_stamp : list ChangeAnalysis → bool → World → Z * World)
    (mapped : TargetDict EnumCase) (swift_enums : TargetDict SwiftEnumCase)
    (dry_run auto_approve skip_backup : bool) (max_additions : Z) (w : World) :
  _parse_existing_enums (w_target_file w) = Ok swift_enums →
  sum_lengths ca_additions (analyze_changes swift_enums mapped) = 0 →
  auto_approve = true ∨ 0 ≤ max_additions →
  ∃ w', run summary_text apply_and_stamp (Ok mapped) dry_run auto_approve skip_backup
          max_additions w = (0, w')
        ∧ w_target_file w' = w_target_file w
        ∧ w_stdin w' = w_stdin w
        ∧ last (w_printed w') = Some "No changes detected - enums are already in sync!".
Proof.
  intros Hparse Hsum Hlimit.
  unfold run. rewrite !print_target_file, Hparse.
  rewrite safety_limit_not_asked by (rewrite Hsum; tauto).
  unfold _show_change_summary. rewrite Hsum. cbn [Z.eqb andb].
  eexists. split; [reflexivity|]. split; [done|]. split; [done|].
  cbn [print w_printed]. by rewrite last_snoc.
Qed.

Lemma no_additions_no_changes_witness :
  let content := "public enum PushCode: UInt8, Sendable {" +:+ String newline ""
                 +:+ "    case pathUpdated = 0x81" +:+ String newline "" +:+ "}" in
  let case := {| ec_name := "pathUpdated"; ec_value := 129; ec_source_file := "packets.py";
                 ec_line_number := 7; ec_original_name := "PATH_UPDATED" |} in
  let mapped : TargetDict EnumCase :=
    fun t => match t with PushCode => [case] | _ => [] end in
  let swift_enums : TargetDict SwiftEnumCase :=
    dict_extend PushCode
      [{| sc_name := "pathUpdated"; sc_value := 129; sc_comment := None;
          sc_line_number := Some 1 |}]
      (dict_extend ResponseCode [] (dict_extend CommandCode [] empty_dict)) in
  let w := {| w_target_file := Some content; w_stdin := []; w_printed := [] |} in
  ∃ w', run (fun _ _ => []) (fun _ _ w => (1, set_target_file None w)) (Ok mapped)
          false false false default_max_additions w = (0, w')
        ∧ w_target_file w' = Some content
        ∧ w_stdin w' = []
        ∧ last (w_printed w') = Some "No changes detected - enums are already in sync!".
Proof.
  intros content case mapped swift_enums w.
  apply (no_additions_no_changes (fun _ _ => []) (fun _ _ w => (1, set_target_file None w))
           mapped swift_enums false false false default_max_additions w).
  - reflexivity.
  - reflexivity.
  - right. done.
Defined.

(** ** The version and the version comment *)

Lemma after_first_spec ch s rest :
  after_first ch s = Some rest →
  ∃ head, s = head +:+ String ch rest ∧ has_char ch head = false.
Proof.
  revert rest. induction s as [|c s IH]; intros rest; simpl; [done|].
  destruct (Ascii.eqb_spec c ch) as [->|Hc].
  - intros [= ->]. by exists "".
  - intros H. destruct (IH _ H) as (head & -> & Hhead).
    exists (String c head). split; [done|]. simpl.
    by rewrite (proj2 (Ascii.eqb_neq _ _) Hc), Hhead.
Qed.

Lemma after_first_none ch s : after_first ch s = None ↔ has_char ch s = false.
Proof.
  induction s as [|c s IH]; simpl; [done|].
  destruct (Ascii.eqb c ch); [done|]. by rewrite IH.
Qed.

Lemma digits_after_removal s :
  all_chars is_digit (remove_char "v" (remove_char "." s)) = all_chars is_version_char s.
Proof.
  induction s as [|c s IH]; [done|]. cbn [remove_char all_chars]. unfold is_version_char at 1.
  destruct (Ascii.eqb_spec c ".") as [->|Hdot]; [by rewrite IH|].
  cbn [remove_char]. destruct (Ascii.eqb_spec c "v") as [->|Hv]; [by rewrite IH|].
  cbn [all_chars]. by rewrite IH, !orb_false_r.
Qed.

Lemma isdigit_after_removal s :
  isdigit (remove_char "v" (remove_char "." s))
  = all_chars is_version_char s && any_char is_digit s.
Proof.
  unfold isdigit. induction s as [|c s IH]; [done|].
  cbn [remove_char all_chars any_char]. unfold is_version_char at 1.
  destruct (Ascii.eqb_spec c ".") as [->|Hdot]; [by rewrite IH|].
  cbn [remove_char]. destruct (Ascii.eqb_spec c "v") as [->|Hv]; [by rewrite IH|].
  cbn [all_chars String.eqb negb andb]. rewrite !orb_false_r, digits_after_removal.
  destruct (is_digit c); [|done]. by rewrite andb_true_r.
Qed.

Lemma lstrip_char_spec ch s :
  ∃ stripped, s = stripped +:+ lstrip_char ch s
              ∧ all_chars (Ascii.eqb ch) stripped = true
              ∧ startswith (String ch "") (lstrip_char ch s) = false.
Proof.
  induction s as [|c s (stripped & Hs & Hall & Hstart)]; simpl.
  - by exists "".
  - destruct (Ascii.eqb_spec c ch) as [->|Hc].
    + exists (String ch stripped). rewrite append_cons, <- Hs. simpl.
      by rewrite Ascii.eqb_refl, Hall.
    + exists "". simpl. rewrite (proj2 (Ascii.eqb_neq ch c)) by congruence. done.
Qed.

Lemma all_chars_app p a b : all_chars p (a +:+ b) = all_chars p a && all_chars p b.
Proof. induction a as [|c a IH]; [done|]. rewrite append_cons. simpl. by rewrite IH, andb_assoc. Qed.

Lemma any_char_app p a b : any_char p (a +:+ b) = any_char p a || any_char p b.
Proof. induction a as [|c a IH]; [done|]. rewrite append_cons. simpl. by rewrite IH, orb_assoc. Qed.

Lemma any_char_false p q s :
  (∀ c, q c = true → p c = false) → all_chars q s = true → any_char p s = false.
Proof.
  intros Hpq. induction s as [|c s IH]; simpl; [done|].
  intros [Hc Hs]%andb_true_iff. by rewrite (Hpq _ Hc), IH.
Qed.

Lemma extract_version_cases dir_name :
  _extract_version_from_path dir_name = "unknown"
  ∨ ∃ head stripped,
      dir_name = head +:+ String "-" (stripped +:+ _extract_version_from_path dir_name)
      ∧ has_char "-" head = false
      ∧ all_chars (Ascii.eqb "v") stripped = true
      ∧ all_chars is_version_char (_extract_version_from_path dir_name) = true
      ∧ any_char is_digit (_extract_version_from_path dir_name) = true
      ∧ startswith "v" (_extract_version_from_path dir_name) = false.
Proof.
  unfold _extract_version_from_path.
  destruct (after_first "-" dir_name) as [potential_version|] eqn:Hafter; [|by left].
  rewrite isdigit_after_removal.
  destruct (all_chars is_version_char potential_version) eqn:Hall; [|by left].
  destruct (any_char is_digit potential_version) eqn:Hany; [|by left].
  cbn [andb]. right.
  destruct (after_first_spec _ _ _ Hafter) as (head & -> & Hhead).
  destruct (lstrip_char_spec "v" potential_version) as (stripped & Hs & Hstripped & Hstart).
  exists head, stripped. split; [by rewrite <- Hs|]. split; [done|]. split; [done|].
  rewrite Hs, all_chars_app in Hall. apply andb_true_iff in Hall as [_ Hall].
  rewrite Hs, any_char_app in Hany.
  rewrite (any_char_false is_digit (Ascii.eqb "v") stripped) in Hany; [done| |done].
  intros c Hc. apply Ascii.eqb_eq in Hc as <-. done.
Qed.

(** X18: the version that [_extract_version_from_path] gives is
    [unknown], and always so for a name without a hyphen, or it is what
    follows the first hyphen of the name with the leading [v]s removed:
    a text of digits, dots and [v]s with a digit in it that does not
    start with [v]. *)
Theorem extracted_version_shape (dir_name : string) :
  let version := _extract_version_from_path dir_name in
  (has_char "-" dir_name = false → version = "unknown")
  ∧ (version = "unknown"
     ∨ ∃ head stripped,
         dir_name = head +:+ String "-" (stripped +:+ version)
         ∧ has_char "-" head = false
         ∧ all_chars (Ascii.eqb "v") stripped = true
         ∧ all_chars is_version_char version = true
         ∧ any_char is_digit version = true
         ∧ startswith "v" version = false).
Proof.
  intros version. subst version. split; [|apply extract_version_cases].
  intros Hno. unfold _extract_version_from_path.
  by rewrite (proj2 (after_first_none "-" dir_name) Hno).
Qed.

Lemma extracted_version_shape_witness :
  _extract_version_from_path "meshcore_py_2.2.1" = "unknown".
Proof. apply (proj1 (extracted_version_shape "meshcore_py_2.2.1")). reflexivity. Defined.

Lemma startswith_refl s : startswith s s = true.
Proof. induction s as [|c s IH]; [done|]. simpl. by rewrite Ascii.eqb_refl. Qed.

Lemma startswith_trans m r t :
  startswith m r = true → startswith r t = true → startswith m t = true.
Proof.
  revert r t. induction m as [|a m IH]; intros r t; [done|].
  destruct r as [|b r]; [done|]. destruct t as [|c t]; [done|]. simpl.
  intros [->%Ascii.eqb_eq Hm]%andb_true_iff [->%Ascii.eqb_eq Hr]%andb_true_iff.
  by rewrite Ascii.eqb_refl, (IH _ _ Hm Hr).
Qed.

Lemma startswith_short m p x :
  (String.length m ≤ String.length p)%nat → startswith m (p +:+ x) = startswith m p.
Proof.
  revert p. induction m as [|a m IH]; intros p Hlen; [done|].
  destruct p as [|b p]; [simpl in Hlen; lia|].
  rewrite append_cons. simpl. rewrite IH; [done|]. simpl in Hlen. lia.
Qed.

Lemma startswith_split p s : startswith p s = true → ∃ rest, s = p +:+ rest.
Proof.
  revert s. induction p as [|a p IH]; intros s; [by exists s|].
  destruct s as [|b s]; [done|]. simpl.
  intros [->%Ascii.eqb_eq Hp]%andb_true_iff.
  destruct (IH _ Hp) as [rest ->]. by exists rest.
Qed.

Lemma contains_prefix m r t :
  startswith m r = true → contains r t = true → contains m t = true.
Proof.
  intros Hm. induction t as [|c t IH]; cbn [contains].
  - rewrite !orb_false_r. by apply startswith_trans.
  - intros [H|H]%orb_true_iff.
    + by rewrite (startswith_trans _ _ _ Hm H).
    + rewrite (IH H). apply orb_true_r.
Qed.

Lemma contains_self_app r x : contains r (r +:+ x) = true.
Proof.
  apply contains_app_r. destruct r; cbn [contains]; [done|].
  by rewrite startswith_refl.
Qed.

Lemma plain_is_line s : all_chars is_plain_char s = true → all_chars not_newline s = true.
Proof.
  induction s as [|c s IH]; [done|]. simpl. unfold is_plain_char at 1.
  intros [[Hc _]%andb_true_iff Hs]%andb_true_iff. unfold not_newline at 1. by rewrite Hc, IH.
Qed.

(** In the rest of a matched line everything up to the newline goes. *)
Lemma sub_marker_lines_skip r x y :
  all_chars not_newline x = true →
  sub_marker_lines r true (x +:+ y) = sub_marker_lines r true y.
Proof.
  induction x as [|c x IH]; [done|]. simpl. unfold not_newline at 1.
  intros [Hc Hx]%andb_true_iff.
  apply negb_true_iff in Hc. rewrite Hc. by apply IH.
Qed.

Lemma sub_marker_lines_at_marker r tail x :
  all_chars not_newline tail = true →
  sub_marker_lines r false ((sync_marker +:+ tail) +:+ x) = r +:+ sub_marker_lines r true x.
Proof.
  intros Htail.
  assert (startswith sync_marker ((sync_marker +:+ tail) +:+ x) = true) as Hstart.
  { apply startswith_app, startswith_app, startswith_refl. }
  revert Hstart. rewrite append_assoc_string.
  change (sync_marker +:+ tail +:+ x)
    with (String "/" ("/ Synced to MeshCore_py" +:+ tail +:+ x)).
  cbn [sub_marker_lines]. intros ->. f_equal.
  rewrite sub_marker_lines_skip by done. by apply sub_marker_lines_skip.
Qed.

(** A match is where the marker starts, before and after a substitution. *)
Lemma sub_marker_lines_startswith r s m :
  startswith sync_marker r = true →
  (String.length m ≤ String.length sync_marker)%nat →
  startswith m (sub_marker_lines r false s) = startswith m s.
Proof.
  intros Hr. revert m. induction s as [|c s IH]; intros m Hlen; [done|].
  cbn [sub_marker_lines].
  destruct (startswith sync_marker (String c s)) eqn:Hstart.
  - destruct (startswith_split _ _ Hr) as [tail ->].
    destruct (startswith_split _ _ Hstart) as [rest ->].
    rewrite !append_assoc_string. by rewrite !startswith_short.
  - destruct m as [|a m]; [done|]. simpl. rewrite IH; [done|]. simpl in Hlen.
    unfold sync_marker in *. simpl in *. lia.
Qed.

(** A substitution after a substitution is the later one alone. *)
Lemma sub_marker_lines_twice r1 r2 s :
  startswith sync_marker r1 = true →
  all_chars not_newline r1 = true →
  sub_marker_lines r2 false (sub_marker_lines r1 false s) = sub_marker_lines r2 false s
  ∧ sub_marker_lines r2 true (sub_marker_lines r1 true s) = sub_marker_lines r2 true s.
Proof.
  intros Hr1 Hline. induction s as [|c s [IHf IHt]]; [done|]. split.
  - cbn [sub_marker_lines].
    destruct (startswith sync_marker (String c s)) eqn:Hstart.
    + destruct (startswith_split _ _ Hr1) as [tail Htail].
      rewrite Htail at 1. rewrite sub_marker_lines_at_marker; [by rewrite IHt|].
      rewrite Htail, all_chars_app in Hline. by apply andb_true_iff in Hline as [_ ?].
    + cbn [sub_marker_lines].
      pose proof (sub_marker_lines_startswith r1 (String c s) sync_marker Hr1 (le_n _)) as H.
      cbn [sub_marker_lines] in H. rewrite Hstart in H. rewrite H. by rewrite IHf.
  - cbn [sub_marker_lines].
    destruct (Ascii.eqb c newline) eqn:Hc.
    + cbn [sub_marker_lines]. rewrite Hc. by rewrite IHf.
    + apply IHt.
Qed.

Lemma sub_marker_lines_none r s :
  contains sync_marker s = false → sub_marker_lines r false s = s.
Proof.
  induction s as [|c s IH]; [done|]. cbn [contains sub_marker_lines].
  intros [-> Hs]%orb_false_iff. by rewrite IH.
Qed.

Lemma sub_marker_lines_contains r s :
  contains sync_marker s = true → contains r (sub_marker_lines r false s) = true.
Proof.
  induction s as [|c s IH]; [done|]. cbn [contains sub_marker_lines].
  destruct (startswith sync_marker (String c s)) eqn:Hstart.
  - intros _. apply contains_self_app.
  - cbn [orb]. intros Hs. cbn [contains]. rewrite (IH Hs). apply orb_true_r.
Qed.

Lemma version_comment_line version_tag today :
  all_chars is_plain_char version_tag = true →
  all_chars is_plain_char today = true →
  startswith sync_marker (version_comment version_tag today) = true
  ∧ all_chars not_newline (version_comment version_tag today) = true.
Proof.
  intros Htag Htoday. unfold version_comment. split.
  - apply startswith_app, startswith_refl.
  - rewrite !all_chars_app, (plain_is_line _ Htag), (plain_is_line _ Htoday). reflexivity.
Qed.

(** X19: the version comment records the latest synchronization only.
    Updating the comment of a text whose comment was updated before
    gives what updating the text itself gives, so an update with the
    same version and date changes nothing the second time; and the
    updated text holds the new comment.  The version and the date are
    text of one line without backslash, as [_extract_version_from_path]
    and [strftime] give them. *)
Theorem version_comment_keeps_latest_sync (tag1 today1 tag2 today2 content : string) :
  all_chars is_plain_char tag1 = true →
  all_chars is_plain_char today1 = true →
  all_chars is_plain_char tag2 = true →
  all_chars is_plain_char today2 = true →
  stamp_version tag2 today2 (stamp_version tag1 today1 content)
  = stamp_version tag2 today2 content
  ∧ contains (version_comment tag2 today2) (stamp_version tag2 today2 content) = true.
Proof.
  intros Htag1 Htoday1 Htag2 Htoday2.
  destruct (version_comment_line tag1 today1 Htag1 Htoday1) as [Hstart1 Hline1].
  unfold stamp_version.
  destruct (contains sync_marker content) eqn:Hmarker.
  - rewrite (contains_prefix sync_marker (version_comment tag1 today1)
               _ Hstart1 (sub_marker_lines_contains _ _ Hmarker)).
    split; [by apply sub_marker_lines_twice|by apply sub_marker_lines_contains].
  - split; [|apply contains_self_app].
    rewrite (contains_prefix sync_marker (version_comment tag1 today1) _ Hstart1
               (contains_self_app _ _)).
    destruct (startswith_split _ _ Hstart1) as [tail Htail].
    rewrite Htail at 1. rewrite sub_marker_lines_at_marker.
    + rewrite !append_cons. change ("" +:+ content) with content.
      cbn [sub_marker_lines]. rewrite Ascii.eqb_refl.
      change (startswith sync_marker (String newline content)) with false. cbn iota.
      by rewrite sub_marker_lines_none.
    + rewrite Htail, all_chars_app in Hline1. by apply andb_true_iff in Hline1 as [_ ?].
Qed.

Lemma version_comment_keeps_latest_sync_witness :
  let content := "// Synced to MeshCore_py v2.2.0 on 2025-01-01" +:+ String newline "enum E {}" in
  stamp_version "2.2.1" "2025-02-01" (stamp_version "2.2.1" "2025-02-01" content)
  = stamp_version "2.2.1" "2025-02-01" content
  ∧ contains (version_comment "2.2.1" "2025-02-01")
      (stamp_version "2.2.1" "2025-02-01" content) = true.
Proof.
  intros content.
  apply (version_comment_keeps_latest_sync "2.2.1" "2025-02-01" "2.2.1" "2025-02-01" content);
    reflexivity.
Defined.

(** ** Values written and read back *)

Lemma scan_digits_step base c d s prev acc :
  Ascii.eqb c underscore = false →
  digit_value c = Some d →
  (d <? base) = true →
  scan_digits base (String c s) prev acc = scan_digits base s PrevDigit (acc * base + d).
Proof. intros Hc Hd Hbase. cbn [scan_digits]. by rewrite Hc, Hd, Hbase. Qed.

(** One step of the scan on a digit that is known. *)
Ltac scan_known_digit :=
  match goal with
  | |- scan_digits ?base (String ?c ?s) ?prev ?acc = _ =>
      let d := eval vm_compute in (digit_value c) in
      match d with
      | Some ?v => rewrite (scan_digits_step base c v s prev acc eq_refl eq_refl eq_refl)
      end
  end.

Ltac scan_one_digit IH := scan_known_digit; rewrite <- IH; f_equal; lia.

Lemma scan_decimal_acc d acc :
  scan_digits 10 (DecimalString.NilEmpty.string_of_uint d) PrevDigit (Z.pos acc)
  = Some (Z.pos (Pos.of_uint_acc d acc)).
Proof.
  revert acc.
  induction d as [|d IH|d IH|d IH|d IH|d IH|d IH|d IH|d IH|d IH|d IH]; intros acc;
    cbn [DecimalString.NilEmpty.string_of_uint Pos.of_uint_acc]; [done|..];
    scan_one_digit IH.
Qed.

Lemma scan_decimal d prev :
  prev = PrevDigit ∨ (prev = PrevNone ∧ d ≠ Decimal.Nil) →
  scan_digits 10 (DecimalString.NilEmpty.string_of_uint d) prev 0
  = Some (Z.of_N (Pos.of_uint d)).
Proof.
  revert prev.
  induction d as [|d IH|d IH|d IH|d IH|d IH|d IH|d IH|d IH|d IH|d IH]; intros prev Hprev;
    cbn [DecimalString.NilEmpty.string_of_uint Pos.of_uint].
  1: by destruct Hprev as [->|[_ ?]].
  1: scan_known_digit; apply IH; by left.
  all: scan_known_digit; apply scan_decimal_acc.
Qed.

Lemma scan_hexadecimal_acc d acc :
  scan_digits 16 (upper (HexadecimalString.NilEmpty.string_of_uint d)) PrevDigit (Z.pos acc)
  = Some (Z.pos (Pos.of_hex_uint_acc d acc)).
Proof.
  revert acc.
  induction d as [|d IH|d IH|d IH|d IH|d IH|d IH|d IH|d IH|d IH|d IH
                  |d IH|d IH|d IH|d IH|d IH|d IH]; intros acc;
    cbn [HexadecimalString.NilEmpty.string_of_uint upper Pos.of_hex_uint_acc]; [done|..];
    scan_one_digit IH.
Qed.

Lemma scan_hexadecimal d prev :
  prev = PrevDigit ∨ (prev = PrevNone ∧ d ≠ Hexadecimal.Nil) →
  scan_digits 16 (upper (HexadecimalString.NilEmpty.string_of_uint d)) prev 0
  = Some (Z.of_N (Pos.of_hex_uint d)).
Proof.
  revert prev.
  induction d as [|d IH|d IH|d IH|d IH|d IH|d IH|d IH|d IH|d IH|d IH
                  |d IH|d IH|d IH|d IH|d IH|d IH]; intros prev Hprev;
    cbn [HexadecimalString.NilEmpty.string_of_uint upper Pos.of_hex_uint].
  1: by destruct Hprev as [->|[_ ?]].
  1: scan_known_digit; apply IH; by left.
  all: scan_known_digit; apply scan_hexadecimal_acc.
Qed.

Lemma decimal_value_chars d :
  all_chars is_value_char (DecimalString.NilEmpty.string_of_uint d) = true.
Proof.
  induction d as [|d IH|d IH|d IH|d IH|d IH|d IH|d IH|d IH|d IH|d IH];
    cbn [DecimalString.NilEmpty.string_of_uint all_chars]; [done|..];
    rewrite IH; reflexivity.
Qed.

Lemma hexadecimal_value_chars d :
  all_chars is_value_char (upper (HexadecimalString.NilEmpty.string_of_uint d)) = true.
Proof.
  induction d as [|d IH|d IH|d IH|d IH|d IH|d IH|d IH|d IH|d IH|d IH
                  |d IH|d IH|d IH|d IH|d IH|d IH];
    cbn [HexadecimalString.NilEmpty.string_of_uint upper all_chars]; [done|..];
    rewrite IH; reflexivity.
Qed.

Lemma value_char_spec c :
  is_value_char c = true →
  is_space c = false ∧ Ascii.eqb c "," = false ∧ Ascii.eqb c "/" = false.
Proof.
  unfold is_value_char. intros [[H1 H2]%andb_true_iff H3]%andb_true_iff.
  by rewrite !negb_true_iff in *.
Qed.

Lemma lstrip_value_chars s : all_chars is_value_char s = true → lstrip s = s.
Proof.
  destruct s as [|c s]; [done|]. simpl.
  intros [(Hc & _ & _)%value_char_spec _]%andb_true_iff. by rewrite Hc.
Qed.

Lemma rstrip_value_chars s : all_chars is_value_char s = true → rstrip s = s.
Proof.
  induction s as [|c s IH]; [done|]. simpl.
  intros [(Hc & _ & _)%value_char_spec Hs]%andb_true_iff.
  rewrite (IH Hs), Hc. by destruct s.
Qed.

Lemma rstrip_char_value_chars s : all_chars is_value_char s = true → rstrip_char "," s = s.
Proof.
  induction s as [|c s IH]; [done|]. simpl.
  intros [(_ & Hc & _)%value_char_spec Hs]%andb_true_iff.
  rewrite (IH Hs), Hc. by destruct s.
Qed.

Lemma strip_value_chars s : all_chars is_value_char s = true → strip s = s.
Proof. intros H. unfold strip. by rewrite (lstrip_value_chars _ H), rstrip_value_chars. Qed.

Lemma int_space_is_space c : is_int_space c = true → is_space c = true.
Proof. destruct c as [[] [] [] [] [] [] [] []]; vm_compute; congruence. Qed.

Lemma int_lstrip_value_chars s : all_chars is_value_char s = true → int_lstrip s = s.
Proof.
  destruct s as [|c s]; [done|]. simpl.
  intros [(Hc & _ & _)%value_char_spec _]%andb_true_iff.
  destruct (is_int_space c) eqn:E; [|done].
  apply int_space_is_space in E. congruence.
Qed.

Lemma int_rstrip_value_chars s : all_chars is_value_char s = true → int_rstrip s = s.
Proof.
  induction s as [|c s IH]; [done|]. simpl.
  intros [(Hc & _ & _)%value_char_spec Hs]%andb_true_iff.
  rewrite (IH Hs). destruct s; [|done].
  destruct (is_int_space c) eqn:E; [|done].
  apply int_space_is_space in E. congruence.
Qed.

Lemma int_strip_value_chars s : all_chars is_value_char s = true → int_strip s = s.
Proof.
  intros H. unfold int_strip. by rewrite (int_lstrip_value_chars _ H), int_rstrip_value_chars.
Qed.

(** The number of digits of a decimal numeral and its size. *)
Lemma count_digits_decimal d :
  count_digits (DecimalString.NilEmpty.string_of_uint d) = Z.of_nat (Decimal.nb_digits d).
Proof.
  induction d as [|d IH|d IH|d IH|d IH|d IH|d IH|d IH|d IH|d IH|d IH];
    cbn [DecimalString.NilEmpty.string_of_uint count_digits Decimal.nb_digits]; [done|..];
    rewrite IH; change (if Ascii.eqb _ underscore then 0 else 1) with 1; lia.
Qed.

Lemma of_uint_acc_lower d acc :
  Z.pos acc * 10 ^ Z.of_nat (Decimal.nb_digits d) ≤ Z.pos (Pos.of_uint_acc d acc).
Proof.
  revert acc.
  induction d as [|d IH|d IH|d IH|d IH|d IH|d IH|d IH|d IH|d IH|d IH]; intros acc;
    cbn [Decimal.nb_digits Pos.of_uint_acc]; [simpl; lia|..];
    (etransitivity; [|apply IH]);
    rewrite Nat2Z.inj_succ, Z.pow_succ_r by lia;
    pose proof (Z.pow_pos_nonneg 10 (Z.of_nat (Decimal.nb_digits d)) ltac:(lia) ltac:(lia));
    nia.
Qed.

Lemma nzhead_head d :
  match Decimal.nzhead d with Decimal.D0 _ => False | _ => True end.
Proof. induction d; simpl; done. Qed.

Lemma to_uint_digits p :
  10 ^ (Z.of_nat (Decimal.nb_digits (Pos.to_uint p)) - 1) ≤ Z.pos p.
Proof.
  pose proof (DecimalPos.Unsigned.of_to p) as Hvalue.
  pose proof (DecimalPos.Unsigned.to_of (Pos.to_uint p)) as Hnorm.
  rewrite Hvalue in Hnorm. cbn [N.to_uint] in Hnorm.
  pose proof (DecimalPos.Unsigned.to_uint_nonzero p) as Hnonzero.
  pose proof (nzhead_head (Pos.to_uint p)) as Hhead.
  unfold Decimal.unorm in Hnorm.
  destruct (Decimal.nzhead (Pos.to_uint p)) as [|d|d|d|d|d|d|d|d|d|d] eqn:Hnz;
    [by rewrite <- Hnorm in Hnonzero|done|..];
    rewrite Hnorm in Hvalue; rewrite Hnorm;
    cbn [Pos.of_uint Decimal.nb_digits] in *;
    injection Hvalue as <-;
    rewrite Nat2Z.inj_succ;
    replace (Z.succ (Z.of_nat (Decimal.nb_digits d)) - 1)
      with (Z.of_nat (Decimal.nb_digits d)) by lia;
    (etransitivity; [|apply of_uint_acc_lower]);
    pose proof (Z.pow_pos_nonneg 10 (Z.of_nat (Decimal.nb_digits d)) ltac:(lia) ltac:(lia));
    nia.
Qed.

Lemma digits_within_limit p n :
  0 ≤ n → Z.pos p < 10 ^ n → Z.of_nat (Decimal.nb_digits (Pos.to_uint p)) ≤ n.
Proof.
  intros Hn Hp. pose proof (to_uint_digits p) as Hlow.
  destruct (Z_le_gt_dec (Z.of_nat (Decimal.nb_digits (Pos.to_uint p))) n) as [|Hgt]; [done|].
  exfalso.
  assert (10 ^ n ≤ 10 ^ (Z.of_nat (Decimal.nb_digits (Pos.to_uint p)) - 1)) as Hpow.
  { apply Z.pow_le_mono_r; lia. }
  lia.
Qed.

(** [int(str(v))] for an integer that [str] accepts. *)
Lemma py_int_str_int v : Z.abs v < max_str_value → py_int 10 (str_int v) = Some v.
Proof.
  intros Hlimit. unfold py_int, str_int.
  destruct v as [|p|p]; [reflexivity|..]; cbn [Z.to_int].
  - cbn [DecimalString.NilZero.string_of_int].
    pose proof (DecimalPos.Unsigned.to_uint_nonnil p) as Hnil.
    pose proof (DecimalPos.Unsigned.of_to p) as Hp.
    pose proof (scan_decimal (Pos.to_uint p) PrevNone (or_intror (conj eq_refl Hnil))) as Hscan.
    pose proof (decimal_value_chars (Pos.to_uint p)) as Hchars.
    pose proof (digits_within_limit p max_str_digits ltac:(done) Hlimit) as Hdigits.
    rewrite <- count_digits_decimal in Hdigits. apply Z.ltb_ge in Hdigits.
    unfold DecimalString.NilZero.string_of_uint.
    destruct (Pos.to_uint p) as [|d|d|d|d|d|d|d|d|d|d] eqn:Hd; [done|..];
      rewrite (int_strip_value_chars _ Hchars);
      cbn [DecimalString.NilEmpty.string_of_uint] in *;
      cbn beta iota zeta; change (skip_base_prefix 10 ?s) with s;
      change (10 =? 10) with true;
      rewrite Hdigits, Hscan, Hp; reflexivity.
  - cbn [DecimalString.NilZero.string_of_int].
    pose proof (DecimalPos.Unsigned.to_uint_nonnil p) as Hnil.
    pose proof (DecimalPos.Unsigned.of_to p) as Hp.
    pose proof (scan_decimal (Pos.to_uint p) PrevNone (or_intror (conj eq_refl Hnil))) as Hscan.
    pose proof (decimal_value_chars (Pos.to_uint p)) as Hchars.
    pose proof (digits_within_limit p max_str_digits ltac:(done) Hlimit) as Hdigits.
    rewrite <- count_digits_decimal in Hdigits. apply Z.ltb_ge in Hdigits.
    unfold DecimalString.NilZero.string_of_uint.
    assert (∀ digits, all_chars is_value_char digits = true →
              int_strip (String "-" digits) = String "-" digits) as Hstrip.
    { intros digits H. by apply int_strip_value_chars. }
    destruct (Pos.to_uint p) as [|d|d|d|d|d|d|d|d|d|d] eqn:Hd; [done|..];
      rewrite (Hstrip _ Hchars);
      cbn beta iota zeta; change (skip_base_prefix 10 ?s) with s;
      change (10 =? 10) with true;
      rewrite Hdigits, Hscan, Hp; reflexivity.
Qed.

Lemma decimal_digits d :
  all_chars is_digit (DecimalString.NilEmpty.string_of_uint d) = true.
Proof.
  induction d as [|d IH|d IH|d IH|d IH|d IH|d IH|d IH|d IH|d IH|d IH];
    cbn [DecimalString.NilEmpty.string_of_uint all_chars]; [done|..];
    rewrite IH; reflexivity.
Qed.

Lemma digits_no_hex_prefix s :
  all_chars is_digit s = true → startswith "0x" s || startswith "0X" s = false.
Proof.
  destruct s as [|c1 [|c2 s]]; [done|cbn [startswith]; by rewrite !andb_false_r|].
  cbn [all_chars startswith]. intros [_ [Hc2 _]%andb_true_iff]%andb_true_iff.
  destruct (Ascii.eqb_spec "x" c2) as [<-|_]; [done|].
  destruct (Ascii.eqb_spec "X" c2) as [<-|_]; [done|].
  by rewrite !andb_false_r.
Qed.

(** What [str] gives is read back as a decimal number. *)
Lemma parse_swift_value_str_int v :
  Z.abs v < max_str_value → _parse_swift_value (str_int v) = Ok v.
Proof.
  intros Hlimit.
  assert (all_chars is_value_char (str_int v) = true
          ∧ startswith "0x" (str_int v) || startswith "0X" (str_int v) = false) as [Hchars Hhex].
  { unfold str_int. destruct v as [|p|p]; [done|..];
      cbn [Z.to_int DecimalString.NilZero.string_of_int];
      pose proof (DecimalPos.Unsigned.to_uint_nonnil p) as Hnil;
      unfold DecimalString.NilZero.string_of_uint;
      destruct (Pos.to_uint p) as [|d|d|d|d|d|d|d|d|d|d] eqn:Hd; try done.
    all: first
      [ split; [apply decimal_value_chars|apply digits_no_hex_prefix, decimal_digits]
      | split; [|done];
        change (all_chars is_value_char (String "-" ?s)) with (all_chars is_value_char s);
        apply decimal_value_chars ]. }
  unfold _parse_swift_value.
  rewrite (strip_value_chars _ Hchars), (rstrip_char_value_chars _ Hchars), Hhex.
  by rewrite py_int_str_int.
Qed.

Lemma max_str_value_large : 1000 ≤ max_str_value.
Proof.
  unfold max_str_value, max_str_digits.
  change 1000 with (10 ^ 3). apply Z.pow_le_mono_r; lia.
Qed.

Lemma zeros_value_chars n : all_chars is_value_char (zeros n) = true.
Proof. induction n as [|n IH]; [done|]. cbn [zeros all_chars]. by rewrite IH. Qed.

Lemma scan_zeros base n s :
  0 < base →
  scan_digits base (zeros n +:+ s) PrevDigit 0 = scan_digits base s PrevDigit 0.
Proof.
  intros Hbase. induction n as [|n IH]; [done|].
  cbn [zeros]. rewrite append_cons.
  rewrite (scan_digits_step base "0" 0 _ PrevDigit 0 eq_refl eq_refl); [|by apply Z.ltb_lt].
  exact IH.
Qed.

(** [int(text, 16)] on a text that starts with the prefix. *)
Lemma py_int_16_prefixed rest :
  all_chars is_value_char rest = true →
  startswith "_" rest = false →
  py_int 16 (String "0" (String "x" rest))
  = match scan_digits 16 rest PrevNone 0 with Some n => Some n | None => None end.
Proof.
  intros Hchars Hstart. unfold py_int.
  rewrite int_strip_value_chars by (cbn [all_chars]; by rewrite Hchars).
  cbn beta iota zeta. change (16 =? 10) with false. cbn [andb].
  unfold skip_base_prefix. cbn [Z.eqb Pos.eqb Ascii.eqb Bool.eqb orb].
  destruct rest as [|c rest]; [done|].
  destruct c as [[] [] [] [] [] [] [] []]; try reflexivity. discriminate Hstart.
Qed.

Lemma hex_digits_scan v :
  0 ≤ v →
  all_chars is_value_char (hex_digits v) = true
  ∧ startswith "_" (hex_digits v) = false
  ∧ hex_digits v ≠ ""
  ∧ ∀ prev, prev = PrevDigit ∨ prev = PrevNone → scan_digits 16 (hex_digits v) prev 0 = Some v.
Proof.
  intros Hv. unfold hex_digits. destruct v as [|p|p]; [|clear Hv|lia].
  - repeat split; try done; by intros prev [->| ->].
  - cbn [Z.to_hex_int HexadecimalString.NilZero.string_of_int].
    pose proof (HexadecimalPos.Unsigned.to_uint_nonnil p) as Hnil.
    pose proof (HexadecimalPos.Unsigned.of_to p) as Hp.
    unfold HexadecimalString.NilZero.string_of_uint.
    assert (∀ prev, prev = PrevDigit ∨ prev = PrevNone →
              scan_digits 16 (upper (HexadecimalString.NilEmpty.string_of_uint (Pos.to_hex_uint p)))
                prev 0 = Some (Z.pos p)) as Hscan.
    { intros prev Hprev. rewrite scan_hexadecimal; [by rewrite Hp|].
      destruct Hprev as [->| ->]; [by left|by right]. }
    pose proof (hexadecimal_value_chars (Pos.to_hex_uint p)) as Hchars.
    destruct (Pos.to_hex_uint p) as [|d|d|d|d|d|d|d|d|d|d|d|d|d|d|d|d]; [done|..];
      (split; [exact Hchars|]; split; [reflexivity|]; split; [discriminate|exact Hscan]).
Qed.

(** The text that [_format_swift_value] writes in hexadecimal is read
    back as the value. *)
Lemma parse_swift_value_hex v :
  0 ≤ v → _parse_swift_value ("0x" +:+ format_02X v) = Ok v.
Proof.
  intros Hv. destruct (hex_digits_scan v Hv) as (Hchars & Hstart & Hne & Hscan).
  unfold format_02X. rewrite (proj2 (Z.ltb_ge _ _) Hv). unfold zero_pad.
  set (n := (2 - String.length (hex_digits v))%nat). clearbody n.
  assert (all_chars is_value_char (zeros n +:+ hex_digits v) = true) as Hpadded.
  { by rewrite all_chars_app, zeros_value_chars, Hchars. }
  assert (startswith "_" (zeros n +:+ hex_digits v) = false) as Hpad_start.
  { by destruct n. }
  assert (scan_digits 16 (zeros n +:+ hex_digits v) PrevNone 0 = Some v) as Hpad_scan.
  { destruct n as [|n]; [apply Hscan; by right|].
    cbn [zeros]. rewrite append_cons.
    rewrite (scan_digits_step 16 "0" 0 _ PrevNone 0 eq_refl eq_refl eq_refl).
    rewrite scan_zeros by done. apply Hscan. by left. }
  change ("0x" +:+ zeros n +:+ hex_digits v)
    with (String "0" (String "x" (zeros n +:+ hex_digits v))).
  unfold _parse_swift_value.
  rewrite strip_value_chars by (cbn [all_chars]; by rewrite Hpadded).
  rewrite rstrip_char_value_chars by (cbn [all_chars]; by rewrite Hpadded).
  cbn [startswith Ascii.eqb Bool.eqb andb orb].
  by rewrite py_int_16_prefixed, Hpad_scan.
Qed.

Lemma parse_format_swift_value value source_context :
  0 ≤ value ∨ (startswith "0x" source_context = false ∧ - max_str_value < value) →
  _parse_swift_value (_format_swift_value value source_context) = Ok value.
Proof.
  unfold _format_swift_value. intros Hcase.
  destruct (128 <=? value) eqn:Hpush; cbn [orb].
  - apply parse_swift_value_hex. apply Z.leb_le in Hpush. lia.
  - destruct (startswith "0x" source_context) eqn:Hcontext.
    + apply parse_swift_value_hex. by destruct Hcase as [?|[? _]].
    + apply parse_swift_value_str_int. apply Z.leb_gt in Hpush.
      pose proof max_str_value_large. destruct Hcase as [?|[_ ?]]; lia.
Qed.

(** X20: the text that [_format_swift_value] writes for a value is read
    back by [_parse_swift_value] as that value, in decimal and in
    hexadecimal, for every value that is not negative and for every
    negative value of at most 4300 decimal digits under a context that
    does not start with [0x]; a negative value of more digits is
    refused by [str] and gets no text.  A negative value under a context
    that starts with [0x] gets a text with the sign after the prefix,
    which is no number. *)
Theorem formatted_value_parses_back (value : Z) (source_context : string) :
  (0 ≤ value ∨ (startswith "0x" source_context = false ∧ - max_str_value < value) →
   _parse_swift_value (_format_swift_value value source_context) = Ok value)
  ∧ (value < 0 → startswith "0x" source_context = true →
     _parse_swift_value (_format_swift_value value source_context) = Raise ValueError).
Proof.
  split; [apply parse_format_swift_value|].
  unfold _format_swift_value.
  intros Hneg ->. rewrite orb_true_r.
  unfold format_02X. rewrite (proj2 (Z.ltb_lt _ _) Hneg).
  destruct (hex_digits_scan (- value) ltac:(lia)) as (Hchars & _ & Hne & _).
  unfold zero_pad.
  set (n := (1 - String.length (hex_digits (- value)))%nat). clearbody n.
  assert (all_chars is_value_char (zeros n +:+ hex_digits (- value)) = true) as Hpadded.
  { by rewrite all_chars_app, zeros_value_chars, Hchars. }
  change ("0x" +:+ "-" +:+ zeros n +:+ hex_digits (- value))
    with (String "0" (String "x" (String "-" (zeros n +:+ hex_digits (- value))))).
  unfold _parse_swift_value.
  rewrite strip_value_chars by (cbn [all_chars]; by rewrite Hpadded).
  rewrite rstrip_char_value_chars by (cbn [all_chars]; by rewrite Hpadded).
  cbn [startswith Ascii.eqb Bool.eqb andb orb].
  unfold py_int.
  rewrite int_strip_value_chars by (cbn [all_chars]; by rewrite Hpadded).
  reflexivity.
Qed.

Lemma formatted_value_parses_back_witness :
  _parse_swift_value (_format_swift_value 300 "PATH_UPDATED") = Ok 300
  ∧ _parse_swift_value (_format_swift_value (-12) "OFFSET") = Ok (-12)
  ∧ _parse_swift_value (_format_swift_value (-1) "0x") = Raise ValueError.
Proof.
  split; [|split].
  - apply (proj1 (formatted_value_parses_back 300 "PATH_UPDATED")). left. lia.
  - apply (proj1 (formatted_value_parses_back (-12) "OFFSET")). right.
    split; [reflexivity|]. pose proof max_str_value_large. lia.
  - apply (proj2 (formatted_value_parses_back (-1) "0x")); [lia|reflexivity].
Defined.

(** ** Generated lines read back *)

Lemma span_app p a b :
  all_chars p a = true →
  match b with String c _ => p c = false | "" => True end →
  span p (a +:+ b) = (a, b).
Proof.
  intros Ha Hb. induction a as [|c a IH].
  - destruct b as [|c b]; [done|]. simpl. by rewrite Hb.
  - simpl in Ha. apply andb_true_iff in Ha as [Hc Ha].
    rewrite append_cons. simpl. by rewrite Hc, (IH Ha).
Qed.

Lemma word_is_no_space c : is_word c = true → is_space c = false.
Proof. destruct c as [[] [] [] [] [] [] [] []]; vm_compute; congruence. Qed.

Lemma value_chars_no_slash s :
  all_chars is_value_char s = true → all_chars not_slash_newline s = true.
Proof.
  induction s as [|c s IH]; [done|]. simpl.
  intros [(Hspace & _ & Hslash)%value_char_spec Hs]%andb_true_iff.
  rewrite (IH Hs), andb_true_r. unfold not_slash_newline. rewrite Hslash.
  destruct (Ascii.eqb_spec c newline) as [->|]; [done|done].
Qed.

Lemma value_chars_line s : all_chars is_value_char s = true → all_chars not_newline s = true.
Proof.
  induction s as [|c s IH]; [done|]. simpl.
  intros [(Hspace & _ & _)%value_char_spec Hs]%andb_true_iff.
  rewrite (IH Hs), andb_true_r. unfold not_newline.
  destruct (Ascii.eqb_spec c newline) as [->|]; [done|done].
Qed.

Lemma word_chars_line s : all_chars is_word s = true → all_chars not_newline s = true.
Proof.
  induction s as [|c s IH]; [done|]. simpl.
  intros [Hc Hs]%andb_true_iff. rewrite (IH Hs), andb_true_r. unfold not_newline.
  destruct (Ascii.eqb_spec c newline) as [->|]; [done|done].
Qed.

Lemma rstrip_trailing_space s :
  all_chars is_value_char s = true → rstrip (s +:+ " ") = s.
Proof.
  induction s as [|c s IH]; [done|]. rewrite append_cons. simpl.
  intros [(Hspace & _ & _)%value_char_spec Hs]%andb_true_iff.
  rewrite (IH Hs), Hspace. by destruct s.
Qed.

Lemma strip_trailing_space s :
  all_chars is_value_char s = true → strip (s +:+ " ") = s.
Proof.
  intros Hs. unfold strip. destruct s as [|c s]; [done|].
  rewrite append_cons. cbn [lstrip].
  pose proof Hs as Hs'. simpl in Hs'.
  apply andb_true_iff in Hs' as [(Hspace & _ & _)%value_char_spec _].
  rewrite Hspace, <- append_cons. by apply rstrip_trailing_space.
Qed.

Lemma str_int_value_chars v : all_chars is_value_char (str_int v) = true ∧ str_int v ≠ "".
Proof.
  unfold str_int. destruct v as [|p|p]; [done|..];
    cbn [Z.to_int DecimalString.NilZero.string_of_int];
    pose proof (DecimalPos.Unsigned.to_uint_nonnil p) as Hnil;
    pose proof (decimal_value_chars (Pos.to_uint p)) as Hchars;
    unfold DecimalString.NilZero.string_of_uint;
    destruct (Pos.to_uint p) as [|d|d|d|d|d|d|d|d|d|d] eqn:Hd; done.
Qed.

Lemma hex_digits_value_chars v : all_chars is_value_char (hex_digits v) = true.
Proof.
  unfold hex_digits. destruct v as [|p|p]; [done|..];
    cbn [Z.to_hex_int HexadecimalString.NilZero.string_of_int];
    pose proof (hexadecimal_value_chars (Pos.to_hex_uint p)) as Hchars;
    unfold HexadecimalString.NilZero.string_of_uint;
    destruct (Pos.to_hex_uint p) as [|d|d|d|d|d|d|d|d|d|d|d|d|d|d|d|d]; done.
Qed.

Lemma format_swift_value_chars value source_context :
  all_chars is_value_char (_format_swift_value value source_context) = true
  ∧ _format_swift_value value source_context ≠ "".
Proof.
  unfold _format_swift_value. destruct (_ || _); [|apply str_int_value_chars].
  split; [|done]. unfold format_02X, zero_pad.
  destruct (value <? 0);
    by rewrite !all_chars_app, zeros_value_chars, hex_digits_value_chars.
Qed.

Lemma search_case_skip c s :
  Ascii.eqb "c" c = false → search_case (String c s) = search_case s.
Proof.
  intros Hc. cbn [search_case]. unfold match_case_at at 1. cbn [strip_prefix]. by rewrite Hc.
Qed.

Lemma search_case_here s m : match_case_at s = Some m → search_case s = Some m.
Proof. intros H. destruct s; cbn [search_case]; by rewrite H. Qed.

(** The case pattern on a line of the form that [generate_swift_cases]
    writes, from the keyword on. *)
Lemma match_case_at_generated name value comment :
  name ≠ "" →
  all_chars is_word name = true →
  value ≠ "" →
  all_chars is_value_char value = true →
  all_chars not_newline comment = true →
  lstrip comment = comment →
  match_case_at ("case " +:+ name +:+ " = " +:+ value +:+ " // " +:+ comment)
  = Some {| cm_name := name; cm_value := value +:+ " "; cm_comment := Some comment |}.
Proof.
  intros Hname Hword Hvalue Hchars Hcomment Hlstrip. unfold match_case_at.
  change (strip_prefix "case" ("case " +:+ ?x)) with (Some (String " " x)).
  cbn beta iota.
  change (String " " ?x) with (" " +:+ x) at 1.
  rewrite (span_app is_space " ").
  2: done.
  2:{ destruct name as [|c name]; [done|]. rewrite append_cons.
      simpl in Hword. apply andb_true_iff in Hword as [Hc _]. by apply word_is_no_space. }
  cbn [String.eqb].
  rewrite (span_app is_word name); [|done|done].
  rewrite (proj2 (String.eqb_neq _ _) Hname).
  change (" = " +:+ ?x) with (" " +:+ String "=" (" " +:+ x)).
  rewrite (span_app is_space " "); [|done|done].
  cbn [snd].
  rewrite (span_app is_space " ").
  2: done.
  2:{ destruct value as [|c value]; [done|]. rewrite append_cons.
      simpl in Hchars. by apply andb_true_iff in Hchars as [(? & _ & _)%value_char_spec _]. }
  change (value +:+ " // " +:+ comment) with (value +:+ " " +:+ "// " +:+ comment).
  rewrite <- append_assoc_string.
  rewrite (span_app not_slash_newline (value +:+ " ")).
  2:{ by rewrite all_chars_app, value_chars_no_slash. }
  2: done.
  assert (String.eqb (value +:+ " ") "" = false) as ->.
  { destruct value; [done|]. by rewrite append_cons. }
  do 2 f_equal. unfold match_comment.
  change (lstrip ("// " +:+ comment)) with ("//" +:+ " " +:+ comment).
  change (strip_prefix "//" ("//" +:+ ?x)) with (Some x).
  cbn beta iota.
  change (lstrip (" " +:+ comment)) with (lstrip comment). rewrite Hlstrip.
  rewrite <- (append_nil_r comment) at 1. by rewrite span_app.
Qed.

(** Lines without a newline are what splitting their join gives. *)
Lemma split_join_lines line lines :
  Forall (fun l => all_chars not_newline l = true) (line :: lines) →
  split_on newline (join_with (String newline "") (line :: lines)) = line :: lines.
Proof.
  revert line. induction lines as [|next lines IH]; intros line Hlines.
  - apply Forall_inv in Hlines. cbn [join_with].
    induction line as [|c line IHl]; [done|]. simpl in *.
    apply andb_true_iff in Hlines as [Hc Hl]. unfold not_newline in Hc.
    apply negb_true_iff in Hc. by rewrite Hc, (IHl Hl).
  - rewrite join_with_cons. inversion Hlines as [|? ? Hline Hrest]; subst.
    specialize (IH next Hrest). revert IH. generalize (join_with (String newline "") (next :: lines)).
    intros joined IH. clear Hlines.
    induction line as [|c line IHl].
    + change ("" +:+ String newline "" +:+ joined) with (String newline joined).
      cbn [split_on]. by rewrite Ascii.eqb_refl, IH.
    + rewrite append_cons. simpl in Hline. apply andb_true_iff in Hline as [Hc Hl].
      unfold not_newline in Hc. apply negb_true_iff in Hc.
      cbn [split_on]. by rewrite Hc, (IHl Hl).
Qed.

Lemma generate_swift_cases_lines version_tag cases :
  generate_swift_cases version_tag cases
  = join_with (String newline "") (map (generated_line version_tag) (sorted_by ec_value cases)).
Proof. reflexivity. Qed.

Lemma printable_case_spec version_tag case :
  printable_case version_tag case = true →
  ec_name case ≠ ""
  ∧ all_chars is_word (ec_name case) = true
  ∧ all_chars not_newline (case_comment version_tag case) = true
  ∧ (0 ≤ ec_value case
     ∨ (startswith "0x" (ec_original_name case) = false ∧ - max_str_value < ec_value case)).
Proof.
  unfold printable_case.
  intros [[[Hname Hword]%andb_true_iff Hcomment]%andb_true_iff Hvalue]%andb_true_iff.
  split; [by apply String.eqb_neq, negb_true_iff|]. split; [done|]. split; [done|].
  apply orb_true_iff in Hvalue as [H|[H1 H2]%andb_true_iff]; [left; by apply Z.leb_le|].
  right. split; [by apply negb_true_iff|by apply Z.ltb_lt].
Qed.

Lemma generated_line_read version_tag case :
  printable_case version_tag case = true →
  search_case (generated_line version_tag case)
  = Some {| cm_name := ec_name case;
            cm_value := _format_swift_value (ec_value case) (ec_original_name case) +:+ " ";
            cm_comment := Some (case_comment version_tag case) |}.
Proof.
  intros (Hname & Hword & Hcomment & _)%printable_case_spec.
  destruct (format_swift_value_chars (ec_value case) (ec_original_name case)) as [Hchars Hvalue].
  unfold generated_line.
  change ("    case " +:+ ?x) with (String " " (String " " (String " " (String " " ("case " +:+ x))))).
  rewrite !search_case_skip by reflexivity.
  apply search_case_here, match_case_at_generated; done.
Qed.

Lemma generated_line_no_newline version_tag case :
  printable_case version_tag case = true →
  all_chars not_newline (generated_line version_tag case) = true.
Proof.
  intros (Hname & Hword & Hcomment & _)%printable_case_spec.
  destruct (format_swift_value_chars (ec_value case) (ec_original_name case)) as [Hchars _].
  unfold generated_line.
  by rewrite !all_chars_app, (word_chars_line _ Hword), (value_chars_line _ Hchars), Hcomment.
Qed.

Lemma parse_generated_lines version_tag line_num cases :
  Forall (fun case => printable_case version_tag case = true) cases →
  parse_case_lines line_num (map (generated_line version_tag) cases)
  = Ok (read_back version_tag line_num cases).
Proof.
  intros Hcases. revert line_num.
  induction Hcases as [|case cases Hcase _ IH]; intros line_num; [done|].
  cbn [map parse_case_lines read_back].
  rewrite (generated_line_read _ _ Hcase). cbn [cm_value cm_name cm_comment].
  destruct (format_swift_value_chars (ec_value case) (ec_original_name case)) as [Hchars _].
  rewrite (strip_trailing_space _ Hchars).
  apply printable_case_spec in Hcase as (_ & _ & _ & Hvalue).
  rewrite (parse_format_swift_value _ _ Hvalue), IH. reflexivity.
Qed.

(** X21: the parser reads the code that [generate_swift_cases] writes
    back as the cases it was written for: one case per line, in the
    order of the values, with the name, the value and the comment of
    the case and consecutive numbers.  The cases are to have an
    identifier as name and no newline in the texts of the comment; a
    negative value is to be one that [str] accepts, of at most 4300
    decimal digits, and is not to be written in hexadecimal. *)
Theorem generated_code_reads_back (version_tag : string) (cases : list EnumCase)
    (line_num : Z) :
  Forall (fun case => printable_case version_tag case = true) cases →
  parse_case_lines line_num (split_on newline (generate_swift_cases version_tag cases))
  = Ok (read_back version_tag line_num (sorted_by ec_value cases)).
Proof.
  intros Hcases. rewrite generate_swift_cases_lines.
  assert (Forall (fun case => printable_case version_tag case = true)
            (sorted_by ec_value cases)) as Hsorted.
  { apply Forall_forall. intros case Hin. rewrite Forall_forall in Hcases.
    apply Hcases. by rewrite (sorted_by_perm ec_value cases). }
  destruct (sorted_by ec_value cases) as [|case sorted]; [done|].
  cbn [map]. rewrite split_join_lines.
  - apply (parse_generated_lines version_tag line_num (case :: sorted) Hsorted).
  - change (Forall (fun l => all_chars not_newline l = true)
              (map (generated_line version_tag) (case :: sorted))).
    apply Forall_map. eapply Forall_impl; [exact Hsorted|].
    intros c Hc. by apply generated_line_no_newline.
Qed.

Lemma generated_code_reads_back_witness :
  let high := {| ec_name := "pathUpdated"; ec_value := 129; ec_source_file := "src/packets.py";
                 ec_line_number := 7; ec_original_name := "PATH_UPDATED" |} in
  let low := {| ec_name := "ok"; ec_value := 0; ec_source_file := "src/packets.py";
                ec_line_number := 3; ec_original_name := "OK" |} in
  parse_case_lines 10 (split_on newline (generate_swift_cases "2.2.1" [high; low]))
  = Ok [ {| sc_name := "ok"; sc_value := 0;
            sc_comment := Some "Python: OK (packets.py v2.2.1)"; sc_line_number := Some 10 |};
         {| sc_name := "pathUpdated"; sc_value := 129;
            sc_comment := Some "Python: PATH_UPDATED (packets.py v2.2.1)";
            sc_line_number := Some 11 |} ].
Proof.
  intros high low.
  apply (generated_code_reads_back "2.2.1" [high; low] 10).
  repeat constructor.
Defined.

(** ** Cases that are in the file *)





(** ** A run in which every enum is declined *)

Lemma apply_analyses_declined sub_enum_block version_tag swift_enums analyses content w
    answers rest :
  w_stdin w = (answers ++ rest)%list →
  Forall (fun response => is_yes response = false) answers →
  length answers = length (List.filter has_additions analyses) →
  ∃ w', apply_analyses sub_enum_block version_tag swift_enums analyses content w
        = (Ok content, w')
        ∧ w_stdin w' = rest.
Proof.
  revert w answers. induction analyses as [|analysis analyses IH]; intros w answers.
  - destruct answers; [|done]. intros Hstdin _ _. by exists w.
  - cbn [apply_analyses List.filter]. unfold has_additions at 1.
    destruct (is_nil (ca_additions analysis)) eqn:Hnil; cbn [negb].
    + apply IH.
    + intros Hstdin Hanswers Hlength.
      destruct answers as [|response answers]; [done|].
      inversion Hanswers as [|? ? Hno Hrest]; subst.
      unfold _get_enum_approval. rewrite Hnil.
      unfold input. rewrite print_stdin, Hstdin. cbn [app]. rewrite Hno.
      apply (IH _ answers); [done|done|]. cbn [length] in Hlength. lia.
Qed.

Lemma apply_changes_declined sub_enum_block swiftc_parse swiftformat version_tag swift_enums
    analyses skip_backup w content answers rest result :
  w_target_file w = Some content →
  w_stdin w = (answers ++ rest)%list →
  Forall (fun response => is_yes response = false) answers →
  length answers = length (List.filter has_additions analyses) →
  validate_swift_syntax swiftc_parse swiftformat content = (true, result) →
  ∃ w', _apply_changes sub_enum_block swiftc_parse swiftformat version_tag swift_enums analyses
          skip_backup w = Some (true, w')
        ∧ w_target_file w' = Some result
        ∧ w_stdin w' = rest.
Proof.
  intros Hfile Hstdin Hanswers Hlength Hvalid. unfold _apply_changes.
  destruct skip_backup.
  - cbn beta iota. rewrite print_target_file, Hfile.
    destruct (apply_analyses_declined sub_enum_block version_tag swift_enums analyses content
                (print "Skipping backup creation" w) answers rest Hstdin Hanswers Hlength)
      as (w1 & -> & Hrest).
    rewrite Hvalid. eexists. by split.
  - rewrite Hfile. cbn beta iota. rewrite Hfile.
    destruct (apply_analyses_declined sub_enum_block version_tag swift_enums analyses content
                w answers rest Hstdin Hanswers Hlength) as (w1 & -> & Hrest).
    rewrite Hvalid. eexists. by split.
Qed.

(** X23: declining every enum does not leave the file alone.  In a run
    with [--apply --auto-approve] in which each question of
    [_apply_changes] is answered with something else than yes, nothing is
    inserted, yet the text of the file goes through the validation and
    the file is written: when the compiler accepts the text and
    SwiftFormat is not available, the run ends with exit code 0 and the
    file holds the version comment followed by what the compiler wrote
    to standard error, not the enums it held. *)
Theorem declined_run_rewrites_file
    (summary_text : list ChangeAnalysis → bool → list string)
    (sub_enum_block : TargetEnum → string → string → result string)
    (swiftc_parse : string → result (bool * string)) (swiftformat : string → option string)
    (version_tag today : string) (mapped : TargetDict EnumCase)
    (swift_enums : TargetDict SwiftEnumCase) (skip_backup : bool) (max_additions : Z)
    (w : World) (content error_output : string) (answers rest : list string) :
  w_target_file w = Some content →
  _parse_existing_enums (Some content) = Ok swift_enums →
  sum_lengths ca_additions (analyze_changes swift_enums mapped) ≠ 0 →
  w_stdin w = (answers ++ rest)%list →
  Forall (fun response => is_yes response = false) answers →
  length answers = length (List.filter has_additions (analyze_changes swift_enums mapped)) →
  swiftc_parse content = Ok (true, error_output) →
  swiftformat content = None →
  ∃ w', run summary_text
          (apply_and_stamp sub_enum_block swiftc_parse swiftformat version_tag today swift_enums)
          (Ok mapped) false true skip_backup max_additions w = (0, w')
        ∧ w_target_file w' = Some (stamp_version version_tag today error_output)
        ∧ w_stdin w' = rest.
Proof.
  intros Hfile Hparse Hsum Hstdin Hanswers Hlength Hswiftc Hformat.
  unfold run. rewrite !print_target_file, Hfile, Hparse.
  rewrite safety_limit_not_asked by by left.
  unfold _show_change_summary.
  rewrite (proj2 (Z.eqb_neq _ _) Hsum). cbn [andb].
  set (w2 := print "Applying changes..." _).
  assert (w_target_file w2 = Some content) as Hfile2.
  { subst w2. by rewrite !print_target_file, foldl_print_target_file, !print_target_file. }
  assert (w_stdin w2 = (answers ++ rest)%list) as Hstdin2.
  { subst w2. by rewrite !print_stdin, foldl_print_stdin, !print_stdin. }
  assert (validate_swift_syntax swiftc_parse swiftformat content = (true, error_output))
    as Hvalid.
  { unfold validate_swift_syntax. by rewrite Hswiftc, Hformat. }
  unfold apply_and_stamp.
  destruct (apply_changes_declined sub_enum_block swiftc_parse swiftformat version_tag
              swift_enums (analyze_changes swift_enums mapped) skip_backup w2 content
              answers rest error_output Hfile2 Hstdin2 Hanswers Hlength Hvalid)
    as (w3 & -> & Hfile3 & Hstdin3).
  eexists. split; [reflexivity|].
  unfold _update_version_comment. rewrite Hfile3. by split.
Qed.

Lemma declined_run_rewrites_file_witness :
  let content := "public enum PushCode: UInt8, Sendable {" +:+ String newline ""
                 +:+ "    case advert = 0x80" +:+ String newline "" +:+ "}" in
  let case := {| ec_name := "pathUpdated"; ec_value := 129; ec_source_file := "packets.py";
                 ec_line_number := 7; ec_original_name := "PATH_UPDATED" |} in
  let mapped : TargetDict EnumCase :=
    fun t => match t with PushCode => [case] | _ => [] end in
  let swift_enums : TargetDict SwiftEnumCase :=
    dict_extend PushCode
      [{| sc_name := "advert"; sc_value := 128; sc_comment := None;
          sc_line_number := Some 1 |}]
      (dict_extend ResponseCode [] (dict_extend CommandCode [] empty_dict)) in
  let w := {| w_target_file := Some content; w_stdin := ["n"]; w_printed := [] |} in
  ∃ w', run (fun _ _ => [])
          (apply_and_stamp (fun _ _ text => Ok text) (fun _ => Ok (true, "")) (fun _ => None)
             "2.2.1" "2025-02-01" swift_enums)
          (Ok mapped) false true false default_max_additions w = (0, w')
        ∧ w_target_file w'
          = Some ("// Synced to MeshCore_py v2.2.1 on 2025-02-01" +:+ String newline ""
                  +:+ String newline "")
        ∧ w_stdin w' = [].
Proof.
  intros content case mapped swift_enums w.
  apply (declined_run_rewrites_file (fun _ _ => []) (fun _ _ text => Ok text)
           (fun _ => Ok (true, "")) (fun _ => None) "2.2.1" "2025-02-01" mapped swift_enums
           false default_max_additions w content "" ["n"] []).
  - reflexivity.
  - reflexivity.
  - vm_compute. discriminate.
  - reflexivity.
  - repeat constructor.
  - reflexivity.
  - reflexivity.
  - reflexivity.
Defined.

(** ** The release information *)

Lemma retry_from_step {A} (fetch : nat → option A) attempt remaining slept :
  fetch attempt = None →
  retry_from fetch attempt (S (S remaining)) slept
  = retry_from fetch (S attempt) (S remaining) (slept ++ [2 ^ Z.of_nat attempt])%list.
Proof. intros H. simpl. by rewrite H. Qed.

Lemma retry_from_success {A} (fetch : nat → option A) k :
  ∀ attempt remaining slept a,
    (k < remaining)%nat →
    (∀ j, (j < k)%nat → fetch (attempt + j)%nat = None) →
    fetch (attempt + k)%nat = Some a →
    retry_from fetch attempt remaining slept
    = (Ok (Some a), (slept ++ map (fun i => 2 ^ Z.of_nat i) (seq attempt k))%list).
Proof.
  induction k as [|k IH]; intros attempt remaining slept a Hk Hfailed Hfetch.
  - destruct remaining as [|remaining]; [lia|]. cbn [retry_from].
    rewrite Nat.add_0_r in Hfetch. rewrite Hfetch. cbn [seq map]. by rewrite app_nil_r.
  - destruct remaining as [|[|remaining]]; [lia|lia|].
    pose proof (Hfailed 0%nat ltac:(lia)) as Hfirst. rewrite Nat.add_0_r in Hfirst.
    rewrite (retry_from_step _ _ _ _ Hfirst).
    rewrite (IH (S attempt) (S remaining) _ a); [|lia| |].
    + cbn [seq map]. by rewrite <- app_assoc.
    + intros j Hj. specialize (Hfailed (S j) ltac:(lia)).
      by replace (S attempt + j)%nat with (attempt + S j)%nat by lia.
    + by replace (S attempt + k)%nat with (attempt + S k)%nat by lia.
Qed.

Lemma retry_from_failure {A} (fetch : nat → option A) remaining :
  ∀ attempt slept,
    (∀ j, (j < S remaining)%nat → fetch (attempt + j)%nat = None) →
    retry_from fetch attempt (S remaining) slept
    = (Raise RuntimeError,
       (slept ++ map (fun i => 2 ^ Z.of_nat i) (seq attempt remaining))%list).
Proof.
  induction remaining as [|remaining IH]; intros attempt slept Hfailed.
  - cbn [retry_from]. pose proof (Hfailed 0%nat ltac:(lia)) as Hfirst.
    rewrite Nat.add_0_r in Hfirst. rewrite Hfirst. cbn [seq map]. by rewrite app_nil_r.
  - pose proof (Hfailed 0%nat ltac:(lia)) as Hfirst.
    rewrite Nat.add_0_r in Hfirst. rewrite (retry_from_step _ _ _ _ Hfirst).
    rewrite IH.
    + cbn [seq map]. by rewrite <- app_assoc.
    + intros j Hj. specialize (Hfailed (S j) ltac:(lia)).
      by replace (S attempt + j)%nat with (attempt + S j)%nat by lia.
Qed.

(** X24: [get_latest_release_info] makes at most [MAX_RETRIES] requests
    and returns what the first attempt that goes through gives, after
    having slept 1, 2, ... seconds between the attempts before it; it
    raises [RuntimeError] exactly when all the attempts fail, without a
    sleep after the last one; and it never ends without a result.  An
    attempt fails on a request error, on a body that is no JSON and on a
    missing key alike. *)
Theorem release_info_retries (responses : nat → Response) :
  let attempt i := release_attempt (responses i) in
  (∀ k info,
     (k < MAX_RETRIES)%nat →
     (∀ j, (j < k)%nat → attempt j = None) →
     attempt k = Some info →
     get_latest_release_info responses
     = (Ok (Some info), map (fun i => 2 ^ Z.of_nat i) (seq 0 k)))
  ∧ ((∀ j, (j < MAX_RETRIES)%nat → attempt j = None) ↔
     (get_latest_release_info responses).1 = Raise RuntimeError)
  ∧ ((get_latest_release_info responses).1 = Raise RuntimeError →
     (get_latest_release_info responses).2 = [1; 2])
  ∧ (get_latest_release_info responses).1 ≠ Ok None.
Proof.
  intros attempt. unfold get_latest_release_info.
  assert (∀ k info,
            (k < MAX_RETRIES)%nat →
            (∀ j, (j < k)%nat → attempt j = None) →
            attempt k = Some info →
            retry_from attempt 0 MAX_RETRIES []
            = (Ok (Some info), map (fun i => 2 ^ Z.of_nat i) (seq 0 k))) as Hsuccess.
  { intros k info Hk Hfailed Hfetch.
    by rewrite (retry_from_success attempt k 0 MAX_RETRIES [] info). }
  assert ((∀ j, (j < MAX_RETRIES)%nat → attempt j = None) →
          retry_from attempt 0 MAX_RETRIES [] = (Raise RuntimeError, [1; 2])) as Hfailure.
  { intros Hfailed. unfold MAX_RETRIES in *.
    by rewrite (retry_from_failure attempt 2 0 [] Hfailed). }
  fold attempt.
  assert ((∃ k info, (k < MAX_RETRIES)%nat ∧ (∀ j, (j < k)%nat → attempt j = None)
                     ∧ attempt k = Some info)
          ∨ (∀ j, (j < MAX_RETRIES)%nat → attempt j = None)) as Hcases.
  { unfold MAX_RETRIES.
    destruct (attempt 0%nat) as [info|] eqn:H0.
    { left. exists 0%nat, info. split; [lia|]. split; [intros j Hj; lia|done]. }
    destruct (attempt 1%nat) as [info|] eqn:H1.
    { left. exists 1%nat, info. split; [lia|]. split; [|done].
      intros j Hj. by replace j with 0%nat by lia. }
    destruct (attempt 2%nat) as [info|] eqn:H2.
    { left. exists 2%nat, info. split; [lia|]. split; [|done].
      intros j Hj. destruct j as [|[|j]]; [done|done|lia]. }
    right. intros j Hj. destruct j as [|[|[|j]]]; [done|done|done|lia]. }
  split; [exact Hsuccess|]. split; [|split].
  - split.
    + intros Hfailed. by rewrite Hfailure.
    + destruct Hcases as [(k & info & Hk & Hfailed & Hfetch)|Hfailed]; [|done].
      by rewrite (Hsuccess k info Hk Hfailed Hfetch).
  - destruct Hcases as [(k & info & Hk & Hfailed & Hfetch)|Hfailed].
    + by rewrite (Hsuccess k info Hk Hfailed Hfetch).
    + by rewrite (Hfailure Hfailed).
  - destruct Hcases as [(k & info & Hk & Hfailed & Hfetch)|Hfailed].
    + by rewrite (Hsuccess k info Hk Hfailed Hfetch).
    + by rewrite (Hfailure Hfailed).
Qed.

Lemma release_info_retries_witness :
  let data := {| rd_assets := None; rd_tag_name := Some "v2.2.1"; rd_name := Some "2.2.1";
                 rd_published_at := Some "2025-02-01" |} in
  let responses (attempt : nat) :=
    match attempt with 0%nat => RequestFailed | 1%nat => InvalidJson | _ => Json data end in
  get_latest_release_info responses
  = (Ok (Some {| ri_tag := "v2.2.1"; ri_name := "2.2.1";
                 ri_download_url
                   := "https://github.com/meshcore-dev/meshcore_py/archive/v2.2.1.zip";
                 ri_published_at := "2025-02-01" |}),
     [1; 2]).
Proof.
  intros data responses.
  apply (proj1 (release_info_retries responses) 2%nat).
  - unfold MAX_RETRIES. lia.
  - intros j Hj. destruct j as [|[|j]]; [reflexivity|reflexivity|lia].
  - reflexivity.
Defined.

Lemma find_source_asset_found assets url :
  find_source_asset assets = Some (Some url) →
  ∃ before asset after name,
    assets = (before ++ asset :: after)%list
    ∧ asset_name asset = Some name
    ∧ is_source_zip name = true
    ∧ asset_browser_download_url asset = Some url
    ∧ Forall (fun a => ∃ n, asset_name a = Some n ∧ is_source_zip n = false) before.
Proof.
  induction assets as [|asset assets IH]; [done|]. cbn [find_source_asset].
  destruct (asset_name asset) as [name|] eqn:Hname; [|done].
  destruct (is_source_zip name) eqn:Hzip.
  - destruct (asset_browser_download_url asset) as [u|] eqn:Hurl; [|done].
    intros [= ->]. exists [], asset, assets, name. by repeat split.
  - intros H. destruct (IH H) as (before & found & after & n & -> & H1 & H2 & H3 & H4).
    exists (asset :: before), found, after, n. repeat split; try done.
    constructor; [by exists name|done].
Qed.

Lemma find_source_asset_none assets :
  find_source_asset assets = Some None →
  Forall (fun a => ∃ n, asset_name a = Some n ∧ is_source_zip n = false) assets.
Proof.
  induction assets as [|asset assets IH]; [done|]. cbn [find_source_asset].
  destruct (asset_name asset) as [name|] eqn:Hname; [|done].
  destruct (is_source_zip name) eqn:Hzip.
  - by destruct (asset_browser_download_url asset).
  - intros H. constructor; [by exists name|by apply IH].
Qed.

(** The loop stops at the first source archive: what comes after it plays
    no part. *)
Lemma find_source_asset_first before asset after name url :
  Forall (fun a => ∃ n, asset_name a = Some n ∧ is_source_zip n = false) before →
  asset_name asset = Some name →
  is_source_zip name = true →
  asset_browser_download_url asset = Some url →
  find_source_asset (before ++ asset :: after) = Some (Some url).
Proof.
  intros Hbefore Hname Hzip Hurl.
  induction Hbefore as [|a before (n & Hn & Hz) _ IH]; cbn [app find_source_asset].
  - by rewrite Hname, Hzip, Hurl.
  - by rewrite Hn, Hz.
Qed.

Lemma find_source_asset_absent assets :
  Forall (fun a => ∃ n, asset_name a = Some n ∧ is_source_zip n = false) assets →
  find_source_asset assets = Some None.
Proof.
  intros Hassets. induction Hassets as [|a assets (n & Hn & Hz) _ IH]; [done|].
  cbn [find_source_asset]. by rewrite Hn, Hz.
Qed.

(** X25: which download URL the release information gets.  When the
    assets hold a source archive (a name that ends with [.zip] and holds
    [source] in any case), the first of them in the order of the JSON
    decides, whatever comes after it: its URL is taken, and when that
    URL is empty the archive URL of the tag.  When every asset has a
    name and none is a source archive, the archive URL of the tag is
    taken.  The tag, the name and the date of the JSON are copied, and
    these are the only ways to get a release information: an asset
    without a name before the first source archive, a first source
    archive without a URL, or a missing tag, name or date give none. *)
Theorem release_download_url (data : ReleaseData) :
  let assets := default [] (rd_assets data) in
  let unnamed_free :=
    Forall (fun a => ∃ n, asset_name a = Some n ∧ is_source_zip n = false) in
  let info_with tag name published_at url :=
    {| ri_tag := tag; ri_name := name; ri_download_url := url;
       ri_published_at := published_at |} in
  (∀ before asset after name url tag release_name published_at,
     assets = (before ++ asset :: after)%list →
     unnamed_free before →
     asset_name asset = Some name →
     is_source_zip name = true →
     asset_browser_download_url asset = Some url →
     rd_tag_name data = Some tag →
     rd_name data = Some release_name →
     rd_published_at data = Some published_at →
     release_info_of data
     = Some (info_with tag release_name published_at
               (if String.eqb url "" then archive_url tag else url)))
  ∧ (∀ tag release_name published_at,
       unnamed_free assets →
       rd_tag_name data = Some tag →
       rd_name data = Some release_name →
       rd_published_at data = Some published_at →
       release_info_of data
       = Some (info_with tag release_name published_at (archive_url tag)))
  ∧ (∀ info,
       release_info_of data = Some info →
       rd_tag_name data = Some (ri_tag info)
       ∧ rd_name data = Some (ri_name info)
       ∧ rd_published_at data = Some (ri_published_at info)
       ∧ ri_download_url info ≠ ""
       ∧ ((unnamed_free assets ∧ ri_download_url info = archive_url (ri_tag info))
          ∨ ∃ before asset after name url,
              assets = (before ++ asset :: after)%list
              ∧ unnamed_free before
              ∧ asset_name asset = Some name
              ∧ is_source_zip name = true
              ∧ asset_browser_download_url asset = Some url
              ∧ ri_download_url info
                = if String.eqb url "" then archive_url (ri_tag info) else url)).
Proof.
  intros assets unnamed_free info_with. subst assets unnamed_free info_with. cbn beta.
  split; [|split].
  - intros before asset after name url tag release_name published_at
      Hassets Hbefore Hname Hzip Hurl Htag Hrelease Hpublished.
    unfold release_info_of.
    rewrite Hassets, (find_source_asset_first _ _ after _ _ Hbefore Hname Hzip Hurl).
    rewrite Htag, Hrelease, Hpublished. by destruct url.
  - intros tag release_name published_at Hassets Htag Hrelease Hpublished.
    unfold release_info_of.
    rewrite (find_source_asset_absent _ Hassets), Htag, Hrelease, Hpublished. done.
  - intros info. unfold release_info_of.
    destruct (find_source_asset (default [] (rd_assets data))) as [found|] eqn:Hfound; [|done].
    cbn [mbind option_bind].
    destruct (rd_tag_name data) as [tag|] eqn:Htag.
    2:{ destruct found as [[|c url]|]; done. }
    destruct (rd_name data) as [name|] eqn:Hname.
    2:{ destruct found as [[|c url]|]; done. }
    destruct (rd_published_at data) as [published_at|] eqn:Hpublished.
    2:{ destruct found as [[|c url]|]; done. }
    destruct found as [[|c url]|]; cbn [fmap option_fmap option_map mbind option_bind];
      intros [= <-]; cbn [ri_tag ri_name ri_published_at ri_download_url];
      (split; [done|]; split; [done|]; split; [done|]; split; [done|]).
    + right. destruct (find_source_asset_found _ _ Hfound)
        as (before & asset & after & n & H1 & H2 & H3 & H4 & H5).
      by exists before, asset, after, n, "".
    + right. destruct (find_source_asset_found _ _ Hfound)
        as (before & asset & after & n & H1 & H2 & H3 & H4 & H5).
      by exists before, asset, after, n, (String c url).
    + left. split; [by apply find_source_asset_none|done].
Qed.

Lemma release_download_url_witness :
  let assets := [ {| asset_name := Some "meshcore-2.2.1-py3-none-any.whl";
                     asset_browser_download_url := Some "https://example.org/wheel" |};
                  {| asset_name := Some "meshcore-Source.zip";
                     asset_browser_download_url := Some "https://example.org/source.zip" |};
                  {| asset_name := None; asset_browser_download_url := None |} ] in
  let data := {| rd_assets := Some assets; rd_tag_name := Some "v2.2.1";
                 rd_name := Some "2.2.1"; rd_published_at := Some "2025-02-01" |} in
  release_info_of data
  = Some {| ri_tag := "v2.2.1"; ri_name := "2.2.1";
            ri_download_url := "https://example.org/source.zip";
            ri_published_at := "2025-02-01" |}.
Proof.
  intros assets data.
  apply (proj1 (release_download_url data)
           [ {| asset_name := Some "meshcore-2.2.1-py3-none-any.whl";
                asset_browser_download_url := Some "https://example.org/wheel" |} ]
           {| asset_name := Some "meshcore-Source.zip";
              asset_browser_download_url := Some "https://example.org/source.zip" |}
           [ {| asset_name := None; asset_browser_download_url := None |} ]
           "meshcore-Source.zip" "https://example.org/source.zip" "v2.2.1" "2.2.1"
           "2025-02-01").
  - reflexivity.
  - constructor; [|constructor]. by eexists.
  - reflexivity.
  - reflexivity.
  - reflexivity.
  - reflexivity.
  - reflexivity.
  - reflexivity.
Defined.
